(** * Neo4jLoader: a shallow embedding of [src/services/neo4j_loader.py]

    The loader reads JSON exports (products, events, R&D projects), maps
    every record to parameterised Cypher statements and runs them against a
    Neo4j session.  This development embeds

    - the Python values that [json.load] produces, with the dynamic checks
      of the operations the loader applies to them (subscripting, [.get],
      iteration, comparison, [float()], [int()], [str.split], ...);
    - the property graph and the few Cypher statement shapes the loader
      issues (MERGE of a node on its key, MATCH of both endpoints followed by
      MERGE of a relationship, SET of properties);
    - the loader's methods, in a state-and-exception monad over the graph.

    Conventions.  A Python [str] is the list of its code points.  A float is
    an IEEE binary64 value ([spec_float] with precision 53).  The database
    engine is an external collaborator: a statement always runs, property
    values are stored as they are passed, and two property values are the
    same when they are structurally equal. *)

From Stdlib Require Import ZArith NArith List Bool Lia String Ascii.
From Stdlib Require Import DecimalString.
From Stdlib Require Import Floats.SpecFloat.
Import ListNotations.

Set Implicit Arguments.

(* ------------------------------------------------------------------ *)
(** ** Python strings *)

Module PyStr.

Definition char := N.
Definition str := list char.

(** An ASCII literal as a Python string. *)
Definition lit (s : string) : str :=
  List.map N_of_ascii (list_ascii_of_string s).

Definition str_eqb (a b : str) : bool :=
  if list_eq_dec N.eq_dec a b then true else false.

(** [str.isspace] on one code point: the whitespace set of CPython's
    Unicode database. *)
Definition is_space (c : char) : bool :=
  ((9 <=? c) && (c <=? 13) || (28 <=? c) && (c <=? 32)
   || (c =? 133) || (c =? 160) || (c =? 5760)
   || (8192 <=? c) && (c <=? 8202)
   || (c =? 8232) || (c =? 8233) || (c =? 8239) || (c =? 8287)
   || (c =? 12288))%N.

(** The C locale's [isspace], which the number parsers use after they have
    folded the string to ASCII. *)
Definition is_c_space (c : char) : bool :=
  ((9 <=? c) && (c <=? 13) || (c =? 32))%N.

Fixpoint lstrip_with (p : char -> bool) (s : str) : str :=
  match s with
  | c :: s' => if p c then lstrip_with p s' else s
  | [] => []
  end.

Definition strip_with (p : char -> bool) (s : str) : str :=
  rev (lstrip_with p (rev (lstrip_with p s))).

(** [s.strip()] *)
Definition strip (s : str) : str := strip_with is_space s.

(** [s.replace(c, '')] for a one-character [c]. *)
Definition remove_char (c : char) (s : str) : str :=
  filter (fun d => negb (N.eqb d c)) s.

Fixpoint is_prefix (p s : str) : bool :=
  match p, s with
  | [], _ => true
  | c :: p', d :: s' => N.eqb c d && is_prefix p' s'
  | _ :: _, [] => false
  end.

(** [s.split(sep)] for a non-empty [sep]: the occurrences of [sep] are
    found from left to right and do not overlap.  [cur] is the part being
    read, reversed; [skip] counts the characters of a separator still to be
    passed over. *)
Fixpoint split_from (sep s cur : str) (skip : nat) : list str :=
  match s with
  | [] => [rev cur]
  | c :: s' =>
      match skip with
      | S k => split_from sep s' cur k
      | O =>
          if is_prefix sep s
          then rev cur :: split_from sep s' [] (List.length sep - 1)
          else split_from sep s' (c :: cur) 0
      end
  end.

Definition split (sep s : str) : list str := split_from sep s [] 0.

Definition is_digit (c : char) : bool := ((48 <=? c) && (c <=? 57))%N.

Definition digit_val (c : char) : Z := Z.of_N c - 48.

(** ASCII lower case, for the case-insensitive keywords of [float()]. *)
Definition lower (c : char) : char :=
  if ((65 <=? c) && (c <=? 90))%N then (c + 32)%N else c.

(** [os.path.basename] on a POSIX path: what follows the last slash. *)
Fixpoint basename_from (s cur : str) : str :=
  match s with
  | [] => rev cur
  | c :: s' =>
      if N.eqb c 47 then basename_from s' [] else basename_from s' (c :: cur)
  end.

Definition basename (s : str) : str := basename_from s [].

(** [sep.join(parts)] *)
Fixpoint join (sep : str) (parts : list str) : str :=
  match parts with
  | [] => []
  | [p] => p
  | p :: ps => p ++ sep ++ join sep ps
  end.

End PyStr.
Import PyStr.

(* ------------------------------------------------------------------ *)
(** ** Python numbers: [float()] and [int()] *)

Module PyNum.

Definition float64 := spec_float.

Definition float_eq_dec (a b : float64) : {a = b} + {a <> b}.
Proof.
  decide equality; try apply Bool.bool_dec; try apply Z.eq_dec;
    apply Pos.eq_dec.
Defined.

(** The nearest binary64 value of an integer, ties to even. *)
Definition float_of_Z (n : Z) : float64 := binary_normalize 53 1024 n 0 false.

Definition cond_neg (neg : bool) (m : Z) : Z := if neg then (- m)%Z else m.

(** The nearest binary64 value of [(-1)^neg * m * 10^e], ties to even.  For
    a negative exponent the quotient is taken with at least 55 significant
    bits and the remainder is folded into a sticky last bit, so that the one
    rounding of [binary_normalize] is the correct rounding of the exact
    decimal value. *)
Definition float_of_decimal (neg : bool) (m : Z) (e : Z) : float64 :=
  if (m =? 0)%Z then S754_zero neg
  else if (0 <=? e)%Z
  then binary_normalize 53 1024 (cond_neg neg (m * 10 ^ e)) 0 false
  else
    let d := (10 ^ (- e))%Z in
    let sh := Z.max 0 (Z.log2 d + 57 - Z.log2 m) in
    let num := (m * 2 ^ sh)%Z in
    let q := (num / d)%Z in
    let sticky := if (num mod d =? 0)%Z then 0%Z else 1%Z in
    binary_normalize 53 1024 (cond_neg neg (2 * q + sticky)) (- (sh + 1)) false.

(** IEEE equality, Python's [==] on floats: NaN is not equal to itself, the
    two zeros are equal. *)
Definition float_eqb (a b : float64) : bool := SFeqb a b.

(** IEEE [>], Python's [>] on floats. *)
Definition float_gtb (a b : float64) : bool := SFltb b a.

Definition is_nan (a : float64) : bool :=
  match a with S754_nan => true | _ => false end.

(** Reading decimal digits. *)
Fixpoint take_digits (s : str) (acc : Z) (n : nat) : Z * nat * str :=
  match s with
  | c :: s' =>
      if is_digit c then take_digits s' (10 * acc + digit_val c)%Z (S n)
      else (acc, n, s)
  | [] => (acc, n, [])
  end.

Definition take_sign (s : str) : bool * str :=
  match s with
  | 45%N :: s' => (true, s')
  | 43%N :: s' => (false, s')
  | _ => (false, s)
  end.

(** [sys.get_int_max_str_digits()]: the interpreter's default limit on the
    digits of a decimal literal that [int()] converts.  The loader does not
    change it. *)
Definition int_max_str_digits : N := 4300.

(** The pass of [_Py_string_to_number_with_underscores]: an underscore
    stands between two digits; the underscores are then dropped. *)
Fixpoint drop_underscores (s : str) (prev : char) : option str :=
  match s with
  | [] => if N.eqb prev 95 then None else Some []
  | c :: s' =>
      if N.eqb c 95
      then if is_digit prev then drop_underscores s' c else None
      else if N.eqb prev 95 && negb (is_digit c) then None
           else option_map (cons c) (drop_underscores s' c)
  end.

Section Unicode.

(** [Py_UNICODE_TODECIMAL] on the code points from 127 on: the decimal
    digits of the other scripts, from the interpreter's Unicode database. *)
Variable unicode_decimal : char -> option N.

(** [_PyUnicode_TransformDecimalAndSpaceToASCII]: spaces become [' '],
    decimal digits become ASCII digits, anything else outside ASCII becomes
    ['?'], which no number contains. *)
Definition to_ascii (c : char) : char :=
  if (c <? 127)%N then c
  else if is_space c then 32%N
  else match unicode_decimal c with
       | Some d => (48 + d)%N
       | None => 63%N
       end.

(** The number after the sign, for [float()]: [inf], [infinity], [nan]
    (any case) or digits with an optional fraction and exponent. *)
Definition float_body (neg : bool) (s : str) : option float64 :=
  let low := List.map lower s in
  if str_eqb low (lit "inf") || str_eqb low (lit "infinity")
  then Some (S754_infinity neg)
  else if str_eqb low (lit "nan") then Some S754_nan
  else
    let '(ip, ni, s1) := take_digits s 0%Z 0 in
    let '(m, nf, s2) :=
      match s1 with
      | 46%N :: s1' => let '(m, nf, s2) := take_digits s1' ip 0 in (m, nf, s2)
      | _ => (ip, 0, s1)
      end in
    match (ni + nf)%nat with
    | O => None
    | _ =>
        match s2 with
        | [] => Some (float_of_decimal neg m (- Z.of_nat nf))
        | c :: s3 =>
            if N.eqb (lower c) 101
            then
              let (eneg, s4) := take_sign s3 in
              let '(ex, ne, s5) := take_digits s4 0%Z 0 in
              match ne, s5 with
              | S _, [] =>
                  Some (float_of_decimal neg m (cond_neg eneg ex - Z.of_nat nf))
              | _, _ => None
              end
            else None
        end
    end.

(** [float(s)] for a string: [None] stands for [ValueError].  A literal too
    large for binary64 reads as an infinity. *)
Definition float_of_str (s : str) : option float64 :=
  match drop_underscores (List.map to_ascii s) 0%N with
  | None => None
  | Some s1 =>
      let (neg, s2) := take_sign (strip_with is_c_space s1) in
      float_body neg s2
  end.

(** [int(s)] for a string, base ten: [None] stands for [ValueError], which
    is also what a literal of more digits than [int_max_str_digits] raises.
    The digits are counted without the sign and the underscores, leading
    zeros included. *)
Definition int_of_str (s : str) : option Z :=
  match drop_underscores (strip_with is_c_space (List.map to_ascii s)) 0%N with
  | None => None
  | Some s1 =>
      let (neg, s2) := take_sign s1 in
      match take_digits s2 0%Z 0 with
      | (n, S d, []) =>
          if (N.of_nat (S d) <=? int_max_str_digits)%N
          then Some (cond_neg neg n)
          else None
      | _ => None
      end
  end.

End Unicode.

End PyNum.
Import PyNum.

(* ------------------------------------------------------------------ *)
(** ** Python values, exceptions and the operations of the loader *)

Module PyVal.

(** What [json.load] returns.  A dict is the list of its items in insertion
    order, with distinct keys. *)
#[local] Unset Elimination Schemes.
Inductive pyval :=
| PNone
| PBool (b : bool)
| PInt (n : Z)
| PFloat (f : float64)
| PStr (s : str)
| PList (l : list pyval)
| PDict (d : list (str * pyval)).
#[local] Set Elimination Schemes.

Inductive exn :=
| KeyError (k : str)
| TypeError
| AttributeError
| ValueError
| OverflowError.

Inductive result (A : Type) :=
| Ok (a : A)
| Raise (e : exn).
Arguments Ok {A} a.
Arguments Raise {A} e.

Definition rbind {A B} (r : result A) (k : A -> result B) : result B :=
  match r with
  | Ok a => k a
  | Raise e => Raise e
  end.

Definition is_ok {A} (r : result A) : bool :=
  match r with Ok _ => true | Raise _ => false end.

(** Structural equality of values: what the graph compares keys with. *)
Fixpoint pyval_eqb (a b : pyval) : bool :=
  match a, b with
  | PNone, PNone => true
  | PBool x, PBool y => Bool.eqb x y
  | PInt x, PInt y => Z.eqb x y
  | PFloat x, PFloat y => if float_eq_dec x y then true else false
  | PStr x, PStr y => str_eqb x y
  | PList x, PList y =>
      (fix go (x y : list pyval) : bool :=
         match x, y with
         | [], [] => true
         | a :: x', b :: y' => pyval_eqb a b && go x' y'
         | _, _ => false
         end) x y
  | PDict x, PDict y =>
      (fix go (x y : list (str * pyval)) : bool :=
         match x, y with
         | [], [] => true
         | (k, a) :: x', (k', b) :: y' =>
             str_eqb k k' && pyval_eqb a b && go x' y'
         | _, _ => false
         end) x y
  | _, _ => false
  end.

Fixpoint lookup {A} (k : str) (d : list (str * A)) : option A :=
  match d with
  | [] => None
  | (k', v) :: d' => if str_eqb k k' then Some v else lookup k d'
  end.

(** [v[k]] for a string [k]. *)
Definition getitem (v : pyval) (k : str) : result pyval :=
  match v with
  | PDict d =>
      match lookup k d with
      | Some x => Ok x
      | None => Raise (KeyError k)
      end
  | _ => Raise TypeError
  end.

(** [v[k1][k2]] *)
Definition getitem2 (v : pyval) (k1 k2 : str) : result pyval :=
  rbind (getitem v k1) (fun x => getitem x k2).

(** [v.get(k, default)] *)
Definition get (v : pyval) (k : str) (default : pyval) : result pyval :=
  match v with
  | PDict d =>
      match lookup k d with
      | Some x => Ok x
      | None => Ok default
      end
  | _ => Raise AttributeError
  end.

(** The items that [for x in v] goes through. *)
Definition iter (v : pyval) : result (list pyval) :=
  match v with
  | PList l => Ok l
  | PStr s => Ok (List.map (fun c => PStr [c]) s)
  | PDict d => Ok (List.map (fun kv => PStr (fst kv)) d)
  | _ => Raise TypeError
  end.

(** [v > 0] *)
Definition gt_zero (v : pyval) : result bool :=
  match v with
  | PBool b => Ok b
  | PInt n => Ok (0 <? n)%Z
  | PFloat f => Ok (float_gtb f (S754_zero false))
  | _ => Raise TypeError
  end.

(** [v.split(sep)] *)
Definition py_split (v : pyval) (sep : str) : result (list str) :=
  match v with
  | PStr s => Ok (split sep s)
  | _ => Raise AttributeError
  end.

(** [isinstance(v, (int, float))]; a bool is an int. *)
Definition is_number (v : pyval) : bool :=
  match v with
  | PBool _ | PInt _ | PFloat _ => true
  | _ => false
  end.

Definition is_str (v : pyval) : bool :=
  match v with PStr _ => true | _ => false end.

(** [str(n)] for an int: its decimal digits, after a minus sign when it is
    negative.  (An int that [json.load] has read is within the limit of
    [int_max_str_digits], beyond which [str()] raises.) *)
Definition str_of_int (n : Z) : str :=
  lit (NilZero.string_of_int (Z.to_int n)).

(** [str(v)] on the values whose text the language fixes in so many words:
    a string is itself, an int its decimal digits, the constants their
    names.  [other] renders the floats and the containers. *)
Definition str_of_value (other : pyval -> str) (v : pyval) : str :=
  match v with
  | PNone => lit "None"
  | PBool true => lit "True"
  | PBool false => lit "False"
  | PInt n => str_of_int n
  | PStr s => s
  | _ => other v
  end.

(** [float(v)] for a number: an int beyond the binary64 range raises
    [OverflowError]. *)
Definition float_of_int (n : Z) : result float64 :=
  match float_of_Z n with
  | S754_infinity _ => Raise OverflowError
  | f => Ok f
  end.

Section Interp.

Variable unicode_decimal : char -> option N.

(** [float(v)] *)
Definition py_float (v : pyval) : result float64 :=
  match v with
  | PBool b => Ok (float_of_Z (if b then 1 else 0))
  | PInt n => float_of_int n
  | PFloat f => Ok f
  | PStr s =>
      match float_of_str unicode_decimal s with
      | Some f => Ok f
      | None => Raise ValueError
      end
  | _ => Raise TypeError
  end.

(** [int(s)] for a string *)
Definition py_int (s : str) : result Z :=
  match int_of_str unicode_decimal s with
  | Some n => Ok n
  | None => Raise ValueError
  end.

(** [v.replace('€', '').replace(',', '').replace(' ', '').strip()] *)
Definition clean_revenue (v : pyval) : result str :=
  match v with
  | PStr s =>
      Ok (strip (remove_char 32%N (remove_char 44%N (remove_char 8364%N s))))
  | _ => Raise AttributeError
  end.

(** [Neo4jLoader.parse_revenue] *)
Definition parse_revenue (revenue_str : pyval) : result float64 :=
  if is_number revenue_str then py_float revenue_str
  else
    rbind (clean_revenue revenue_str) (fun cleaned =>
      match py_float (PStr cleaned) with
      | Ok f => Ok f
      | Raise _ => Ok (S754_zero false)
      end).

End Interp.

End PyVal.
Import PyVal.

(* ------------------------------------------------------------------ *)
(** ** The property graph and the Cypher statements of the loader *)

Module Graph.

Inductive label :=
| Product | BatteryType | TradeShow | Event | Sale | RDProject | Image.

Inductive reltype :=
| USES_BATTERY | DISPLAYED_AT | SOLD_AT | INCLUDES_PRODUCT | DEPLOYED_AT
| TARGETS_PRODUCT.

Definition label_eq_dec (a b : label) : {a = b} + {a <> b}.
Proof. decide equality. Defined.

Definition reltype_eq_dec (a b : reltype) : {a = b} + {a <> b}.
Proof. decide equality. Defined.

Definition label_eqb (a b : label) : bool :=
  if label_eq_dec a b then true else false.

Definition reltype_eqb (a b : reltype) : bool :=
  if reltype_eq_dec a b then true else false.

(** A property value: a value passed as a statement parameter, or the
    timestamp that Cypher's [datetime()] yields. *)
Inductive pvalue :=
| PV (v : pyval)
| PDateTime (t : Z).

Definition props := list (str * pvalue).

(** [SET x.k = v] on the properties of one node or relationship. *)
Fixpoint set_prop (k : str) (v : pvalue) (ps : props) : props :=
  match ps with
  | [] => [(k, v)]
  | (k', v') :: ps' =>
      if str_eqb k k' then (k, v) :: ps' else (k', v') :: set_prop k v ps'
  end.

Definition set_props (sets : props) (ps : props) : props :=
  fold_left (fun acc kv => set_prop (fst kv) (snd kv) acc) sets ps.

Record node := mkNode { n_label : label; n_props : props }.

(** A relationship names its endpoints by their position in [nodes]: nodes
    are only ever appended, or deleted all at once. *)
Record rel := mkRel {
  r_type : reltype; r_src : nat; r_dst : nat; r_props : props }.

Record db := mkDb {
  nodes : list node; rels : list rel; indexes : list str }.

Definition empty_db : db := mkDb [] [] [].

(** A node pattern [(n:L {k: v})]. *)
Definition pattern := (label * str * pyval)%type.

Definition node_matches (p : pattern) (n : node) : bool :=
  let '(L, k, v) := p in
  label_eqb (n_label n) L &&
  match lookup k (n_props n) with
  | Some (PV w) => pyval_eqb w v
  | _ => false
  end.

Fixpoint find_from (p : node -> bool) (ns : list node) (i : nat) : list nat :=
  match ns with
  | [] => []
  | n :: ns' =>
      if p n then i :: find_from p ns' (S i) else find_from p ns' (S i)
  end.

(** [MATCH (n:L {k: v})]: the positions of the nodes of the pattern. *)
Definition match_nodes (p : pattern) (g : db) : list nat :=
  find_from (node_matches p) (nodes g) 0.

(** [MERGE (n:L {k: v})]: a node of the pattern is created when there is
    none. *)
Definition merge_node (p : pattern) (g : db) : db :=
  match match_nodes p g with
  | [] =>
      let '(L, k, v) := p in
      mkDb (nodes g ++ [mkNode L [(k, PV v)]]) (rels g) (indexes g)
  | _ :: _ => g
  end.

(** [SET n.k1 = v1, ...] on the nodes bound to the pattern. *)
Definition set_nodes (p : pattern) (sets : props) (g : db) : db :=
  mkDb
    (List.map
       (fun n =>
          if node_matches p n
          then mkNode (n_label n) (set_props sets (n_props n))
          else n)
       (nodes g))
    (rels g) (indexes g).

Definition rel_is (T : reltype) (a b : nat) (r : rel) : bool :=
  reltype_eqb (r_type r) T && Nat.eqb (r_src r) a && Nat.eqb (r_dst r) b.

(** [MERGE (a)-[r:T]->(b) SET r.k = v, ...] for bound nodes [a] and [b]. *)
Definition merge_rel (T : reltype) (sets : props) (g : db) (ab : nat * nat)
  : db :=
  let (a, b) := ab in
  if existsb (rel_is T a b) (rels g)
  then
    mkDb (nodes g)
      (List.map
         (fun r =>
            if rel_is T a b r
            then mkRel T a b (set_props sets (r_props r))
            else r)
         (rels g))
      (indexes g)
  else mkDb (nodes g) (rels g ++ [mkRel T a b (set_props sets [])]) (indexes g).

(** The statement [MERGE (n:L {k: v}) SET n.k1 = v1, ...]. *)
Definition stmt_merge (p : pattern) (sets : props) (g : db) : db :=
  set_nodes p sets (merge_node p g).

(** The statement
    [MATCH (a:..) MATCH (b:..) MERGE (a)-[r:T]->(b) SET r.k = v, ...]:
    one relationship for every pair of matched endpoints, none when an
    endpoint has no match. *)
Definition stmt_link (T : reltype) (src dst : pattern) (sets : props)
  (g : db) : db :=
  fold_left (merge_rel T sets)
    (list_prod (match_nodes src g) (match_nodes dst g)) g.

(** [MATCH (n) DETACH DELETE n] *)
Definition stmt_delete_all (g : db) : db := mkDb [] [] (indexes g).

(** [CREATE INDEX name IF NOT EXISTS FOR ...] *)
Definition stmt_create_index (name : str) (g : db) : db :=
  if existsb (str_eqb name) (indexes g) then g
  else mkDb (nodes g) (rels g) (indexes g ++ [name]).

(** The aggregates of [verify_data]. *)
Definition count_nodes (L : label) (g : db) : nat :=
  List.length (filter (fun n => label_eqb (n_label n) L) (nodes g)).

Definition count_rels (T : reltype) (g : db) : nat :=
  List.length (filter (fun r => reltype_eqb (r_type r) T) (rels g)).

(** Every relationship joins two nodes of the graph. *)
Definition rels_closed (g : db) : Prop :=
  Forall
    (fun r =>
       r_src r < List.length (nodes g) /\ r_dst r < List.length (nodes g))
    (rels g).

End Graph.
Import Graph.

(* ------------------------------------------------------------------ *)
(** ** Running statements: state and exceptions *)

Module Run.

(** A computation on the session: it leaves a graph behind whether it
    returns or raises, since every statement is committed on its own. *)
Definition M (A : Type) := db -> db * result A.

Definition ret {A} (a : A) : M A := fun g => (g, Ok a).

Definition bind {A B} (m : M A) (k : A -> M B) : M B :=
  fun g =>
    match m g with
    | (g1, Ok a) => k a g1
    | (g1, Raise e) => (g1, Raise e)
    end.

(** The value of a Python expression, or the exception it raises. *)
Definition lift {A} (r : result A) : M A := fun g => (g, r).

(** [session.run(statement, parameters)] *)
Definition run (stmt : db -> db) : M unit := fun g => (stmt g, Ok tt).

(** [for x in items: body] *)
Fixpoint for_each {A} (items : list A) (body : A -> M unit) : M unit :=
  match items with
  | [] => ret tt
  | x :: items' => bind (body x) (fun _ => for_each items' body)
  end.

End Run.
Import Run.

Declare Scope loader_scope.
Delimit Scope loader_scope with loader.
Notation "x <- m ;; k" := (bind m (fun x => k))
  (at level 61, m at next level, right associativity) : loader_scope.
Notation "m ;; k" := (bind m (fun _ => k))
  (at level 61, right associativity) : loader_scope.

(* ------------------------------------------------------------------ *)
(** ** The files of the data directory *)

Module Files.

(** A file as the loader sees it through [open] and [json.load]: a parsed
    JSON document, or anything on which one of the two raises. *)
Inductive file :=
| FJson (doc : pyval)
| FOther.

(** The existing paths, in the order in which the directory enumerates
    them. *)
Definition fsys := list (str * file).

(** [os.path.exists] *)
Definition path_exists (fs : fsys) (p : str) : bool :=
  existsb (fun e => str_eqb (fst e) p) fs.

(** [json.load(open(p))]; [None] when either raises. *)
Definition read_json (fs : fsys) (p : str) : option pyval :=
  match lookup p fs with
  | Some (FJson doc) => Some doc
  | _ => None
  end.

(** [fnmatch] for patterns of literals, [*] and [?]. *)
Fixpoint wildcard (p s : str) : bool :=
  match p with
  | [] => match s with [] => true | _ => false end
  | c :: p' =>
      if N.eqb c 42 then
        (fix star (s : str) : bool :=
           wildcard p' s ||
           match s with
           | [] => false
           | _ :: s' => star s'
           end) s
      else
        match s with
        | [] => false
        | d :: s' => (N.eqb c 63 || N.eqb c d) && wildcard p' s'
        end
  end.

Fixpoint drop_prefix (p s : str) : option str :=
  match p, s with
  | [], _ => Some s
  | c :: p', d :: s' => if N.eqb c d then drop_prefix p' s' else None
  | _ :: _, [] => None
  end.

Definition is_hidden (name : str) : bool :=
  match name with
  | 46%N :: _ => true
  | _ => false
  end.

(** Whether [glob.glob("data/" + pattern)] lists [path], for a pattern
    without a slash: a name of the directory that the pattern matches; a
    name with a leading dot needs a pattern with a leading dot. *)
Definition glob_match (pattern path : str) : bool :=
  match drop_prefix (lit "data/") path with
  | Some name =>
      negb (existsb (N.eqb 47) name)
      && (negb (is_hidden name) || is_hidden pattern)
      && wildcard pattern name
  | None => false
  end.

Definition glob_data (fs : fsys) (pattern : str) : list str :=
  filter (glob_match pattern) (List.map fst fs).

End Files.
Import Files.

(* ------------------------------------------------------------------ *)
(** ** Neo4jLoader *)

Module Loader.

Section Neo4jLoader.

Open Scope loader_scope.

(** The interpreter and the collaborators of the loader. *)

(** [Py_UNICODE_TODECIMAL] outside ASCII. *)
Variable unicode_decimal : char -> option N.

(** [str(v)] for a value that is not a string, as an f-string renders it. *)
Variable py_str : pyval -> str.

(** [PixtralPDFProcessor(...).process_image_complete(path)]: the
    [page_content] of the documents it returns ([Some []] when it returns
    nothing), [None] when the constructor, the call or the reading of the
    documents raises. *)
Variable pixtral : str -> option (list str).

(** The files under the working directory. *)
Variable fs : fsys.

Definition key (s : string) : str := lit s.

(** [f"{v}"] *)
Definition format (v : pyval) : str :=
  match v with
  | PStr s => s
  | _ => py_str v
  end.

(** [Neo4jLoader.clear_database] *)
Definition clear_database : M unit := run stmt_delete_all.

(** [Neo4jLoader.create_indexes] *)
Definition create_indexes : M unit :=
  run (stmt_create_index (lit "product_id")) ;;
  run (stmt_create_index (lit "event_id")) ;;
  run (stmt_create_index (lit "trade_show_id")) ;;
  run (stmt_create_index (lit "rd_project_id")) ;;
  run (stmt_create_index (lit "sale_customer")).

(** [Neo4jLoader._find_file] *)
Definition _find_file (default_path pattern : str) : option str :=
  if path_exists fs default_path then Some default_path
  else
    match glob_data fs pattern with
    | c :: _ => Some c
    | [] => None
    end.

(** [if not actual_file]: [None] and the empty string are false. *)
Definition found (actual_file : option str) : option str :=
  match actual_file with
  | Some (c :: p) => Some (c :: p)
  | _ => None
  end.

(** The two statements that [load_products] runs for one record. *)
Definition product_stmts (product : pyval) : M unit :=
  product_id <- lift (getitem product (key "product_id")) ;;
  name <- lift (getitem product (key "name")) ;;
  category <- lift (getitem product (key "category")) ;;
  continuous_power <-
    lift (getitem2 product (key "power_output") (key "continuous")) ;;
  peak_power <- lift (getitem2 product (key "power_output") (key "peak")) ;;
  battery_capacity <-
    lift (getitem2 product (key "specifications") (key "battery_capacity")) ;;
  battery_type <-
    lift (getitem2 product (key "specifications") (key "battery_type")) ;;
  solar_capacity <-
    lift (getitem2 product (key "specifications")
            (key "solar_panel_capacity")) ;;
  total_cost <-
    lift (getitem2 product (key "private_cost_breakdown")
            (key "private_total_cost")) ;;
  avg_selling_price <-
    lift (getitem2 product (key "pricing") (key "average_selling_price")) ;;
  margin_percentage <-
    lift (getitem2 product (key "pricing") (key "margin_percentage")) ;;
  co2_reduction <- lift (getitem product (key "co2_reduction")) ;;
  rental_available <- lift (getitem product (key "rental_available")) ;;
  run (stmt_merge (Product, key "product_id", product_id)
         [(key "name", PV name);
          (key "category", PV category);
          (key "continuous_power", PV continuous_power);
          (key "peak_power", PV peak_power);
          (key "battery_capacity", PV battery_capacity);
          (key "battery_type", PV battery_type);
          (key "solar_capacity", PV solar_capacity);
          (key "total_cost", PV total_cost);
          (key "avg_selling_price", PV avg_selling_price);
          (key "margin_percentage", PV margin_percentage);
          (key "co2_reduction", PV co2_reduction);
          (key "rental_available", PV rental_available)]) ;;
  battery_type <-
    lift (getitem2 product (key "specifications") (key "battery_type")) ;;
  product_id <- lift (getitem product (key "product_id")) ;;
  run (fun g =>
         stmt_link USES_BATTERY
           (Product, key "product_id", product_id)
           (BatteryType, key "type", battery_type) []
           (stmt_merge (BatteryType, key "type", battery_type) [] g)).

(** [Neo4jLoader.load_products] *)
Definition load_products (products_file : str) : M bool :=
  match found (_find_file products_file (lit "*product*.json")) with
  | None => ret false
  | Some actual_file =>
      match read_json fs actual_file with
      | None => ret false
      | Some data =>
          products <- lift (get data (key "products") (PList [])) ;;
          items <- lift (iter products) ;;
          for_each items product_stmts ;;
          ret true
      end
  end.

(** The fixed customer types of a trade show's sales. *)
Definition customer_types : list str :=
  [lit "particuliers"; lit "entreprises"; lit "collectivites"].

(** [f"{event['event_id']}_{customer_type}"] *)
Definition sale_id (event_id : pyval) (customer_type : str) : str :=
  format event_id ++ lit "_" ++ customer_type.

(** One entry of a sale's [products]: ["PG-M01 x3"] links the sale to
    PG-M01 with quantity 3. *)
Definition sale_product_stmt (sid : str) (product_str : pyval) : M unit :=
  parts <- lift (py_split product_str (lit " x")) ;;
  match parts with
  | [product_id; qty] =>
      quantity <- lift (py_int unicode_decimal qty) ;;
      run (stmt_link INCLUDES_PRODUCT
             (Sale, key "sale_id", PStr sid)
             (Product, key "product_id", PStr product_id)
             [(key "quantity", PV (PInt quantity))])
  | _ => ret tt
  end.

(** The sales of one customer type of a trade show. *)
Definition sale_stmts (event : pyval) (customer_type : str) : M unit :=
  closed <- lift (getitem2 event (key "sales_data") (key "sales_closed")) ;;
  sales <- lift (get closed customer_type (PDict [])) ;;
  units <- lift (get sales (key "units") (PInt 0)) ;;
  positive <- lift (gt_zero units) ;;
  if positive : bool then
    event_id <- lift (getitem event (key "event_id")) ;;
    let sid := sale_id event_id customer_type in
    units <- lift (getitem sales (key "units")) ;;
    revenue <- lift (getitem sales (key "total_revenue")) ;;
    total_revenue <- lift (parse_revenue unicode_decimal revenue) ;;
    event_id <- lift (getitem event (key "event_id")) ;;
    run (fun g =>
           stmt_link SOLD_AT
             (Sale, key "sale_id", PStr sid)
             (TradeShow, key "event_id", event_id) []
             (stmt_merge (Sale, key "sale_id", PStr sid)
                [(key "customer_type", PV (PStr customer_type));
                 (key "units", PV units);
                 (key "total_revenue", PV (PFloat total_revenue))] g)) ;;
    products <- lift (get sales (key "products") (PList [])) ;;
    items <- lift (iter products) ;;
    for_each items (sale_product_stmt sid)
  else ret tt.

(** One entry of a trade show's [models_displayed]. *)
Definition displayed_stmt (event product_id : pyval) : M unit :=
  event_id <- lift (getitem event (key "event_id")) ;;
  run (stmt_link DISPLAYED_AT
         (Product, key "product_id", product_id)
         (TradeShow, key "event_id", event_id) []).

(** The parameters of the TradeShow statement, in the order in which the
    call evaluates them. *)
Definition trade_show_params (event : pyval) : result (pyval * props) :=
  rbind (getitem event (key "event_id")) (fun event_id =>
  rbind (getitem event (key "event_name")) (fun name =>
  rbind (getitem event (key "type")) (fun type =>
  rbind (getitem event (key "location")) (fun location =>
  rbind (getitem event (key "date")) (fun date =>
  rbind (getitem2 event (key "sales_data") (key "leads_generated"))
    (fun leads_generated =>
  rbind (getitem2 event (key "sales_data") (key "total_sales")) (fun total =>
  rbind (parse_revenue unicode_decimal total) (fun total_sales =>
  Ok (event_id,
      [(key "name", PV name);
       (key "type", PV type);
       (key "location", PV location);
       (key "date", PV date);
       (key "leads_generated", PV leads_generated);
       (key "total_sales", PV (PFloat total_sales))]))))))))).

(** The body of the loop over [trade_shows_exhibitions]. *)
Definition trade_show_stmts (event : pyval) : M unit :=
  params <- lift (trade_show_params event) ;;
  run (stmt_merge (TradeShow, key "event_id", fst params) (snd params)) ;;
  participation <- lift (getitem event (key "greenpower_participation")) ;;
  displayed <- lift (get participation (key "models_displayed") (PList [])) ;;
  items <- lift (iter displayed) ;;
  for_each items (displayed_stmt event) ;;
  for_each customer_types (sale_stmts event).

(** One entry of a powered event's [models_used]: ["PG-U01 x2"], or a bare
    product id. *)
Definition model_used_stmt (event model_str : pyval) : M unit :=
  parts <- lift (py_split model_str (lit " x")) ;;
  match parts with
  | [product_id; qty] =>
      quantity <- lift (py_int unicode_decimal qty) ;;
      event_id <- lift (getitem event (key "event_id")) ;;
      run (stmt_link DEPLOYED_AT
             (Product, key "product_id", PStr product_id)
             (Event, key "event_id", event_id)
             [(key "quantity", PV (PInt quantity))])
  | _ =>
      event_id <- lift (getitem event (key "event_id")) ;;
      run (stmt_link DEPLOYED_AT
             (Product, key "product_id", model_str)
             (Event, key "event_id", event_id)
             [(key "quantity", PV (PInt 1))])
  end.

(** The body of the loop over [powered_events]. *)
Definition powered_event_stmts (event : pyval) : M unit :=
  event_id <- lift (getitem event (key "event_id")) ;;
  name <- lift (getitem event (key "event_name")) ;;
  type <- lift (getitem event (key "type")) ;;
  location <- lift (getitem event (key "location")) ;;
  date <- lift (getitem event (key "date")) ;;
  deployment <- lift (getitem event (key "power_deployment")) ;;
  attendees <- lift (get deployment (key "attendees") (PStr (lit "N/A"))) ;;
  runtime <- lift (getitem2 event (key "power_deployment") (key "runtime")) ;;
  fuel_saved <-
    lift (getitem2 event (key "power_deployment") (key "fuel_saved")) ;;
  co2_reduction <-
    lift (getitem2 event (key "power_deployment") (key "co2_reduction")) ;;
  run (stmt_merge (Event, key "event_id", event_id)
         [(key "name", PV name);
          (key "type", PV type);
          (key "location", PV location);
          (key "date", PV date);
          (key "attendees", PV attendees);
          (key "runtime", PV runtime);
          (key "fuel_saved", PV fuel_saved);
          (key "co2_reduction", PV co2_reduction)]) ;;
  models <-
    lift (getitem2 event (key "power_deployment") (key "models_used")) ;;
  items <- lift (iter models) ;;
  for_each items (model_used_stmt event).

(** [Neo4jLoader.load_events] *)
Definition load_events (events_file : str) : M bool :=
  match found (_find_file events_file (lit "*event*.json")) with
  | None => ret false
  | Some actual_file =>
      match read_json fs actual_file with
      | None => ret false
      | Some data =>
          shows <- lift (get data (key "trade_shows_exhibitions") (PList [])) ;;
          items <- lift (iter shows) ;;
          for_each items trade_show_stmts ;;
          powered <- lift (get data (key "powered_events") (PList [])) ;;
          items <- lift (iter powered) ;;
          for_each items powered_event_stmts ;;
          ret true
      end
  end.

(** One entry of a project's [target_products]. *)
Definition target_stmt (project product_id : pyval) : M unit :=
  project_id <- lift (getitem project (key "project_id")) ;;
  run (stmt_link TARGETS_PRODUCT
         (RDProject, key "project_id", project_id)
         (Product, key "product_id", product_id) []).

(** The body of the loop over [active_rd_projects]. *)
Definition rd_project_stmts (project : pyval) : M unit :=
  project_id <- lift (getitem project (key "project_id")) ;;
  name <- lift (getitem project (key "project_name")) ;;
  status <- lift (getitem project (key "status")) ;;
  objective <- lift (getitem project (key "objective")) ;;
  projected_savings <-
    lift (get project (key "projected_annual_savings") (PStr (lit "N/A"))) ;;
  run (stmt_merge (RDProject, key "project_id", project_id)
         [(key "name", PV name);
          (key "status", PV status);
          (key "objective", PV objective);
          (key "projected_savings", PV projected_savings)]) ;;
  targets <- lift (get project (key "target_products") (PList [])) ;;
  items <- lift (iter targets) ;;
  for_each items (target_stmt project).

(** [Neo4jLoader.load_rd_projects] *)
Definition load_rd_projects (rd_file : str) : M bool :=
  match found (_find_file rd_file (lit "*rd*.json")) with
  | None => ret false
  | Some actual_file =>
      match read_json fs actual_file with
      | None => ret false
      | Some data =>
          projects <- lift (get data (key "active_rd_projects") (PList [])) ;;
          items <- lift (iter projects) ;;
          for_each items rd_project_stmts ;;
          ret true
      end
  end.

(** [Neo4jLoader.load_image]; [now] is the time at which the statement
    runs.  Whatever is raised inside the [try] is caught. *)
Definition load_image (image_path : str) (now : Z) : M bool :=
  if negb (path_exists fs image_path) then ret false
  else
    match pixtral image_path with
    | None => ret false
    | Some [] => ret false
    | Some documents =>
        let description := join [10%N] documents in
        let filename := basename image_path in
        run (stmt_merge (Image, key "filename", PStr filename)
               [(key "description", PV (PStr description));
                (key "path", PV (PStr image_path));
                (key "analyzed_at", PDateTime now)]) ;;
        ret true
    end.

Definition count_loaded (b : bool) : nat := if b then 1 else 0.

(** [Neo4jLoader.load_all]; the value is [files_loaded], the count that the
    last message reports. *)
Definition load_all (now : Z) : M nat :=
  clear_database ;;
  create_indexes ;;
  products <- load_products (lit "data/greenpower_products.json") ;;
  events <- load_events (lit "data/greenpower_events.json") ;;
  rd <- load_rd_projects (lit "data/greenpower_rd_innovations.json") ;;
  image <- load_image (lit "data/exemple.jpg") now ;;
  ret (count_loaded products + count_loaded events + count_loaded rd
       + count_loaded image).

End Neo4jLoader.

End Loader.
Import Loader.

(* ------------------------------------------------------------------ *)
(** ** Vocabulary of the properties *)

Module Inv.

(** The string that [parse_revenue] hands to [float()]. *)
Definition cleaned (s : str) : str :=
  strip (remove_char 32%N (remove_char 44%N (remove_char 8364%N s))).

(** The characters of an amount in currency format: digits, the euro
    sign, the comma that separates thousands, the space. *)
Definition currency_char (c : char) : bool :=
  (is_digit c || (c =? 8364) || (c =? 44) || (c =? 32))%N.

(** The number that a sequence of decimal digits writes. *)
Definition digits_value (ds : str) : Z :=
  fold_left (fun acc c => (10 * acc + digit_val c)%Z) ds 0%Z.

(** [m] keeps [P]: the graph it leaves satisfies [P], whether it returns
    or raises. *)
Definition preserves {A} (P : db -> Prop) (m : M A) : Prop :=
  forall g, P g -> P (fst (m g)).

(** What [m] returns or raises does not depend on the graph. *)
Definition graph_blind {A} (m : M A) : Prop :=
  forall g g', snd (m g) = snd (m g').

(** The graph has a node of label [L] that carries the properties [ps]. *)
Definition has_node (L : label) (ps : props) (g : db) : Prop :=
  exists n,
    In n (nodes g) /\ n_label n = L /\
    forall k v, In (k, v) ps -> lookup k (n_props n) = Some v.

(** No node of the graph is of the pattern [p]. *)
Definition no_node (p : pattern) (g : db) : Prop :=
  forall n, In n (nodes g) -> node_matches p n = false.

(** The relationships of type [T] that leave a node of the pattern [p]. *)
Definition rels_from (T : reltype) (p : pattern) (g : db) : list rel :=
  filter
    (fun r =>
       reltype_eqb (r_type r) T &&
       existsb (Nat.eqb (r_src r)) (match_nodes p g))
    (rels g).

(** The relationships of type [T] from node [a] to node [b]. *)
Definition rels_between (T : reltype) (a b : nat) (g : db) : list rel :=
  filter (rel_is T a b) (rels g).

(** [CREATE INDEX name IF NOT EXISTS] on the list of index names. *)
Definition add_index (name : str) (l : list str) : list str :=
  if existsb (str_eqb name) l then l else l ++ [name].

(** The graph after [clear_database] and [create_indexes]. *)
Definition after_reset (g : db) : db :=
  stmt_create_index (lit "sale_customer")
    (stmt_create_index (lit "rd_project_id")
       (stmt_create_index (lit "trade_show_id")
          (stmt_create_index (lit "event_id")
             (stmt_create_index (lit "product_id") (stmt_delete_all g))))).

(** The four stages of [load_all], which follow the reset. *)
Definition load_stages
  (ud : char -> option N) (py_str : pyval -> str)
  (pixtral : str -> option (list str)) (fs : fsys) (now : Z) : M nat :=
  (products <- load_products fs (lit "data/greenpower_products.json") ;;
   events <- load_events ud py_str fs (lit "data/greenpower_events.json") ;;
   rd <- load_rd_projects fs (lit "data/greenpower_rd_innovations.json") ;;
   image <- load_image pixtral fs (lit "data/exemple.jpg") now ;;
   ret (count_loaded products + count_loaded events + count_loaded rd
        + count_loaded image))%loader.

(** Whether the units that a trade show records for a customer type are
    found to be greater than zero: the test that guards the Sale node. *)
Definition units_positive (event : pyval) (customer_type : str) : bool :=
  match
    rbind (getitem2 event (key "sales_data") (key "sales_closed"))
      (fun closed =>
         rbind (get closed customer_type (PDict []))
           (fun sales =>
              rbind (get sales (key "units") (PInt 0)) gt_zero))
  with
  | Ok true => true
  | _ => false
  end.

End Inv.
Import Inv.

(* ------------------------------------------------------------------ *)
(** ** The claims of the specification, in the specification's words *)

Module Spec.

(** An interpreter whose Unicode database knows no decimal digit outside
    ASCII; the examples are all ASCII. *)
Definition ascii_digits_only : char -> option N := fun _ => None.

(** [parseAmount(parseAmount(x)) == parseAmount(x)], with Python's [==]. *)
Definition parse_idempotent_eq (ud : char -> option N) : Prop :=
  forall x f,
    parse_revenue ud x = Ok f ->
    exists f', parse_revenue ud (PFloat f) = Ok f' /\ float_eqb f' f = true.

(** The shorthand format ["<identifier> x<integer>"]: an identifier
    without spaces, the separator [" x"], an integer written in digits. *)
Definition shorthand_format (s : str) : bool :=
  match split (lit " x") s with
  | [ident; qty] =>
      negb (Nat.eqb (List.length ident) 0)
      && negb (existsb (N.eqb 32) ident)
      && negb (Nat.eqb (List.length qty) 0)
      && forallb is_digit qty
  | _ => false
  end.

(** An entry of a sale's products that is not in the shorthand format is
    skipped and raises nothing. *)
Definition skips_malformed_entries (ud : char -> option N) : Prop :=
  forall sid s g,
    shorthand_format s = false ->
    sale_product_stmt ud sid (PStr s) g = (g, Ok tt).



(** Two distinct pairs of an event id and a customer type never have the
    same sale id. *)
Definition sale_id_collision_free (py_str : pyval -> str) : Prop :=
  forall event_id1 c1 event_id2 c2,
    In c1 customer_types -> In c2 customer_types ->
    (event_id1, c1) <> (event_id2, c2) ->
    sale_id py_str event_id1 c1 <> sale_id py_str event_id2 c2.

(** No exception passes the top level of [load_all]. *)
Definition load_all_never_raises
  (ud : char -> option N) (py_str : pyval -> str)
  (pixtral : str -> option (list str)) : Prop :=
  forall fs now g, is_ok (snd (load_all ud py_str pixtral fs now g)) = true.

End Spec.
Import Spec.

(* ------------------------------------------------------------------ *)
(** ** Sample inputs *)

Module Examples.

Definition pstr (s : string) : pyval := PStr (lit s).

Definition pdict (items : list (string * pyval)) : pyval :=
  PDict (List.map (fun kv => (lit (fst kv), snd kv)) items).

(** Every id of the samples is a string: nothing else is rendered. *)
Definition no_rendering : pyval -> str := fun _ => [].

(** A description service that answers with two segments. *)
Definition two_segments : str -> option (list str) :=
  fun _ => Some [lit "a generator"; lit "on a trailer"].

Definition product_m01 : pyval :=
  pdict
    [("product_id", pstr "PG-M01"); ("name", pstr "PowerGen Mobile");
     ("category", pstr "mobile");
     ("power_output", pdict [("continuous", PInt 3000); ("peak", PInt 6000)]);
     ("specifications",
      pdict [("battery_capacity", PInt 5); ("battery_type", pstr "LiFePO4");
             ("solar_panel_capacity", PInt 2)]);
     ("private_cost_breakdown", pdict [("private_total_cost", PInt 5200)]);
     ("pricing",
      pdict [("average_selling_price", PInt 8900);
             ("margin_percentage", PInt 41)]);
     ("co2_reduction", PInt 12); ("rental_available", PBool true)]%string.

(** A trade show that displays PG-M01 and PG-ZZ, the second of which no
    products file knows, and that sold to one customer type only. *)
Definition trade_show_1 : pyval :=
  pdict
    [("event_id", pstr "TS-1"); ("event_name", pstr "Salon");
     ("type", pstr "trade_show"); ("location", pstr "Lyon");
     ("date", pstr "2024-03-01");
     ("sales_data",
      pdict
        [("leads_generated", PInt 5);
         ("total_sales", PStr (8364%N :: lit "911,750"));
         ("sales_closed",
          pdict
            [("particuliers",
              pdict
                [("units", PInt 2); ("total_revenue", pstr "1 000");
                 ("products", PList [pstr "PG-M01 x3"; pstr "PG-M01"])]);
             ("entreprises", pdict [("units", PInt 0)])])]);
     ("greenpower_participation",
      pdict [("models_displayed", PList [pstr "PG-M01"; pstr "PG-ZZ"])])
    ]%string.

Definition trade_show_1_params : pyval * props :=
  (pstr "TS-1",
   [(key "name", PV (pstr "Salon"));
    (key "type", PV (pstr "trade_show"));
    (key "location", PV (pstr "Lyon"));
    (key "date", PV (pstr "2024-03-01"));
    (key "leads_generated", PV (PInt 5));
    (key "total_sales", PV (PFloat (float_of_Z 911750)))]).

Definition powered_event_1 : pyval :=
  pdict
    [("event_id", pstr "EV-1"); ("event_name", pstr "Festival");
     ("type", pstr "festival"); ("location", pstr "Nantes");
     ("date", pstr "2024-06-21");
     ("power_deployment",
      pdict
        [("runtime", pstr "48h"); ("fuel_saved", pstr "300L");
         ("co2_reduction", pstr "0.8t");
         ("models_used", PList [pstr "PG-M01 x2"; pstr "PG-M01"])])
    ]%string.

Definition events_doc : pyval :=
  pdict
    [("trade_shows_exhibitions", PList [trade_show_1]);
     ("powered_events", PList [powered_event_1])]%string.

(** The products are under another name than the expected one, which two
    files of the directory match; there is no R&D file. *)
Definition renamed_products : fsys :=
  [(lit "data/my_products_v2.json",
    FJson (pdict [("products", PList [product_m01])]%string));
   (lit "data/old_products.json", FOther);
   (lit "data/greenpower_events.json", FJson events_doc);
   (lit "data/exemple.jpg", FOther)].

(** A products file whose only record lacks every key, next to a
    well-formed events file. *)
Definition record_without_keys : fsys :=
  [(lit "data/greenpower_products.json",
    FJson (pdict [("products", PList [PDict []])]%string));
   (lit "data/greenpower_events.json", FJson events_doc)].

End Examples.
Import Examples.

(* ------------------------------------------------------------------ *)
(** ** The schema that the statements follow *)

Module Schema.

(** The property on which the loader merges the nodes of a label. *)
Definition key_name (L : label) : str :=
  match L with
  | Product => key "product_id"
  | BatteryType => key "type"
  | TradeShow => key "event_id"
  | Event => key "event_id"
  | Sale => key "sale_id"
  | RDProject => key "project_id"
  | Image => key "filename"
  end.

(** The labels that the loader joins with a relationship type: source,
    destination. *)
Definition endpoints (T : reltype) : label * label :=
  match T with
  | USES_BATTERY => (Product, BatteryType)
  | DISPLAYED_AT => (Product, TradeShow)
  | SOLD_AT => (Sale, TradeShow)
  | INCLUDES_PRODUCT => (Sale, Product)
  | DEPLOYED_AT => (Product, Event)
  | TARGETS_PRODUCT => (RDProject, Product)
  end.

(** What identifies a node: its label and the value of its key. *)
Definition node_ident (n : node) : label * option pvalue :=
  (n_label n, lookup (key_name (n_label n)) (n_props n)).

(** No two nodes have the same label and the same key. *)
Definition unique_keys (g : db) : Prop :=
  NoDup (List.map node_ident (nodes g)).

(** What identifies a relationship: its type and its two endpoints. *)
Definition rel_ident (r : rel) : reltype * nat * nat :=
  (r_type r, r_src r, r_dst r).

(** No two relationships have the same type and the same endpoints. *)
Definition unique_rels (g : db) : Prop :=
  NoDup (List.map rel_ident (rels g)).

(** Every relationship joins two nodes of the graph, of the labels of its
    type. *)
Definition well_typed (g : db) : Prop :=
  Forall
    (fun r =>
       exists n m,
         nth_error (nodes g) (r_src r) = Some n /\
         nth_error (nodes g) (r_dst r) = Some m /\
         (n_label n, n_label m) = endpoints (r_type r))
    (rels g).

(** The graph [g] with the index names [names]. *)
Definition with_indexes (names : list str) (g : db) : db :=
  mkDb (nodes g) (rels g) names.

(** [m] neither reads nor writes the index names. *)
Definition index_blind {A} (m : M A) : Prop :=
  forall names g,
    m (with_indexes names g)
    = (with_indexes names (fst (m g)), snd (m g)).

(** The parameters of the two statements of a product record, in the
    order in which the first call evaluates them: the product id, the
    twelve properties, the battery type. *)
Definition product_params (product : pyval) : result (pyval * props * pyval) :=
  rbind (getitem product (key "product_id")) (fun product_id =>
  rbind (getitem product (key "name")) (fun name =>
  rbind (getitem product (key "category")) (fun category =>
  rbind (getitem2 product (key "power_output") (key "continuous"))
    (fun continuous_power =>
  rbind (getitem2 product (key "power_output") (key "peak"))
    (fun peak_power =>
  rbind (getitem2 product (key "specifications") (key "battery_capacity"))
    (fun battery_capacity =>
  rbind (getitem2 product (key "specifications") (key "battery_type"))
    (fun battery_type =>
  rbind (getitem2 product (key "specifications")
           (key "solar_panel_capacity"))
    (fun solar_capacity =>
  rbind (getitem2 product (key "private_cost_breakdown")
           (key "private_total_cost"))
    (fun total_cost =>
  rbind (getitem2 product (key "pricing") (key "average_selling_price"))
    (fun avg_selling_price =>
  rbind (getitem2 product (key "pricing") (key "margin_percentage"))
    (fun margin_percentage =>
  rbind (getitem product (key "co2_reduction")) (fun co2_reduction =>
  rbind (getitem product (key "rental_available")) (fun rental_available =>
  Ok (product_id,
      [(key "name", PV name);
       (key "category", PV category);
       (key "continuous_power", PV continuous_power);
       (key "peak_power", PV peak_power);
       (key "battery_capacity", PV battery_capacity);
       (key "battery_type", PV battery_type);
       (key "solar_capacity", PV solar_capacity);
       (key "total_cost", PV total_cost);
       (key "avg_selling_price", PV avg_selling_price);
       (key "margin_percentage", PV margin_percentage);
       (key "co2_reduction", PV co2_reduction);
       (key "rental_available", PV rental_available)],
      battery_type)))))))))))))).

(** The graph after the two statements of a product record. *)
Definition product_graph (params : pyval * props * pyval) (g : db) : db :=
  let '(product_id, sets, battery_type) := params in
  stmt_link USES_BATTERY
    (Product, key "product_id", product_id)
    (BatteryType, key "type", battery_type) []
    (stmt_merge (BatteryType, key "type", battery_type) []
       (stmt_merge (Product, key "product_id", product_id) sets g)).

(** The parameters of the Event statement of a powered event. *)
Definition powered_event_params (event : pyval) : result (pyval * props) :=
  rbind (getitem event (key "event_id")) (fun event_id =>
  rbind (getitem event (key "event_name")) (fun name =>
  rbind (getitem event (key "type")) (fun type =>
  rbind (getitem event (key "location")) (fun location =>
  rbind (getitem event (key "date")) (fun date =>
  rbind (getitem event (key "power_deployment")) (fun deployment =>
  rbind (get deployment (key "attendees") (PStr (lit "N/A")))
    (fun attendees =>
  rbind (getitem2 event (key "power_deployment") (key "runtime"))
    (fun runtime =>
  rbind (getitem2 event (key "power_deployment") (key "fuel_saved"))
    (fun fuel_saved =>
  rbind (getitem2 event (key "power_deployment") (key "co2_reduction"))
    (fun co2_reduction =>
  Ok (event_id,
      [(key "name", PV name);
       (key "type", PV type);
       (key "location", PV location);
       (key "date", PV date);
       (key "attendees", PV attendees);
       (key "runtime", PV runtime);
       (key "fuel_saved", PV fuel_saved);
       (key "co2_reduction", PV co2_reduction)]))))))))))).

(** The parameters of the RDProject statement of a project. *)
Definition rd_project_params (project : pyval) : result (pyval * props) :=
  rbind (getitem project (key "project_id")) (fun project_id =>
  rbind (getitem project (key "project_name")) (fun name =>
  rbind (getitem project (key "status")) (fun status =>
  rbind (getitem project (key "objective")) (fun objective =>
  rbind (get project (key "projected_annual_savings") (PStr (lit "N/A")))
    (fun projected_savings =>
  Ok (project_id,
      [(key "name", PV name);
       (key "status", PV status);
       (key "objective", PV objective);
       (key "projected_savings", PV projected_savings)])))))).

(** The names of the indexes that [create_indexes] creates. *)
Definition index_names : list str :=
  [lit "product_id"; lit "event_id"; lit "trade_show_id";
   lit "rd_project_id"; lit "sale_customer"].

(** A string has no occurrence of the separator [sep]. *)
Fixpoint no_occurrence (sep s : str) : bool :=
  match s with
  | [] => negb (is_prefix sep [])
  | _ :: s' => negb (is_prefix sep s) && no_occurrence sep s'
  end.

End Schema.
Import Schema.

(* ------------------------------------------------------------------ *)
(** ** More sample inputs *)

Module MoreExamples.

(** A second product, of the same battery type as PG-M01. *)
Definition product_u01 : pyval :=
  pdict
    [("product_id", pstr "PG-U01"); ("name", pstr "PowerGen Ultra");
     ("category", pstr "stationary");
     ("power_output", pdict [("continuous", PInt 9000); ("peak", PInt 12000)]);
     ("specifications",
      pdict [("battery_capacity", PInt 20); ("battery_type", pstr "LiFePO4");
             ("solar_panel_capacity", PInt 6)]);
     ("private_cost_breakdown", pdict [("private_total_cost", PInt 14000)]);
     ("pricing",
      pdict [("average_selling_price", PInt 21000);
             ("margin_percentage", PInt 33)]);
     ("co2_reduction", PInt 40); ("rental_available", PBool false)]%string.

(** A record without pricing. *)
Definition product_without_pricing : pyval :=
  pdict
    [("product_id", pstr "PG-X99"); ("name", pstr "Prototype");
     ("category", pstr "mobile");
     ("power_output", pdict [("continuous", PInt 1); ("peak", PInt 2)]);
     ("specifications",
      pdict [("battery_capacity", PInt 1); ("battery_type", pstr "NMC");
             ("solar_panel_capacity", PInt 1)]);
     ("private_cost_breakdown", pdict [("private_total_cost", PInt 1)]);
     ("co2_reduction", PInt 0); ("rental_available", PBool false)]%string.

(** A products file whose second record of three has no pricing. *)
Definition second_record_bad : fsys :=
  [(lit "data/greenpower_products.json",
    FJson
      (pdict
         [("products",
           PList [product_m01; product_without_pricing; product_u01])
         ]%string));
   (lit "data/exemple.jpg", FOther)].

(** The graph with the node of PG-M01 and of its battery type. *)
Definition graph_with_m01 : db := fst (product_stmts product_m01 empty_db).


(** A trade show that displays nothing and sold one unit to private
    customers, under the event id [event_id]. *)
Definition trade_show_with_id (event_id : pyval) : pyval :=
  pdict
    [("event_id", event_id); ("event_name", pstr "Foire");
     ("type", pstr "trade_show"); ("location", pstr "Lille");
     ("date", pstr "2024-05-01");
     ("sales_data",
      pdict
        [("leads_generated", PInt 1); ("total_sales", PInt 100);
         ("sales_closed",
          pdict
            [("particuliers",
              pdict [("units", PInt 1); ("total_revenue", PInt 100)])])]);
     ("greenpower_participation", pdict [])]%string.

(** An events file with two trade shows, the first of which displays a
    product that no file knows. *)
Definition two_trade_shows : fsys :=
  [(lit "data/greenpower_events.json",
    FJson
      (pdict
         [("trade_shows_exhibitions",
           PList [trade_show_1; trade_show_with_id (pstr "TS-2")])
         ]%string))].

(** A powered event that does not say which models were used. *)
Definition powered_event_without_models : pyval :=
  pdict
    [("event_id", pstr "EV-2"); ("event_name", pstr "Marathon");
     ("type", pstr "sport"); ("location", pstr "Paris");
     ("date", pstr "2024-04-07");
     ("power_deployment",
      pdict
        [("attendees", PInt 50000); ("runtime", pstr "12h");
         ("fuel_saved", pstr "80L"); ("co2_reduction", pstr "0.2t")])
    ]%string.

(** An R&D project without projected savings, which targets PG-M01 and a
    product that no file knows. *)
Definition rd_project_1 : pyval :=
  pdict
    [("project_id", pstr "RD-1"); ("project_name", pstr "Solid state");
     ("status", pstr "active"); ("objective", pstr "lighter packs");
     ("target_products", PList [pstr "PG-M01"; pstr "PG-ZZ"])]%string.

(** An R&D project that names no target. *)
Definition rd_project_without_targets : pyval :=
  pdict
    [("project_id", pstr "RD-2"); ("project_name", pstr "Recycling");
     ("status", pstr "planned"); ("objective", pstr "second life");
     ("projected_annual_savings", pstr "120000")]%string.

(** A graph that holds one node and two index names of another
    application. *)
Definition foreign_graph : db :=
  mkDb [mkNode Image [(key "filename", PV (pstr "old.png"))]] []
    [lit "legacy_index"; lit "event_id"].

End MoreExamples.
Import MoreExamples.

(* ================================================================== *)
(** * Properties *)

(** ** Strings and values *)

Lemma str_eqb_eq a b : str_eqb a b = true <-> a = b.
Proof.
  unfold str_eqb. destruct (list_eq_dec N.eq_dec a b); split; congruence.
Qed.

Lemma str_eqb_refl a : str_eqb a a = true.
Proof. now apply str_eqb_eq. Qed.

Lemma str_eqb_neq a b : a <> b -> str_eqb a b = false.
Proof.
  intros H. destruct (str_eqb a b) eqn:E; [|reflexivity].
  apply str_eqb_eq in E. contradiction.
Qed.

Lemma label_eqb_eq a b : label_eqb a b = true <-> a = b.
Proof.
  unfold label_eqb. destruct (label_eq_dec a b); split; congruence.
Qed.

Lemma label_eqb_refl a : label_eqb a a = true.
Proof. now apply label_eqb_eq. Qed.

Lemma reltype_eqb_eq a b : reltype_eqb a b = true <-> a = b.
Proof.
  unfold reltype_eqb. destruct (reltype_eq_dec a b); split; congruence.
Qed.

Lemma reltype_eqb_refl a : reltype_eqb a a = true.
Proof. now apply reltype_eqb_eq. Qed.

(** Induction on values, through the lists of a list and of a dict. *)
Section PyvalInduction.

Variable P : pyval -> Prop.
Hypothesis HNone : P PNone.
Hypothesis HBool : forall b, P (PBool b).
Hypothesis HInt : forall n, P (PInt n).
Hypothesis HFloat : forall f, P (PFloat f).
Hypothesis HStr : forall s, P (PStr s).
Hypothesis HList : forall l, Forall P l -> P (PList l).
Hypothesis HDict : forall d, Forall (fun kv => P (snd kv)) d -> P (PDict d).

Fixpoint pyval_nested_ind (v : pyval) : P v :=
  match v with
  | PNone => HNone
  | PBool b => HBool b
  | PInt n => HInt n
  | PFloat f => HFloat f
  | PStr s => HStr s
  | PList l =>
      HList
        ((fix go (l : list pyval) : Forall P l :=
            match l with
            | [] => Forall_nil _
            | x :: l' => Forall_cons x (pyval_nested_ind x) (go l')
            end) l)
  | PDict d =>
      HDict
        ((fix go (d : list (str * pyval)) : Forall (fun kv => P (snd kv)) d :=
            match d with
            | [] => Forall_nil _
            | kv :: d' => Forall_cons kv (pyval_nested_ind (snd kv)) (go d')
            end) d)
  end.

End PyvalInduction.

Lemma pyval_eqb_refl v : pyval_eqb v v = true.
Proof.
  induction v using pyval_nested_ind; simpl.
  - reflexivity.
  - now destruct b.
  - apply Z.eqb_refl.
  - now destruct (float_eq_dec f f).
  - apply str_eqb_refl.
  - induction H as [|x l Hx _ IH]; [reflexivity|].
    now rewrite Hx, IH.
  - induction H as [|[k x] d Hx _ IH]; [reflexivity|].
    simpl in Hx. now rewrite str_eqb_refl, Hx, IH.
Qed.

Lemma pyval_eqb_eq a b : pyval_eqb a b = true <-> a = b.
Proof.
  split; [|intros ->; apply pyval_eqb_refl].
  revert b. induction a using pyval_nested_ind; intros [] E; simpl in E;
    try discriminate; try reflexivity.
  - f_equal. now apply Bool.eqb_prop.
  - f_equal. now apply Z.eqb_eq.
  - destruct (float_eq_dec f f0); congruence.
  - f_equal. now apply str_eqb_eq.
  - f_equal. revert l0 E.
    induction H as [|x l Hx _ IH]; intros [|y l0] E; try discriminate;
      [reflexivity|].
    apply andb_prop in E as [E1 E2]. f_equal; auto.
  - f_equal. revert d0 E.
    induction H as [|[k x] d Hx _ IH]; intros [|[k' y] d0] E;
      try discriminate; [reflexivity|].
    apply andb_prop in E as [E1 E3]. apply andb_prop in E1 as [E1 E2].
    apply str_eqb_eq in E1. simpl in Hx. apply Hx in E2. subst.
    f_equal. auto.
Qed.

(** IEEE equality is reflexive away from NaN. *)
Lemma float_eqb_refl f : is_nan f = false -> float_eqb f f = true.
Proof.
  unfold float_eqb, SFeqb. destruct f as [s|s| |s m e]; simpl; intros H.
  - reflexivity.
  - now destruct s.
  - discriminate.
  - rewrite Z.compare_refl.
    destruct s; simpl; now rewrite Pos.compare_refl.
Qed.

(** ** Amounts in currency format *)

Lemma digit_cases c :
  is_digit c = true -> In c [48; 49; 50; 51; 52; 53; 54; 55; 56; 57]%N.
Proof.
  unfold is_digit. intros H. apply andb_prop in H as [H1 H2].
  apply N.leb_le in H1, H2. cbn [In]. lia.
Qed.

(** Checking a property of characters on the ten digits. *)
Ltac on_digits H :=
  apply digit_cases in H; cbn [In] in H;
  repeat (destruct H as [<-|H]; [reflexivity|]); destruct H.

Lemma digit_not_space c : is_digit c = true -> is_space c = false.
Proof. intros H. on_digits H. Qed.

Lemma digit_not_c_space c : is_digit c = true -> is_c_space c = false.
Proof. intros H. on_digits H. Qed.

Lemma digit_lower c : is_digit c = true -> lower c = c.
Proof. intros H. on_digits H. Qed.

Lemma digit_to_ascii ud c : is_digit c = true -> to_ascii ud c = c.
Proof. intros H. on_digits H. Qed.

Lemma digit_not_underscore c : is_digit c = true -> N.eqb c 95 = false.
Proof. intros H. on_digits H. Qed.

Lemma digit_no_sign c s :
  is_digit c = true -> take_sign (c :: s) = (false, c :: s).
Proof. intros H. on_digits H. Qed.

Lemma digit_not_keyword c s k :
  is_digit c = true -> In k [lit "inf"; lit "infinity"; lit "nan"] ->
  str_eqb (c :: s) k = false.
Proof.
  intros H Hk. apply str_eqb_neq. intros E.
  cbn [In] in Hk. destruct Hk as [<-|[<-|[<-|[]]]];
    injection E as -> _; discriminate H.
Qed.

Lemma map_digits_id (f : char -> char) ds :
  (forall c, is_digit c = true -> f c = c) ->
  forallb is_digit ds = true -> List.map f ds = ds.
Proof.
  intros Hf. induction ds as [|c ds IH]; [reflexivity|].
  cbn [forallb List.map]. intros H. apply andb_prop in H as [Hc Hds].
  now rewrite Hf, IH.
Qed.

Lemma drop_underscores_digits ds prev :
  forallb is_digit ds = true -> N.eqb prev 95 = false ->
  drop_underscores ds prev = Some ds.
Proof.
  revert prev. induction ds as [|c ds IH]; intros prev Hds Hprev.
  - cbn [drop_underscores]. now rewrite Hprev.
  - cbn [forallb] in Hds. apply andb_prop in Hds as [Hc Hds].
    cbn [drop_underscores].
    rewrite (@digit_not_underscore c Hc), Hc, andb_false_r.
    rewrite IH; [reflexivity|exact Hds|now apply digit_not_underscore].
Qed.

Lemma lstrip_with_head p c s : p c = false -> lstrip_with p (c :: s) = c :: s.
Proof. intros H. cbn [lstrip_with]. now rewrite H. Qed.

Lemma strip_with_keeps p s :
  (forall c, In c s -> p c = false) -> strip_with p s = s.
Proof.
  intros H. unfold strip_with.
  assert (Hl : forall t, (forall c, In c t -> p c = false) ->
                         lstrip_with p t = t).
  { intros [|c t] Ht; [reflexivity|].
    apply lstrip_with_head. apply Ht. now left. }
  rewrite (Hl s H), Hl; [apply rev_involutive|].
  intros c Hc. apply H. now apply in_rev.
Qed.

Lemma take_digits_all ds acc n :
  forallb is_digit ds = true ->
  take_digits ds acc n
  = (fold_left (fun a c => (10 * a + digit_val c)%Z) ds acc,
     (n + List.length ds)%nat, []).
Proof.
  revert acc n. induction ds as [|c ds IH]; intros acc n Hds.
  - cbn. now rewrite Nat.add_0_r.
  - cbn [forallb] in Hds. apply andb_prop in Hds as [Hc Hds].
    cbn [take_digits fold_left List.length]. rewrite Hc, IH by exact Hds.
    now rewrite Nat.add_succ_r.
Qed.

Lemma float_of_decimal_integer n :
  (0 <= n)%Z -> float_of_decimal false n 0 = float_of_Z n.
Proof.
  intros Hn. unfold float_of_decimal, float_of_Z.
  destruct (n =? 0)%Z eqn:E.
  - apply Z.eqb_eq in E. now subst.
  - cbn [Z.leb Z.compare cond_neg]. now rewrite Z.pow_0_r, Z.mul_1_r.
Qed.

Lemma digits_value_nonneg ds acc :
  forallb is_digit ds = true -> (0 <= acc)%Z ->
  (0 <= fold_left (fun a c => (10 * a + digit_val c)%Z) ds acc)%Z.
Proof.
  revert acc. induction ds as [|c ds IH]; intros acc Hds Hacc; [exact Hacc|].
  cbn [forallb] in Hds. apply andb_prop in Hds as [Hc Hds].
  cbn [fold_left]. apply IH; [exact Hds|].
  unfold is_digit in Hc. apply andb_prop in Hc as [H1 H2].
  apply N.leb_le in H1. unfold digit_val. lia.
Qed.

(** [float()] on a sequence of digits. *)
Lemma float_of_str_digits ud ds :
  ds <> [] -> forallb is_digit ds = true ->
  float_of_str ud ds = Some (float_of_Z (digits_value ds)).
Proof.
  intros Hne Hds.
  assert (Hin : forall c, In c ds -> is_digit c = true)
    by now apply forallb_forall.
  unfold float_of_str.
  rewrite (@map_digits_id (to_ascii ud) _ (@digit_to_ascii ud) Hds).
  rewrite drop_underscores_digits by (exact Hds || reflexivity).
  rewrite strip_with_keeps
    by (intros c Hc; apply digit_not_c_space; now apply Hin).
  destruct ds as [|c ds]; [contradiction|].
  assert (Hc : is_digit c = true) by (apply Hin; now left).
  rewrite (@digit_no_sign c ds Hc). unfold float_body.
  rewrite (@map_digits_id lower _ digit_lower Hds).
  rewrite !(@digit_not_keyword c ds _ Hc); cbn [In]; auto.
  cbn [orb]. rewrite (@take_digits_all _ 0%Z 0%nat Hds).
  cbn [List.length Nat.add Z.of_nat Z.opp].
  rewrite float_of_decimal_integer; [reflexivity|].
  now apply digits_value_nonneg.
Qed.

(** What [parse_revenue] keeps of an amount in currency format: its
    digits. *)
Lemma cleaned_currency s :
  forallb currency_char s = true -> cleaned s = filter is_digit s.
Proof.
  intros Hs. unfold cleaned, strip.
  assert (Hrm : remove_char 32%N (remove_char 44%N (remove_char 8364%N s))
                = filter is_digit s).
  { unfold remove_char.
    induction s as [|c s IH]; [reflexivity|].
    cbn [forallb] in Hs. apply andb_prop in Hs as [Hc Hs].
    specialize (IH Hs). unfold currency_char in Hc.
    destruct (is_digit c) eqn:Hd.
    - cbn [filter]. rewrite Hd.
      assert (E : N.eqb c 8364%N = false /\ N.eqb c 44%N = false
                  /\ N.eqb c 32%N = false).
      { clear -Hd. repeat split; on_digits Hd. }
      destruct E as (-> & E2 & E3). cbn [negb filter].
      rewrite E2. cbn [negb filter]. rewrite E3. cbn [negb].
      now rewrite IH.
    - cbn [filter]. rewrite Hd. cbn [orb] in Hc.
      destruct (N.eqb c 8364%N) eqn:E1; cbn [negb filter]; [exact IH|].
      destruct (N.eqb c 44%N) eqn:E2; cbn [negb filter]; [exact IH|].
      destruct (N.eqb c 32%N) eqn:E3; cbn [negb filter]; [exact IH|].
      discriminate Hc. }
  rewrite Hrm. apply strip_with_keeps.
  intros c Hc. apply filter_In in Hc as [_ Hc]. now apply digit_not_space.
Qed.

(** ** [parse_revenue] *)

Section ParseRevenue.

Variable unicode_decimal : char -> option N.

Lemma parse_revenue_str s :
  parse_revenue unicode_decimal (PStr s) =
  Ok match float_of_str unicode_decimal (cleaned s) with
     | Some f => f
     | None => S754_zero false
     end.
Proof.
  unfold parse_revenue, cleaned; simpl.
  now destruct (float_of_str _ _).
Qed.

(** C4.  [parse_revenue] returns [float(x)] for every number [x]; for a
    string it returns the value that [float()] reads once the euro sign, the
    commas and the spaces are removed and the rest is stripped, and [0.0],
    without raising, when [float()] cannot read it.  An amount written
    with digits, euro signs, commas and spaces reads as the number that its
    digits write.  On the examples:
    ["€911,750"] gives 911750.0, 42 gives 42.0 and ["not a number"] gives
    0.0. *)
Theorem parse_revenue_spec :
  (forall x,
     is_number x = true ->
     parse_revenue unicode_decimal x = py_float unicode_decimal x) /\
  (forall s f,
     float_of_str unicode_decimal (cleaned s) = Some f ->
     parse_revenue unicode_decimal (PStr s) = Ok f) /\
  (forall s,
     float_of_str unicode_decimal (cleaned s) = None ->
     parse_revenue unicode_decimal (PStr s) = Ok (S754_zero false)) /\
  (forall s,
     forallb currency_char s = true -> existsb is_digit s = true ->
     parse_revenue unicode_decimal (PStr s)
     = Ok (float_of_Z (digits_value (filter is_digit s)))) /\
  parse_revenue unicode_decimal (PStr (8364%N :: lit "911,750"))
  = Ok (float_of_Z 911750) /\
  parse_revenue unicode_decimal (PInt 42) = Ok (float_of_Z 42) /\
  parse_revenue unicode_decimal (PStr (lit "not a number"))
  = Ok (S754_zero false).
Proof.
  split; [|split; [|split; [|split; [|split; [|split]]]]].
  - intros x Hx. unfold parse_revenue. now rewrite Hx.
  - intros s f Hf. now rewrite parse_revenue_str, Hf.
  - intros s Hf. now rewrite parse_revenue_str, Hf.
  - intros s Hs Hd. rewrite parse_revenue_str, cleaned_currency by exact Hs.
    rewrite float_of_str_digits; [reflexivity| |].
    + apply existsb_exists in Hd as (c & Hc & Hc').
      intros E.
      assert (Hin : In c (filter is_digit s)) by now apply filter_In.
      now rewrite E in Hin.
    + apply forallb_forall. intros c Hc. now apply filter_In in Hc.
  - reflexivity.
  - reflexivity.
  - reflexivity.
Qed.

(** C9, as amended.  Applying [parse_revenue] to its own result changes
    nothing: it returns the very same value (and raises where the first
    call raises).  The two results compare equal with [==] whenever the
    value is not NaN. *)
Theorem parse_revenue_idempotent :
  (forall x,
     rbind (parse_revenue unicode_decimal x)
       (fun f => parse_revenue unicode_decimal (PFloat f))
     = parse_revenue unicode_decimal x) /\
  (forall x f,
     parse_revenue unicode_decimal x = Ok f ->
     is_nan f = false ->
     exists f',
       parse_revenue unicode_decimal (PFloat f) = Ok f' /\
       float_eqb f' f = true).
Proof.
  split.
  - intros x. now destruct (parse_revenue unicode_decimal x).
  - intros x f _ Hnan. exists f. split; [reflexivity|].
    now apply float_eqb_refl.
Qed.

(** C10.  On a value that is neither a number nor a string,
    [parse_revenue] raises (the value has no [replace]); it returns, the
    fallback 0.0 included, only on numbers and strings. *)
Theorem parse_revenue_other_raises :
  (forall x,
     is_number x = false -> is_str x = false ->
     parse_revenue unicode_decimal x = Raise AttributeError) /\
  (forall x f,
     parse_revenue unicode_decimal x = Ok f ->
     is_number x = true \/ is_str x = true).
Proof.
  split.
  - intros [] Hn Hs; try discriminate; reflexivity.
  - intros x f H. destruct x; simpl; auto; discriminate.
Qed.

End ParseRevenue.

(** ** The graph statements *)

Lemma merge_rel_nodes T sets g ab : nodes (merge_rel T sets g ab) = nodes g.
Proof.
  unfold merge_rel. destruct ab as [a b].
  now destruct (existsb _ _).
Qed.

Lemma merge_rel_indexes T sets g ab :
  indexes (merge_rel T sets g ab) = indexes g.
Proof.
  unfold merge_rel. destruct ab as [a b].
  now destruct (existsb _ _).
Qed.

Lemma fold_merge_rel_nodes T sets pairs g :
  nodes (fold_left (merge_rel T sets) pairs g) = nodes g.
Proof.
  revert g. induction pairs as [|ab pairs IH]; intros g; simpl.
  - reflexivity.
  - now rewrite IH, merge_rel_nodes.
Qed.

Lemma fold_merge_rel_indexes T sets pairs g :
  indexes (fold_left (merge_rel T sets) pairs g) = indexes g.
Proof.
  revert g. induction pairs as [|ab pairs IH]; intros g; simpl.
  - reflexivity.
  - now rewrite IH, merge_rel_indexes.
Qed.

Lemma stmt_link_nodes T src dst sets g :
  nodes (stmt_link T src dst sets g) = nodes g.
Proof. apply fold_merge_rel_nodes. Qed.

Lemma stmt_link_indexes T src dst sets g :
  indexes (stmt_link T src dst sets g) = indexes g.
Proof. apply fold_merge_rel_indexes. Qed.

(** A statement whose MATCH finds no node for an endpoint changes
    nothing. *)
Lemma stmt_link_no_src T src dst sets g :
  match_nodes src g = [] -> stmt_link T src dst sets g = g.
Proof. unfold stmt_link. now intros ->. Qed.

Lemma stmt_link_no_dst T src dst sets g :
  match_nodes dst g = [] -> stmt_link T src dst sets g = g.
Proof.
  unfold stmt_link. intros ->.
  now induction (match_nodes src g).
Qed.

Lemma find_from_bound p ns i j :
  In j (find_from p ns i) -> i <= j < i + List.length ns.
Proof.
  revert i. induction ns as [|n ns IH]; intros i; simpl; [tauto|].
  destruct (p n); simpl; intros H.
  - destruct H as [<-|H]; [lia|]. apply IH in H. lia.
  - apply IH in H. lia.
Qed.

Lemma find_from_nil p ns i :
  find_from p ns i = [] <-> (forall n, In n ns -> p n = false).
Proof.
  revert i. induction ns as [|n ns IH]; intros i; simpl.
  - split; [intros _ n []|reflexivity].
  - destruct (p n) eqn:E; split.
    + discriminate.
    + intros H. specialize (H n (or_introl eq_refl)). congruence.
    + intros H m [<-|Hm]; [exact E|]. now apply (proj1 (IH (S i))).
    + intros H. apply IH. intros m Hm. apply H. now right.
Qed.

Lemma find_from_nth p ns i j :
  In j (find_from p ns i) ->
  exists n, nth_error ns (j - i) = Some n /\ p n = true.
Proof.
  revert i. induction ns as [|n ns IH]; intros i; simpl; [tauto|].
  destruct (p n) eqn:E; simpl; intros H.
  - destruct H as [<-|H].
    + rewrite Nat.sub_diag. now exists n.
    + pose proof (find_from_bound _ _ _ _ H) as Hb.
      destruct (IH _ H) as (m & Hm & Hp). exists m. split; [|exact Hp].
      replace (j - i) with (S (j - S i)) by lia. exact Hm.
  - pose proof (find_from_bound _ _ _ _ H) as Hb.
    destruct (IH _ H) as (m & Hm & Hp). exists m. split; [|exact Hp].
    replace (j - i) with (S (j - S i)) by lia. exact Hm.
Qed.

Lemma match_nodes_bound p g j :
  In j (match_nodes p g) -> j < List.length (nodes g).
Proof.
  intros H. apply find_from_bound in H. lia.
Qed.

Lemma match_nodes_nil p g : match_nodes p g = [] <-> no_node p g.
Proof. apply find_from_nil. Qed.

Lemma merge_rel_closed T sets g a b :
  a < List.length (nodes g) -> b < List.length (nodes g) ->
  rels_closed g -> rels_closed (merge_rel T sets g (a, b)).
Proof.
  unfold rels_closed, merge_rel. intros Ha Hb H.
  destruct (existsb _ _); simpl.
  - apply Forall_forall. intros r Hr. apply in_map_iff in Hr as (r0 & <- & Hr0).
    rewrite Forall_forall in H. specialize (H _ Hr0).
    destruct (rel_is T a b r0); simpl; auto.
  - apply Forall_app. split; [exact H|]. constructor; simpl; auto.
Qed.

Lemma fold_merge_rel_closed T sets pairs g :
  (forall a b, In (a, b) pairs ->
     a < List.length (nodes g) /\ b < List.length (nodes g)) ->
  rels_closed g -> rels_closed (fold_left (merge_rel T sets) pairs g).
Proof.
  revert g. induction pairs as [|[a b] pairs IH]; intros g Hp Hg;
    cbn [fold_left].
  - exact Hg.
  - apply IH.
    + intros a' b' Hin. rewrite merge_rel_nodes. apply Hp. now right.
    + destruct (Hp a b (or_introl eq_refl)). now apply merge_rel_closed.
Qed.

(** Relationships are created between matched nodes only. *)
Lemma stmt_link_closed T src dst sets g :
  rels_closed g -> rels_closed (stmt_link T src dst sets g).
Proof.
  intros Hg. apply fold_merge_rel_closed; [|exact Hg].
  intros a b Hin. apply in_prod_iff in Hin as [Ha Hb].
  split; eapply match_nodes_bound; eassumption.
Qed.

Lemma merge_node_rels p g : rels (merge_node p g) = rels g.
Proof.
  unfold merge_node. destruct (match_nodes p g); [|reflexivity].
  now destruct p as [[L k] v].
Qed.

Lemma merge_node_indexes p g : indexes (merge_node p g) = indexes g.
Proof.
  unfold merge_node. destruct (match_nodes p g); [|reflexivity].
  now destruct p as [[L k] v].
Qed.

Lemma merge_node_incl p g n : In n (nodes g) -> In n (nodes (merge_node p g)).
Proof.
  unfold merge_node. destruct (match_nodes p g); [|auto].
  destruct p as [[L k] v]. simpl. intros H. apply in_or_app. now left.
Qed.

Lemma merge_node_length p g :
  List.length (nodes g) <= List.length (nodes (merge_node p g)).
Proof.
  unfold merge_node. destruct (match_nodes p g); [|auto].
  destruct p as [[L k] v]. simpl. rewrite length_app. lia.
Qed.

Lemma merge_node_closed p g : rels_closed g -> rels_closed (merge_node p g).
Proof.
  unfold rels_closed. rewrite merge_node_rels.
  pose proof (merge_node_length p g).
  intros H0. eapply Forall_impl; [|exact H0]. simpl. intros r. lia.
Qed.

Lemma set_nodes_closed p sets g :
  rels_closed g -> rels_closed (set_nodes p sets g).
Proof.
  unfold rels_closed, set_nodes. simpl. now rewrite length_map.
Qed.

Lemma stmt_merge_closed p sets g :
  rels_closed g -> rels_closed (stmt_merge p sets g).
Proof.
  intros H. now apply set_nodes_closed, merge_node_closed.
Qed.

Lemma stmt_merge_indexes p sets g : indexes (stmt_merge p sets g) = indexes g.
Proof. unfold stmt_merge. simpl. apply merge_node_indexes. Qed.

Lemma stmt_merge_rels p sets g : rels (stmt_merge p sets g) = rels g.
Proof. unfold stmt_merge. simpl. apply merge_node_rels. Qed.

(** ** Reasoning on computations *)

Section Preservation.

Variable P : db -> Prop.

Lemma preserves_ret A (a : A) : preserves P (ret a).
Proof. intros g H. exact H. Qed.

Lemma preserves_lift A (r : result A) : preserves P (lift r).
Proof. intros g H. exact H. Qed.

Lemma preserves_run f : (forall g, P g -> P (f g)) -> preserves P (run f).
Proof. intros Hf g H. now apply Hf. Qed.

Lemma preserves_bind A B (m : M A) (k : A -> M B) :
  preserves P m -> (forall a, preserves P (k a)) -> preserves P (bind m k).
Proof.
  intros Hm Hk g H. unfold bind. specialize (Hm g H).
  destruct (m g) as [g1 [a|e]]; simpl in *.
  - now apply Hk.
  - exact Hm.
Qed.

Lemma preserves_for_each A (items : list A) (body : A -> M unit) :
  (forall x, preserves P (body x)) -> preserves P (for_each items body).
Proof.
  intros Hb. induction items as [|x items IH]; simpl.
  - apply preserves_ret.
  - apply preserves_bind; auto.
Qed.

End Preservation.

Lemma graph_blind_ret A (a : A) : graph_blind (ret a).
Proof. intros g g'. reflexivity. Qed.

Lemma graph_blind_lift A (r : result A) : graph_blind (lift r).
Proof. intros g g'. reflexivity. Qed.

Lemma graph_blind_run f : graph_blind (run f).
Proof. intros g g'. reflexivity. Qed.

Lemma graph_blind_bind A B (m : M A) (k : A -> M B) :
  graph_blind m -> (forall a, graph_blind (k a)) -> graph_blind (bind m k).
Proof.
  intros Hm Hk g g'. unfold bind. specialize (Hm g g').
  destruct (m g) as [g1 [a|e]], (m g') as [g1' [a'|e']]; simpl in *;
    try congruence.
  injection Hm as ->. apply Hk.
Qed.

Lemma graph_blind_for_each A (items : list A) (body : A -> M unit) :
  (forall x, graph_blind (body x)) -> graph_blind (for_each items body).
Proof.
  intros Hb. induction items as [|x items IH]; simpl.
  - apply graph_blind_ret.
  - apply graph_blind_bind; auto.
Qed.

(** The sequence of two computations, on the graph and on the result. *)
Lemma bind_ok A B (m : M A) (k : A -> M B) g g1 a :
  m g = (g1, Ok a) -> bind m k g = k a g1.
Proof. unfold bind. now intros ->. Qed.

Lemma bind_raise A B (m : M A) (k : A -> M B) g g1 e :
  m g = (g1, Raise e) -> bind m k g = (g1, Raise e).
Proof. unfold bind. now intros ->. Qed.

Lemma bind_lift_ok A B (a : A) (k : A -> M B) g :
  bind (lift (Ok a)) k g = k a g.
Proof. reflexivity. Qed.

Lemma preserves_for_each_in P A (items : list A) (body : A -> M unit) :
  (forall x, In x items -> preserves P (body x)) ->
  preserves P (for_each items body).
Proof.
  induction items as [|x items IH]; intros Hb; cbn [for_each].
  - apply preserves_ret.
  - apply preserves_bind.
    + apply Hb. now left.
    + intros _. apply IH. intros y Hy. apply Hb. now right.
Qed.

Lemma for_each_app A (xs ys : list A) (body : A -> M unit) g :
  for_each (xs ++ ys) body g =
  bind (for_each xs body) (fun _ => for_each ys body) g.
Proof.
  revert g. induction xs as [|x xs IH]; intros g; simpl.
  - reflexivity.
  - unfold bind. destruct (body x g) as [g1 [[]|e]]; [|reflexivity].
    rewrite IH. reflexivity.
Qed.

(** A loop whose first items return goes on with the next item, on the
    graph that they leave. *)
Lemma for_each_reaches A (body : A -> M unit) before x after g :
  snd (for_each before body g) = Ok tt ->
  for_each (before ++ x :: after) body g
  = bind (body x) (fun _ => for_each after body)
      (fst (for_each before body g)).
Proof.
  intros H. rewrite for_each_app. unfold bind at 1.
  destruct (for_each before body g) as [g1 [[]|e]]; [reflexivity|].
  discriminate H.
Qed.

(** What holds after a computation and is kept by what follows holds
    after the two. *)
Lemma bind_fst_preserved (P : db -> Prop) A B (m : M A) (k : A -> M B) g :
  P (fst (m g)) -> (forall a, preserves P (k a)) -> P (fst (bind m k g)).
Proof.
  intros Hm Hk. unfold bind.
  destruct (m g) as [g1 [a|e]]; cbn [fst] in Hm; [now apply Hk|exact Hm].
Qed.

(** Stepping through the statements of a loader. *)
Ltac step_preserves :=
  repeat
    match goal with
    | |- preserves _ (ret _) => apply preserves_ret
    | |- preserves _ (lift _) => apply preserves_lift
    | |- preserves _ (bind _ _) => apply preserves_bind; [|intro]
    | |- preserves _ (for_each _ _) => apply preserves_for_each; intro
    | |- preserves _ (match ?x with _ => _ end) => destruct x
    | |- preserves _ (if ?x then _ else _) => destruct x
    end.

Ltac step_blind :=
  repeat
    match goal with
    | |- graph_blind (ret _) => apply graph_blind_ret
    | |- graph_blind (lift _) => apply graph_blind_lift
    | |- graph_blind (run _) => apply graph_blind_run
    | |- graph_blind (bind _ _) => apply graph_blind_bind; [|intro]
    | |- graph_blind (for_each _ _) => apply graph_blind_for_each; intro
    | |- graph_blind (match ?x with _ => _ end) => destruct x
    | |- graph_blind (if ?x then _ else _) => destruct x
    end.

(** ** Invariants of the loaders *)

Section LoaderInvariants.

Variable unicode_decimal : char -> option N.
Variable py_str : pyval -> str.
Variable pixtral : str -> option (list str).
Variable fs : fsys.

(** A property that every relationship statement keeps, and that the node
    statements keep on the labels [ok]. *)
Variable P : db -> Prop.
Variable ok : label -> bool.
Hypothesis Hlink :
  forall T src dst sets g, P g -> P (stmt_link T src dst sets g).
Hypothesis Hmerge :
  forall L k v sets g, ok L = true -> P g -> P (stmt_merge (L, k, v) sets g).

Ltac run_step :=
  apply preserves_run; intros;
  repeat first [apply Hlink | apply Hmerge]; auto.

Lemma preserves_displayed_stmt event product_id :
  preserves P (displayed_stmt event product_id).
Proof. unfold displayed_stmt. step_preserves. run_step. Qed.

Lemma preserves_sale_product_stmt sid product_str :
  preserves P (sale_product_stmt unicode_decimal sid product_str).
Proof. unfold sale_product_stmt. step_preserves. run_step. Qed.

Lemma preserves_sale_stmts event customer_type :
  ok Sale = true ->
  preserves P (sale_stmts unicode_decimal py_str event customer_type).
Proof.
  intros HS. unfold sale_stmts. step_preserves.
  - run_step.
  - apply preserves_sale_product_stmt.
Qed.

Lemma preserves_trade_show_stmts event :
  ok Sale = true -> ok TradeShow = true ->
  preserves P (trade_show_stmts unicode_decimal py_str event).
Proof.
  intros HS HT. unfold trade_show_stmts. step_preserves.
  - destruct a as [eid ps]. run_step.
  - apply preserves_displayed_stmt.
  - now apply preserves_sale_stmts.
Qed.

Lemma preserves_model_used_stmt event model_str :
  preserves P (model_used_stmt unicode_decimal event model_str).
Proof. unfold model_used_stmt. step_preserves; run_step. Qed.

Lemma preserves_powered_event_stmts event :
  ok Event = true ->
  preserves P (powered_event_stmts unicode_decimal event).
Proof.
  intros HE. unfold powered_event_stmts. step_preserves.
  - run_step.
  - apply preserves_model_used_stmt.
Qed.

Lemma preserves_load_events events_file :
  ok Sale = true -> ok TradeShow = true -> ok Event = true ->
  preserves P (load_events unicode_decimal py_str fs events_file).
Proof.
  intros HS HT HE. unfold load_events. step_preserves.
  - now apply preserves_trade_show_stmts.
  - now apply preserves_powered_event_stmts.
Qed.

Lemma preserves_product_stmts product :
  ok Product = true -> ok BatteryType = true ->
  preserves P (product_stmts product).
Proof. intros HP HB. unfold product_stmts. step_preserves; run_step. Qed.

Lemma preserves_load_products products_file :
  ok Product = true -> ok BatteryType = true ->
  preserves P (load_products fs products_file).
Proof.
  intros HP HB. unfold load_products. step_preserves.
  now apply preserves_product_stmts.
Qed.

Lemma preserves_rd_project_stmts project :
  ok RDProject = true -> preserves P (rd_project_stmts project).
Proof.
  intros HR. unfold rd_project_stmts, target_stmt. step_preserves; run_step.
Qed.

Lemma preserves_load_rd_projects rd_file :
  ok RDProject = true -> preserves P (load_rd_projects fs rd_file).
Proof.
  intros HR. unfold load_rd_projects. step_preserves.
  now apply preserves_rd_project_stmts.
Qed.

Lemma preserves_load_image image_path now :
  ok Image = true -> preserves P (load_image pixtral fs image_path now).
Proof. intros HI. unfold load_image. step_preserves. run_step. Qed.

End LoaderInvariants.

(** ** Nodes and their properties *)

Lemma lookup_set_prop_same k v ps : lookup k (set_prop k v ps) = Some v.
Proof.
  induction ps as [|[k' v'] ps IH]; simpl.
  - now rewrite str_eqb_refl.
  - destruct (str_eqb k k') eqn:E; simpl.
    + now rewrite str_eqb_refl.
    + now rewrite E.
Qed.

Lemma lookup_set_prop_other k k' v ps :
  k <> k' -> lookup k' (set_prop k v ps) = lookup k' ps.
Proof.
  intros Hk. induction ps as [|[k0 v0] ps IH]; simpl.
  - rewrite str_eqb_neq; auto.
  - destruct (str_eqb k k0) eqn:E; simpl.
    + apply str_eqb_eq in E. subst k0.
      rewrite !(str_eqb_neq (a:=k') (b:=k)); auto.
    + destruct (str_eqb k' k0); auto.
Qed.

Lemma lookup_set_props_notin k sets ps :
  ~ In k (List.map fst sets) ->
  lookup k (set_props sets ps) = lookup k ps.
Proof.
  unfold set_props. revert ps.
  induction sets as [|[k0 v0] sets IH]; intros ps Hk; simpl.
  - reflexivity.
  - simpl in Hk. rewrite IH by tauto.
    apply lookup_set_prop_other. tauto.
Qed.

Lemma lookup_set_props_in k v sets ps :
  NoDup (List.map fst sets) -> In (k, v) sets ->
  lookup k (set_props sets ps) = Some v.
Proof.
  revert ps. induction sets as [|[k0 v0] sets IH]; intros ps Hnd Hin;
    [destruct Hin|].
  simpl in Hnd. inversion Hnd as [|? ? Hk0 Hnd']; subst.
  destruct Hin as [E|Hin].
  - injection E as -> ->.
    change (set_props ((k, v) :: sets) ps)
      with (set_props sets (set_prop k v ps)).
    rewrite lookup_set_props_notin by exact Hk0.
    apply lookup_set_prop_same.
  - change (set_props ((k0, v0) :: sets) ps)
      with (set_props sets (set_prop k0 v0 ps)).
    now apply IH.
Qed.

Lemma node_matches_label L k v n :
  node_matches (L, k, v) n = true -> n_label n = L.
Proof.
  simpl. intros H. apply andb_prop in H as [H _]. now apply label_eqb_eq.
Qed.

Lemma node_matches_key L k v n :
  node_matches (L, k, v) n = true -> lookup k (n_props n) = Some (PV v).
Proof.
  simpl. intros H. apply andb_prop in H as [_ H].
  destruct (lookup k (n_props n)) as [[w|t]|]; try discriminate.
  apply pyval_eqb_eq in H. now subst.
Qed.

Lemma node_matches_other_label L k v n :
  n_label n <> L -> node_matches (L, k, v) n = false.
Proof.
  simpl. intros H. destruct (label_eqb (n_label n) L) eqn:E; [|reflexivity].
  apply label_eqb_eq in E. contradiction.
Qed.

(** After [MERGE (n:L {k: v})] the graph has a node of the pattern. *)
Lemma merge_node_matched L k v g :
  exists n,
    In n (nodes (merge_node (L, k, v) g)) /\ node_matches (L, k, v) n = true.
Proof.
  unfold merge_node. destruct (match_nodes (L, k, v) g) as [|j js] eqn:E.
  - exists (mkNode L [(k, PV v)]). split.
    + simpl. apply in_or_app. right. now left.
    + simpl. now rewrite label_eqb_refl, str_eqb_refl, pyval_eqb_refl.
  - assert (Hj : In j (match_nodes (L, k, v) g)) by (rewrite E; now left).
    apply find_from_nth in Hj as (n & Hn & Hp).
    exists n. split; [|exact Hp]. eapply nth_error_In; eassumption.
Qed.

(** The node of a MERGE ... SET statement carries its key and every
    property that the statement sets. *)
Lemma stmt_merge_has_node L k v sets g :
  NoDup (List.map fst sets) -> ~ In k (List.map fst sets) ->
  has_node L ((k, PV v) :: sets) (stmt_merge (L, k, v) sets g).
Proof.
  intros Hnd Hk.
  destruct (merge_node_matched L k v g) as (n & Hn & Hm).
  exists (mkNode (n_label n) (set_props sets (n_props n))).
  split; [|split].
  - unfold stmt_merge, set_nodes. cbn [nodes].
    apply in_map_iff. exists n. now rewrite Hm.
  - simpl. eapply node_matches_label; eassumption.
  - simpl. intros k' v' [E|Hin].
    + injection E as <- <-. rewrite lookup_set_props_notin by exact Hk.
      eapply node_matches_key; eassumption.
    + now apply lookup_set_props_in.
Qed.

Lemma has_node_stmt_link L ps T src dst sets g :
  has_node L ps g -> has_node L ps (stmt_link T src dst sets g).
Proof. unfold has_node. now rewrite stmt_link_nodes. Qed.

Lemma has_node_stmt_merge L ps L' k v sets g :
  negb (label_eqb L' L) = true ->
  has_node L ps g -> has_node L ps (stmt_merge (L', k, v) sets g).
Proof.
  intros HL (n & Hn & Hl & Hps). exists n. split; [|now split].
  unfold stmt_merge, set_nodes. cbn [nodes]. apply in_map_iff. exists n.
  split; [|now apply merge_node_incl].
  rewrite node_matches_other_label; [reflexivity|].
  intros E. rewrite Hl in E. subst L'.
  now rewrite label_eqb_refl in HL.
Qed.

(** [SET] writes the properties that it names and no other. *)
Lemma has_node_stmt_merge_unset L ps p sets g :
  (forall k, In k (List.map fst ps) -> ~ In k (List.map fst sets)) ->
  has_node L ps g -> has_node L ps (stmt_merge p sets g).
Proof.
  intros Hks (n & Hn & Hl & Hps).
  exists (if node_matches p n
          then mkNode (n_label n) (set_props sets (n_props n))
          else n).
  split; [|split].
  - unfold stmt_merge, set_nodes. cbn [nodes]. apply in_map_iff.
    exists n. split; [reflexivity|now apply merge_node_incl].
  - now destruct (node_matches p n).
  - intros k v Hkv. destruct (node_matches p n); [|now apply Hps].
    cbn [n_props]. rewrite lookup_set_props_notin; [now apply Hps|].
    apply Hks. apply in_map_iff. now exists (k, v).
Qed.

(** A MERGE on another value of the key leaves the node alone. *)
Lemma has_node_stmt_merge_other_key L k v ps L' v' sets g :
  v' <> v ->
  has_node L ((k, PV v) :: ps) g ->
  has_node L ((k, PV v) :: ps) (stmt_merge (L', k, v') sets g).
Proof.
  intros Hv (n & Hn & Hl & Hps). exists n. split; [|now split].
  unfold stmt_merge, set_nodes. cbn [nodes]. apply in_map_iff. exists n.
  split; [|now apply merge_node_incl].
  assert (Hm : node_matches (L', k, v') n = false).
  { cbn [node_matches]. rewrite (Hps k (PV v)) by now left.
    destruct (pyval_eqb v v') eqn:E; [|apply andb_false_r].
    apply pyval_eqb_eq in E. congruence. }
  now rewrite Hm.
Qed.

Lemma no_node_stmt_link p T src dst sets g :
  no_node p g -> no_node p (stmt_link T src dst sets g).
Proof. unfold no_node. now rewrite stmt_link_nodes. Qed.

Lemma no_node_stmt_merge L k v L' k' v' sets g :
  negb (label_eqb L' L) = true ->
  no_node (L, k, v) g -> no_node (L, k, v) (stmt_merge (L', k', v') sets g).
Proof.
  intros HL Hg n Hn.
  assert (HLL : L' <> L).
  { intros ->. now rewrite label_eqb_refl in HL. }
  unfold stmt_merge, set_nodes in Hn. cbn [nodes] in Hn.
  apply in_map_iff in Hn as (n0 & <- & Hn0).
  assert (H0 : node_matches (L, k, v) n0 = false).
  { unfold merge_node in Hn0.
    destruct (match_nodes (L', k', v') g); [|now apply Hg].
    simpl in Hn0. apply in_app_or in Hn0 as [Hn0|[<-|[]]]; [now apply Hg|].
    now apply node_matches_other_label. }
  destruct (node_matches (L', k', v') n0) eqn:E; [|exact H0].
  apply node_matches_label in E.
  apply node_matches_other_label. simpl. congruence.
Qed.

Lemma rels_from_no_node T p g : no_node p g -> rels_from T p g = [].
Proof.
  intros H. apply match_nodes_nil in H. unfold rels_from. rewrite H.
  induction (rels g) as [|r rs IH]; simpl; [reflexivity|].
  now rewrite andb_false_r.
Qed.

(** ** The file resolver *)

Lemma filter_first A (f : A -> bool) l c cs :
  filter f l = c :: cs ->
  exists before after,
    l = before ++ c :: after /\
    (forall x, In x before -> f x = false) /\ f c = true.
Proof.
  induction l as [|x l IH]; simpl; [discriminate|].
  destruct (f x) eqn:E; intros H.
  - injection H as -> _. exists [], l. repeat split; auto.
    intros y [].
  - destruct (IH H) as (before & after & -> & Hb & Hc).
    exists (x :: before), after. repeat split; auto.
    intros y [<-|Hy]; auto.
Qed.

Section FindFile.

Variable fs : fsys.

(** C8.  [_find_file] returns the expected path when a file exists there.
    Otherwise, when the pattern has matches in the data directory, it
    returns one of them, fixed by the file system alone: the first match in
    the order in which the directory lists its files.  When nothing
    matches it returns [None], and the loader of that category then returns
    [False] and leaves the graph as it is, without raising. *)
Theorem find_file_spec default_path pattern :
  (path_exists fs default_path = true ->
   _find_file fs default_path pattern = Some default_path) /\
  (path_exists fs default_path = false ->
   forall c cs,
     glob_data fs pattern = c :: cs ->
     _find_file fs default_path pattern = Some c /\
     exists before after,
       List.map fst fs = before ++ c :: after /\
       (forall x, In x before -> glob_match pattern x = false) /\
       glob_match pattern c = true) /\
  (path_exists fs default_path = false ->
   glob_data fs pattern = [] ->
   _find_file fs default_path pattern = None) /\
  (forall file g,
     _find_file fs file (lit "*product*.json") = None ->
     load_products fs file g = (g, Ok false)) /\
  (forall ud py_str file g,
     _find_file fs file (lit "*event*.json") = None ->
     load_events ud py_str fs file g = (g, Ok false)) /\
  (forall file g,
     _find_file fs file (lit "*rd*.json") = None ->
     load_rd_projects fs file g = (g, Ok false)).
Proof.
  unfold _find_file.
  split; [|split; [|split; [|split; [|split]]]].
  - now intros ->.
  - intros -> c cs Hc. rewrite Hc. split; [reflexivity|].
    unfold glob_data in Hc. now apply filter_first in Hc.
  - now intros -> ->.
  - intros file g H. unfold load_products, _find_file. now rewrite H.
  - intros ud ps file g H. unfold load_events, _find_file. now rewrite H.
  - intros file g H. unfold load_rd_projects, _find_file. now rewrite H.
Qed.

End FindFile.

(** ** Relationships *)

Lemma rel_is_true T a b r :
  rel_is T a b r = true <-> r_type r = T /\ r_src r = a /\ r_dst r = b.
Proof.
  unfold rel_is. rewrite !andb_true_iff, reltype_eqb_eq, !Nat.eqb_eq. tauto.
Qed.

Lemma rel_is_mk T a b ps : rel_is T a b (mkRel T a b ps) = true.
Proof. apply rel_is_true. simpl. auto. Qed.





(** ** Quantity shorthand *)

Lemma split_from_no_space q cur :
  (forall c, In c q -> c <> 32%N) ->
  split_from (lit " x") q cur 0 = [rev cur ++ q].
Proof.
  change (lit " x") with [32%N; 120%N].
  revert cur. induction q as [|c q IH]; intros cur Hq.
  - cbn [split_from]. now rewrite app_nil_r.
  - cbn [split_from is_prefix].
    assert (Hc : N.eqb 32 c = false).
    { apply N.eqb_neq. intros E. apply (Hq c); [now left|congruence]. }
    rewrite Hc. cbn [andb]. rewrite IH.
    + cbn [rev]. now rewrite <- app_assoc.
    + intros d Hd. apply Hq. now right.
Qed.

Lemma split_from_shorthand ident rest cur :
  no_occurrence (lit " x") ident = true ->
  split_from (lit " x") (ident ++ 32%N :: 120%N :: rest) cur 0
  = (rev cur ++ ident) :: split_from (lit " x") rest [] 0.
Proof.
  change (lit " x") with [32%N; 120%N].
  revert cur. induction ident as [|c ident IH]; intros cur Hno.
  - cbn. now rewrite app_nil_r.
  - cbn [no_occurrence] in Hno. apply andb_prop in Hno as [Hc Hno].
    cbn [app split_from].
    assert (Hp : is_prefix [32%N; 120%N]
                   (c :: ident ++ 32%N :: 120%N :: rest) = false).
    { destruct ident as [|d ident].
      - cbn. now rewrite andb_false_r.
      - cbn [is_prefix app] in *. now apply negb_true_iff in Hc. }
    rewrite Hp, IH by exact Hno.
    cbn [rev]. now rewrite <- app_assoc.
Qed.

(** [int()] on a sequence of digits: the number they write, unless they
    are more than the interpreter converts. *)
Lemma int_of_str_digits ud q :
  q <> [] -> forallb is_digit q = true ->
  int_of_str ud q
  = if (N.of_nat (List.length q) <=? int_max_str_digits)%N
    then Some (digits_value q)
    else None.
Proof.
  intros Hne Hq.
  assert (Hin : forall c, In c q -> is_digit c = true)
    by now apply forallb_forall.
  unfold int_of_str.
  rewrite (@map_digits_id (to_ascii ud) _ (@digit_to_ascii ud) Hq).
  rewrite strip_with_keeps
    by (intros c Hc; apply digit_not_c_space; now apply Hin).
  rewrite drop_underscores_digits by (exact Hq || reflexivity).
  destruct q as [|c q]; [contradiction|].
  assert (Hc : is_digit c = true) by (apply Hin; now left).
  rewrite (@digit_no_sign c q Hc).
  rewrite (@take_digits_all _ 0%Z 0%nat Hq).
  reflexivity.
Qed.

Lemma py_int_digits ud q :
  q <> [] -> forallb is_digit q = true ->
  (N.of_nat (List.length q) <= int_max_str_digits)%N ->
  py_int ud q = Ok (digits_value q).
Proof.
  intros Hne Hq Hlen. unfold py_int. rewrite int_of_str_digits by assumption.
  apply N.leb_le in Hlen. now rewrite Hlen.
Qed.

Lemma py_int_too_long ud q :
  forallb is_digit q = true ->
  (int_max_str_digits < N.of_nat (List.length q))%N ->
  py_int ud q = Raise ValueError.
Proof.
  intros Hq Hlen. unfold py_int.
  assert (Hne : q <> []).
  { intros ->. cbn in Hlen. discriminate Hlen. }
  rewrite int_of_str_digits by assumption.
  apply N.leb_gt in Hlen. now rewrite Hlen.
Qed.


(** An identifier without the separator, the separator and a sequence of
    digits split in the identifier and the digits. *)
Lemma split_shorthand ident q :
  no_occurrence (lit " x") ident = true ->
  forallb is_digit q = true ->
  split (lit " x") (ident ++ lit " x" ++ q) = [ident; q].
Proof.
  intros Hno Hq. unfold split.
  change (lit " x" ++ q) with (32%N :: 120%N :: q).
  rewrite split_from_shorthand by exact Hno.
  rewrite split_from_no_space; [reflexivity|].
  intros c Hc E. subst c.
  assert (Hd : is_digit 32%N = true).
  { rewrite forallb_forall in Hq. now apply Hq. }
  discriminate Hd.
Qed.

Section Shorthand.

Variable unicode_decimal : char -> option N.

(** C5, as amended.  An entry of a sale's products whose split on [" x"]
    does not give exactly two parts is skipped: the graph is left as it is,
    nothing is raised, and the loop goes on with the remaining entries as
    if the entry were not there. *)
Theorem sale_product_skipped sid s :
  List.length (split (lit " x") s) <> 2 ->
  (forall g, sale_product_stmt unicode_decimal sid (PStr s) g = (g, Ok tt)) /\
  (forall before after g,
     for_each (before ++ PStr s :: after)
       (sale_product_stmt unicode_decimal sid) g
     = for_each (before ++ after) (sale_product_stmt unicode_decimal sid) g).
Proof.
  intros Hlen.
  assert (Hskip :
    forall g, sale_product_stmt unicode_decimal sid (PStr s) g = (g, Ok tt)).
  { intros g. unfold sale_product_stmt. cbn [py_split].
    rewrite bind_lift_ok.
    destruct (split (lit " x") s) as [|p0 [|p1 [|p2 ps]]]; try reflexivity.
    now contradiction Hlen. }
  split; [exact Hskip|].
  intros before after g. rewrite !for_each_app. unfold bind.
  destruct (for_each before _ g) as [g1 [[]|e]]; [|reflexivity].
  cbn [for_each]. unfold bind. now rewrite Hskip.
Qed.


End Shorthand.

(** ** Trade shows and their sales *)

(** Distinct keys in the SET list of a statement. *)
Ltac distinct_keys :=
  cbv [List.map fst key lit list_ascii_of_string N_of_ascii N_of_digits
       N.add N.mul Pos.add Pos.mul Pos.succ];
  repeat
    match goal with
    | |- NoDup [] => constructor
    | |- NoDup (_ :: _) => constructor
    | |- ~ In _ _ =>
        let H := fresh in
        intros H; cbn [In] in H;
        repeat (destruct H as [H|H]; [discriminate H|]); exact H
    end.

Section TradeShows.

Variable unicode_decimal : char -> option N.
Variable py_str : pyval -> str.
Variable fs : fsys.

Lemma graph_blind_displayed_stmt event product_id :
  graph_blind (displayed_stmt event product_id).
Proof. unfold displayed_stmt. step_blind. Qed.

Lemma graph_blind_sale_product_stmt sid product_str :
  graph_blind (sale_product_stmt unicode_decimal sid product_str).
Proof. unfold sale_product_stmt. step_blind. Qed.

Lemma graph_blind_sale_stmts event customer_type :
  graph_blind (sale_stmts unicode_decimal py_str event customer_type).
Proof.
  unfold sale_stmts. step_blind. apply graph_blind_sale_product_stmt.
Qed.

Lemma graph_blind_trade_show_stmts event :
  graph_blind (trade_show_stmts unicode_decimal py_str event).
Proof.
  unfold trade_show_stmts. step_blind.
  - apply graph_blind_displayed_stmt.
  - apply graph_blind_sale_stmts.
Qed.

Lemma graph_blind_model_used_stmt event model_str :
  graph_blind (model_used_stmt unicode_decimal event model_str).
Proof. unfold model_used_stmt. step_blind. Qed.

Lemma graph_blind_powered_event_stmts event :
  graph_blind (powered_event_stmts unicode_decimal event).
Proof.
  unfold powered_event_stmts. step_blind. apply graph_blind_model_used_stmt.
Qed.

Lemma graph_blind_load_events events_file :
  graph_blind (load_events unicode_decimal py_str fs events_file).
Proof.
  unfold load_events. step_blind.
  - apply graph_blind_trade_show_stmts.
  - apply graph_blind_powered_event_stmts.
Qed.

(** The parameters of the TradeShow statement are the six mapped
    properties, under distinct names. *)
Lemma trade_show_params_keys event params :
  trade_show_params unicode_decimal event = Ok params ->
  NoDup (List.map fst (snd params)) /\
  ~ In (key "event_id") (List.map fst (snd params)).
Proof.
  unfold trade_show_params, rbind.
  repeat
    match goal with
    | |- match ?r with Ok _ => _ | Raise _ => _ end = _ -> _ =>
        destruct r; [|discriminate]
    end.
  intros H. injection H as <-. cbn [snd]. split; distinct_keys.
Qed.

(** A missing product raises nothing and links nothing. *)
Lemma displayed_stmt_missing event event_id product_id g :
  getitem event (key "event_id") = Ok event_id ->
  no_node (Product, key "product_id", product_id) g ->
  displayed_stmt event product_id g = (g, Ok tt).
Proof.
  intros Hid Hno. unfold displayed_stmt. rewrite Hid, bind_lift_ok.
  unfold run. rewrite stmt_link_no_src; [reflexivity|].
  now apply match_nodes_nil.
Qed.

(** The statements of a trade-show record leave its node, with its key and
    its six mapped properties. *)
Lemma trade_show_node_written event params g :
  trade_show_params unicode_decimal event = Ok params ->
  has_node TradeShow ((key "event_id", PV (fst params)) :: snd params)
    (fst (trade_show_stmts unicode_decimal py_str event g)).
Proof.
  intros Hparams.
  destruct (trade_show_params_keys _ Hparams) as [Hnd Hk].
  unfold trade_show_stmts. rewrite Hparams, bind_lift_ok.
  unfold bind at 1. cbn [run].
  set (g1 := stmt_merge _ _ g).
  assert (H1 : has_node TradeShow
                 ((key "event_id", PV (fst params)) :: snd params) g1)
    by now apply stmt_merge_has_node.
  revert H1. generalize g1. clear g1.
  change (preserves
            (has_node TradeShow
               ((key "event_id", PV (fst params)) :: snd params))
            (bind (lift (getitem event (key "greenpower_participation")))
               (fun participation =>
                  bind (lift (get participation (key "models_displayed")
                                (PList [])))
                    (fun displayed =>
                       bind (lift (iter displayed))
                         (fun items =>
                            bind (for_each items (displayed_stmt event))
                              (fun _ =>
                                 for_each customer_types
                                   (sale_stmts unicode_decimal py_str
                                      event))))))).
  step_preserves.
  + apply preserves_displayed_stmt. intros.
    now apply has_node_stmt_link.
  + apply preserves_sale_stmts
      with (ok := fun L => negb (label_eqb L TradeShow));
      [intros; now apply has_node_stmt_link
      |intros; now apply has_node_stmt_merge
      |reflexivity].
Qed.

(** What a record of the file does to the TradeShow node of another
    record, given what its own TradeShow statement does to it. *)
Lemma trade_show_stmts_keep ps r :
  (forall p g0,
     trade_show_params unicode_decimal r = Ok p ->
     has_node TradeShow ps g0 ->
     has_node TradeShow ps
       (stmt_merge (TradeShow, key "event_id", fst p) (snd p) g0)) ->
  preserves (has_node TradeShow ps)
    (trade_show_stmts unicode_decimal py_str r).
Proof.
  intros Hmerge g Hg. unfold trade_show_stmts.
  destruct (trade_show_params unicode_decimal r) as [p|e] eqn:Hp;
    [|exact Hg].
  rewrite bind_lift_ok.
  revert g Hg.
  change (preserves (has_node TradeShow ps)
            (bind
               (run (stmt_merge (TradeShow, key "event_id", fst p) (snd p)))
               (fun _ =>
                  bind
                    (lift (getitem r (key "greenpower_participation")))
                    (fun participation =>
                       bind
                         (lift (get participation (key "models_displayed")
                                  (PList [])))
                         (fun displayed =>
                            bind (lift (iter displayed))
                              (fun items =>
                                 bind (for_each items (displayed_stmt r))
                                   (fun _ =>
                                      for_each customer_types
                                        (sale_stmts unicode_decimal py_str
                                           r)))))))).
  step_preserves.
  - apply preserves_run. intros g0. now apply Hmerge.
  - apply preserves_displayed_stmt. intros.
    now apply has_node_stmt_link.
  - apply preserves_sale_stmts
      with (ok := fun L => negb (label_eqb L TradeShow));
      [intros; now apply has_node_stmt_link
      |intros; now apply has_node_stmt_merge
      |reflexivity].
Qed.

Lemma powered_event_stmts_keep ps r :
  preserves (has_node TradeShow ps) (powered_event_stmts unicode_decimal r).
Proof.
  apply preserves_powered_event_stmts
    with (ok := fun L => negb (label_eqb L TradeShow));
    [intros; now apply has_node_stmt_link
    |intros; now apply has_node_stmt_merge
    |reflexivity].
Qed.

(** What holds after the statements of a record of the events file, and is
    kept by the records that follow and by the powered events, holds after
    [load_events], provided that the records before it return. *)
Lemma load_events_after_record
  (P : db -> Prop) events_file actual data shows before event after g :
  found (_find_file fs events_file (lit "*event*.json")) = Some actual ->
  read_json fs actual = Some data ->
  get data (key "trade_shows_exhibitions") (PList []) = Ok shows ->
  iter shows = Ok (before ++ event :: after) ->
  snd (for_each before (trade_show_stmts unicode_decimal py_str) g) = Ok tt ->
  (forall g1, P (fst (trade_show_stmts unicode_decimal py_str event g1))) ->
  (forall r,
     In r after -> preserves P (trade_show_stmts unicode_decimal py_str r)) ->
  (forall r, preserves P (powered_event_stmts unicode_decimal r)) ->
  P (fst (load_events unicode_decimal py_str fs events_file g)).
Proof.
  intros Hfound Hread Hget Hiter Hbefore Hevent Hafter Hpowered.
  unfold load_events.
  rewrite Hfound, Hread, Hget, bind_lift_ok, Hiter, bind_lift_ok.
  apply bind_fst_preserved.
  - rewrite for_each_reaches by exact Hbefore.
    apply bind_fst_preserved; [apply Hevent|].
    intros _. now apply preserves_for_each_in.
  - intros _. step_preserves. apply Hpowered.
Qed.

(** C3.  For a trade-show record whose node parameters evaluate, and a
    product id that no Product node carries.  The TradeShow node is in the
    graph that the record leaves, with its key and its six mapped
    properties; the statement for the missing id changes nothing and raises
    nothing; the graph has no DISPLAYED_AT relationship from a product of
    that id, after the record and after the whole events file; what the
    record, and [load_events], return or raise does not depend on the
    graph, hence not on which products exist; every relationship of the
    graph joins two nodes of the graph, before and after; and a
    relationship statement one of whose endpoints has no match changes
    nothing.  When the record is one of the trade shows of the events file
    and the records before it return, the graph that [load_events] leaves
    has the TradeShow node of its event id, whether [load_events] returns
    or a later record raises; and the node carries the six mapped
    properties of the record unless a later record of the file has the same
    event id. *)
Theorem missing_product_not_linked event params product_id g :
  trade_show_params unicode_decimal event = Ok params ->
  no_node (Product, key "product_id", product_id) g ->
  let g' := fst (trade_show_stmts unicode_decimal py_str event g) in
  has_node TradeShow ((key "event_id", PV (fst params)) :: snd params) g' /\
  (forall g1,
     no_node (Product, key "product_id", product_id) g1 ->
     displayed_stmt event product_id g1 = (g1, Ok tt)) /\
  rels_from DISPLAYED_AT (Product, key "product_id", product_id) g' = [] /\
  (forall events_file,
     rels_from DISPLAYED_AT (Product, key "product_id", product_id)
       (fst (load_events unicode_decimal py_str fs events_file g)) = []) /\
  graph_blind (trade_show_stmts unicode_decimal py_str event) /\
  (forall events_file,
     graph_blind (load_events unicode_decimal py_str fs events_file)) /\
  (rels_closed g -> rels_closed g') /\
  (forall events_file,
     rels_closed g ->
     rels_closed (fst (load_events unicode_decimal py_str fs events_file g))) /\
  (forall T src dst sets g0,
     match_nodes src g0 = [] \/ match_nodes dst g0 = [] ->
     stmt_link T src dst sets g0 = g0) /\
  (forall events_file actual data shows before after,
     found (_find_file fs events_file (lit "*event*.json")) = Some actual ->
     read_json fs actual = Some data ->
     get data (key "trade_shows_exhibitions") (PList []) = Ok shows ->
     iter shows = Ok (before ++ event :: after) ->
     snd (for_each before (trade_show_stmts unicode_decimal py_str) g)
     = Ok tt ->
     let g2 := fst (load_events unicode_decimal py_str fs events_file g) in
     has_node TradeShow [(key "event_id", PV (fst params))] g2 /\
     ((forall r p,
         In r after ->
         trade_show_params unicode_decimal r = Ok p -> fst p <> fst params) ->
      has_node TradeShow
        ((key "event_id", PV (fst params)) :: snd params) g2)).
Proof.
  intros Hparams Hno. cbv zeta.
  pose (kept := fun L => negb (label_eqb L Product)).
  assert (Hlink : forall T src dst sets g0,
             no_node (Product, key "product_id", product_id) g0 ->
             no_node (Product, key "product_id", product_id)
               (stmt_link T src dst sets g0)).
  { intros. now apply no_node_stmt_link. }
  assert (Hmerge : forall L k v sets g0,
             kept L = true ->
             no_node (Product, key "product_id", product_id) g0 ->
             no_node (Product, key "product_id", product_id)
               (stmt_merge (L, k, v) sets g0)).
  { intros. now apply no_node_stmt_merge. }
  split; [|split; [|split; [|split; [|split; [|split; [|split; [|split;
    [|split]]]]]]]].
  - now apply trade_show_node_written.
  - intros g1 Hg1.
    unfold trade_show_params in Hparams.
    destruct (getitem event (key "event_id")) as [event_id|] eqn:Hid;
      [|discriminate].
    now apply displayed_stmt_missing with (event_id := event_id).
  - apply rels_from_no_node.
    apply preserves_trade_show_stmts with (ok := kept); auto.
  - intros events_file. apply rels_from_no_node.
    apply preserves_load_events with (ok := kept); auto.
  - apply graph_blind_trade_show_stmts.
  - apply graph_blind_load_events.
  - intros Hc.
    apply preserves_trade_show_stmts with (ok := fun _ => true); auto.
    + intros. now apply stmt_link_closed.
    + intros. now apply stmt_merge_closed.
  - intros events_file Hc.
    apply preserves_load_events with (ok := fun _ => true); auto.
    + intros. now apply stmt_link_closed.
    + intros. now apply stmt_merge_closed.
  - intros T src dst sets g0 [H|H].
    + now apply stmt_link_no_src.
    + now apply stmt_link_no_dst.
  - intros events_file actual data shows before after
      Hfound Hread Hget Hiter Hbefore.
    split.
    + apply load_events_after_record
        with (actual := actual) (data := data) (shows := shows)
             (before := before) (event := event) (after := after);
        try assumption.
      * intros g1.
        destruct (@trade_show_node_written event params g1 Hparams)
          as (n & Hn & Hl & Hps).
        exists n. split; [exact Hn|split; [exact Hl|]].
        intros k v [E|[]]. apply Hps. now left.
      * intros r _. apply trade_show_stmts_keep. intros p g0 Hp.
        apply has_node_stmt_merge_unset.
        intros k [<-|[]].
        exact (proj2 (trade_show_params_keys _ Hp)).
      * intros r. apply powered_event_stmts_keep.
    + intros Hother.
      apply load_events_after_record
        with (actual := actual) (data := data) (shows := shows)
             (before := before) (event := event) (after := after);
        try assumption.
      * intros g1. now apply trade_show_node_written.
      * intros r Hr. apply trade_show_stmts_keep. intros p g0 Hp.
        apply has_node_stmt_merge_other_key. now apply (Hother r).
      * intros r. apply powered_event_stmts_keep.
Qed.

End TradeShows.

(** ** Sale nodes *)

Section Sales.

Variable unicode_decimal : char -> option N.
Variable py_str : pyval -> str.

(** None of the three customer types ends with another one preceded by an
    underscore, so the suffix of a sale id tells the customer type. *)
Lemma sale_id_suffix (a b c1 c2 : str) :
  In c1 customer_types -> In c2 customer_types ->
  a ++ lit "_" ++ c1 = b ++ lit "_" ++ c2 ->
  a = b /\ c1 = c2.
Proof.
  unfold customer_types.
  intros H1 H2 E.
  apply (f_equal (@rev char)) in E.
  rewrite !rev_app_distr in E.
  cbn [In] in H1, H2.
  destruct H1 as [<-|[<-|[<-|[]]]], H2 as [<-|[<-|[<-|[]]]];
    cbv [lit list_ascii_of_string List.map N_of_ascii N_of_digits rev app
         N.add N.mul Pos.add Pos.mul Pos.succ] in E;
    try discriminate E;
    (split; [|reflexivity]);
    repeat (injection E as E);
    apply (f_equal (@rev char)) in E; now rewrite !rev_involutive in E.
Qed.

(** When the units are a number greater than zero they are stored under
    the key ["units"]. *)
Lemma units_present sales units :
  get sales (key "units") (PInt 0) = Ok units ->
  gt_zero units = Ok true ->
  getitem sales (key "units") = Ok units.
Proof.
  destruct sales; try discriminate. simpl.
  destruct (lookup (key "units") d); [auto|].
  intros H. injection H as <-. discriminate.
Qed.

(** C7, as amended.  The id of a Sale node is the text of the event id, an
    underscore and the customer type: a function of the two.  Over the
    three customer types, two pairs have the same sale id exactly when
    their customer types are the same and the f-string renders their event
    ids alike; so that the sale id is injective on the pairs whose event
    ids are strings, and is the same for event ids that differ but are
    rendered alike.  The statements of a customer type
    leave the graph as it is unless the units recorded for that type are
    found greater than zero; when they are, and the parameters of the
    statement evaluate, the graph has the Sale node of that id with its
    mapped properties. *)
Theorem sale_id_spec :
  (forall event_id c,
     sale_id py_str (PStr event_id) c = event_id ++ lit "_" ++ c) /\
  (forall event_id1 event_id2 c1 c2,
     In c1 customer_types -> In c2 customer_types ->
     sale_id py_str (PStr event_id1) c1 = sale_id py_str (PStr event_id2) c2 ->
     event_id1 = event_id2 /\ c1 = c2) /\
  (forall event_id1 event_id2 c1 c2,
     In c1 customer_types -> In c2 customer_types ->
     (sale_id py_str event_id1 c1 = sale_id py_str event_id2 c2 <->
      format py_str event_id1 = format py_str event_id2 /\ c1 = c2)) /\
  (forall event c g,
     units_positive event c = false ->
     fst (sale_stmts unicode_decimal py_str event c g) = g) /\
  (forall event c closed sales units event_id revenue total g,
     getitem2 event (key "sales_data") (key "sales_closed") = Ok closed ->
     get closed c (PDict []) = Ok sales ->
     get sales (key "units") (PInt 0) = Ok units ->
     gt_zero units = Ok true ->
     getitem event (key "event_id") = Ok event_id ->
     getitem sales (key "total_revenue") = Ok revenue ->
     parse_revenue unicode_decimal revenue = Ok total ->
     has_node Sale
       [(key "sale_id", PV (PStr (sale_id py_str event_id c)));
        (key "customer_type", PV (PStr c));
        (key "units", PV units);
        (key "total_revenue", PV (PFloat total))]
       (fst (sale_stmts unicode_decimal py_str event c g))).
Proof.
  split; [|split; [|split; [|split]]].
  - reflexivity.
  - intros event_id1 event_id2 c1 c2. apply sale_id_suffix.
  - intros event_id1 event_id2 c1 c2 H1 H2. split.
    + now apply sale_id_suffix.
    + unfold sale_id. now intros [-> ->].
  - intros event c g. unfold units_positive, sale_stmts, bind, lift, rbind.
    destruct (getitem2 event _ _) as [closed|]; [|reflexivity].
    destruct (get closed c _) as [sales|]; [|reflexivity].
    destruct (get sales _ _) as [units|]; [|reflexivity].
    destruct (gt_zero units) as [[]|]; [discriminate|reflexivity|reflexivity].
  - intros event c closed sales units event_id revenue total g
      Hclosed Hsales Hunits Hpos Hid Hrev Htotal.
    pose proof (units_present _ Hunits Hpos) as Hunits'.
    unfold sale_stmts.
    rewrite Hclosed, bind_lift_ok, Hsales, bind_lift_ok, Hunits, bind_lift_ok,
      Hpos, bind_lift_ok, Hid, bind_lift_ok, Hunits', bind_lift_ok, Hrev,
      bind_lift_ok, Htotal, bind_lift_ok, bind_lift_ok.
    unfold bind at 1. cbn [run].
    match goal with
    | |- has_node ?L ?ps (fst (?rest ?g1)) =>
        assert (H1 : has_node L ps g1);
        [|revert H1; generalize g1; change (preserves (has_node L ps) rest)]
    end.
    + apply has_node_stmt_link.
      apply stmt_merge_has_node; distinct_keys.
    + step_preserves. apply preserves_sale_product_stmt.
      intros. now apply has_node_stmt_link.
Qed.

End Sales.

(** ** The orchestrator *)

Lemma stmt_create_index_eq name g :
  stmt_create_index name g
  = mkDb (nodes g) (rels g) (add_index name (indexes g)).
Proof.
  unfold stmt_create_index, add_index.
  destruct (existsb _ _); [now destruct g|reflexivity].
Qed.

Lemma add_index_in name l : In name l -> add_index name l = l.
Proof.
  intros H. unfold add_index.
  replace (existsb (str_eqb name) l) with true; [reflexivity|].
  symmetry. apply existsb_exists. exists name. split; [exact H|].
  apply str_eqb_refl.
Qed.

Lemma in_add_index name l : In name (add_index name l).
Proof.
  unfold add_index. destruct (existsb _ l) eqn:E.
  - apply existsb_exists in E as (x & Hx & Hx').
    apply str_eqb_eq in Hx'. now subst.
  - apply in_or_app. right. now left.
Qed.

Lemma add_index_incl name m l : In m l -> In m (add_index name l).
Proof.
  unfold add_index. destruct (existsb _ l); [auto|].
  intros H. apply in_or_app. now left.
Qed.

Lemma after_reset_eq g :
  after_reset g
  = mkDb [] []
      (add_index (lit "sale_customer")
         (add_index (lit "rd_project_id")
            (add_index (lit "trade_show_id")
               (add_index (lit "event_id")
                  (add_index (lit "product_id") (indexes g)))))).
Proof.
  unfold after_reset. now rewrite !stmt_create_index_eq.
Qed.

(** Creating the indexes again changes nothing. *)
Lemma after_reset_again g g' :
  indexes g' = indexes (after_reset g) -> after_reset g' = after_reset g.
Proof.
  intros H. rewrite (after_reset_eq g'), H, (after_reset_eq g).
  cbn [indexes]. f_equal.
  rewrite (add_index_in (lit "product_id"))
    by (do 4 apply add_index_incl; apply in_add_index).
  rewrite (add_index_in (lit "event_id"))
    by (do 3 apply add_index_incl; apply in_add_index).
  rewrite (add_index_in (lit "trade_show_id"))
    by (do 2 apply add_index_incl; apply in_add_index).
  rewrite (add_index_in (lit "rd_project_id"))
    by (apply add_index_incl; apply in_add_index).
  rewrite (add_index_in (lit "sale_customer")) by apply in_add_index.
  reflexivity.
Qed.

Lemma count_nodes_set_nodes L p sets g :
  count_nodes L (set_nodes p sets g) = count_nodes L g.
Proof.
  unfold count_nodes, set_nodes. cbn [nodes].
  induction (nodes g) as [|n ns IH]; [reflexivity|].
  cbn [List.map filter].
  replace (n_label (if node_matches p n
                    then mkNode (n_label n) (set_props sets (n_props n))
                    else n))
    with (n_label n) by now destruct (node_matches p n).
  destruct (label_eqb (n_label n) L); simpl; now rewrite IH.
Qed.

(** The counts after a MERGE ... SET statement do not depend on the values
    that it sets. *)
Lemma count_nodes_stmt_merge L p sets sets' g :
  count_nodes L (stmt_merge p sets g) = count_nodes L (stmt_merge p sets' g).
Proof.
  unfold stmt_merge. now rewrite !count_nodes_set_nodes.
Qed.

Section Orchestrator.

Variable unicode_decimal : char -> option N.
Variable py_str : pyval -> str.
Variable pixtral : str -> option (list str).
Variable fs : fsys.

Lemma load_all_eq now g :
  load_all unicode_decimal py_str pixtral fs now g
  = load_stages unicode_decimal py_str pixtral fs now (after_reset g).
Proof. reflexivity. Qed.

(** [load_image] catches whatever is raised. *)
Lemma load_image_returns image_path now g :
  exists g' b, load_image pixtral fs image_path now g = (g', Ok b).
Proof.
  unfold load_image.
  destruct (negb (path_exists fs image_path)); [now exists g, false|].
  destruct (pixtral image_path) as [[|d ds]|];
    try (now exists g, false).
  eexists _, true. reflexivity.
Qed.

Lemma load_stages_indexes now g :
  indexes (fst (load_stages unicode_decimal py_str pixtral fs now g))
  = indexes g.
Proof.
  pose (P := fun g' : db => indexes g' = indexes g).
  assert (Hlink : forall T src dst sets g0,
             P g0 -> P (stmt_link T src dst sets g0)).
  { unfold P. intros. now rewrite stmt_link_indexes. }
  assert (Hmerge : forall L k v sets g0,
             (fun _ : label => true) L = true ->
             P g0 -> P (stmt_merge (L, k, v) sets g0)).
  { unfold P. intros. now rewrite stmt_merge_indexes. }
  change (P (fst (load_stages unicode_decimal py_str pixtral fs now g))).
  assert (Hp : preserves P (load_stages unicode_decimal py_str pixtral fs now));
    [|now apply Hp].
  unfold load_stages. step_preserves.
  - now apply preserves_load_products with (ok := fun _ => true).
  - now apply preserves_load_events with (ok := fun _ => true).
  - now apply preserves_load_rd_projects with (ok := fun _ => true).
  - now apply preserves_load_image with (ok := fun _ => true).
Qed.

(** The time of the run enters the graph only through the value of
    [analyzed_at]. *)
Lemma load_stages_counts now now' g :
  snd (load_stages unicode_decimal py_str pixtral fs now g)
  = snd (load_stages unicode_decimal py_str pixtral fs now' g) /\
  (forall L,
     count_nodes L (fst (load_stages unicode_decimal py_str pixtral fs now g))
     = count_nodes L
         (fst (load_stages unicode_decimal py_str pixtral fs now' g))) /\
  (forall T,
     count_rels T (fst (load_stages unicode_decimal py_str pixtral fs now g))
     = count_rels T
         (fst (load_stages unicode_decimal py_str pixtral fs now' g))).
Proof.
  unfold load_stages, bind.
  destruct (load_products _ _ g) as [g1 [b1|e1]]; [|now repeat split].
  destruct (load_events _ _ _ _ g1) as [g2 [b2|e2]]; [|now repeat split].
  destruct (load_rd_projects _ _ g2) as [g3 [b3|e3]]; [|now repeat split].
  unfold load_image.
  destruct (negb (path_exists fs _)); [now repeat split|].
  destruct (pixtral _) as [[|d ds]|]; try (now repeat split).
  unfold bind, run, ret. cbn [fst snd].
  split; [reflexivity|split].
  - intros L. apply count_nodes_stmt_merge.
  - intros T. unfold count_rels. now rewrite !stmt_merge_rels.
Qed.

(** C2.  Running [load_all] a second time on the graph that a first run
    has left, with the same files, gives the same number of nodes of every
    label and the same number of relationships of every type, and the same
    outcome; the two runs may take place at different times.  At equal
    times the two graphs are the same. *)
Theorem load_all_twice_same_counts now1 now2 g0 :
  let g1 := fst (load_all unicode_decimal py_str pixtral fs now1 g0) in
  let g2 := fst (load_all unicode_decimal py_str pixtral fs now2 g1) in
  (forall L, count_nodes L g2 = count_nodes L g1) /\
  (forall T, count_rels T g2 = count_rels T g1) /\
  snd (load_all unicode_decimal py_str pixtral fs now2 g1)
  = snd (load_all unicode_decimal py_str pixtral fs now1 g0) /\
  fst (load_all unicode_decimal py_str pixtral fs now1 g1) = g1.
Proof.
  cbv zeta. rewrite !load_all_eq.
  assert (Hreset :
    after_reset
      (fst (load_stages unicode_decimal py_str pixtral fs now1
              (after_reset g0)))
    = after_reset g0).
  { apply after_reset_again. apply load_stages_indexes. }
  rewrite !Hreset.
  destruct (load_stages_counts now2 now1 (after_reset g0)) as (Hr & Hn & Ht).
  auto.
Qed.

(** C1, as amended.  A stage that reports its failure by returning [False]
    does not keep the next stages from running, and [load_all] returns the
    number of stages that succeeded: that is the case of a category whose
    file is absent or cannot be read as JSON, and of every failure of the
    image stage, which catches whatever is raised.  An exception raised
    while the records of the products, events or R&D file are mapped is
    not caught: it leaves [load_all] with the graph as it is then, and the
    later stages are not run. *)
Theorem load_all_stages now g :
  let s := after_reset g in
  (forall s1 b1 s2 b2 s3 b3,
     load_products fs (lit "data/greenpower_products.json") s = (s1, Ok b1) ->
     load_events unicode_decimal py_str fs
       (lit "data/greenpower_events.json") s1 = (s2, Ok b2) ->
     load_rd_projects fs (lit "data/greenpower_rd_innovations.json") s2
     = (s3, Ok b3) ->
     exists s4 b4,
       load_image pixtral fs (lit "data/exemple.jpg") now s3 = (s4, Ok b4) /\
       load_all unicode_decimal py_str pixtral fs now g
       = (s4, Ok (count_loaded b1 + count_loaded b2 + count_loaded b3
                  + count_loaded b4))) /\
  (forall file g0,
     (forall actual,
        found (_find_file fs file (lit "*product*.json")) = Some actual ->
        read_json fs actual = None) ->
     load_products fs file g0 = (g0, Ok false)) /\
  (forall file g0,
     (forall actual,
        found (_find_file fs file (lit "*event*.json")) = Some actual ->
        read_json fs actual = None) ->
     load_events unicode_decimal py_str fs file g0 = (g0, Ok false)) /\
  (forall file g0,
     (forall actual,
        found (_find_file fs file (lit "*rd*.json")) = Some actual ->
        read_json fs actual = None) ->
     load_rd_projects fs file g0 = (g0, Ok false)) /\
  (forall image_path now0 g0,
     exists g' b, load_image pixtral fs image_path now0 g0 = (g', Ok b)) /\
  (forall s1 e,
     load_products fs (lit "data/greenpower_products.json") s
     = (s1, Raise e) ->
     load_all unicode_decimal py_str pixtral fs now g = (s1, Raise e)) /\
  (forall s1 b1 s2 e,
     load_products fs (lit "data/greenpower_products.json") s = (s1, Ok b1) ->
     load_events unicode_decimal py_str fs
       (lit "data/greenpower_events.json") s1 = (s2, Raise e) ->
     load_all unicode_decimal py_str pixtral fs now g = (s2, Raise e)) /\
  (forall s1 b1 s2 b2 s3 e,
     load_products fs (lit "data/greenpower_products.json") s = (s1, Ok b1) ->
     load_events unicode_decimal py_str fs
       (lit "data/greenpower_events.json") s1 = (s2, Ok b2) ->
     load_rd_projects fs (lit "data/greenpower_rd_innovations.json") s2
     = (s3, Raise e) ->
     load_all unicode_decimal py_str pixtral fs now g = (s3, Raise e)).
Proof.
  cbv zeta. rewrite load_all_eq.
  split; [|split; [|split; [|split; [|split; [|split; [|split]]]]]].
  - intros s1 b1 s2 b2 s3 b3 H1 H2 H3.
    destruct (load_image_returns (lit "data/exemple.jpg") now s3)
      as (s4 & b4 & H4).
    exists s4, b4. split; [exact H4|].
    unfold load_stages.
    rewrite (@bind_ok _ _ _ _ _ _ _ H1), (@bind_ok _ _ _ _ _ _ _ H2),
      (@bind_ok _ _ _ _ _ _ _ H3), (@bind_ok _ _ _ _ _ _ _ H4).
    reflexivity.
  - intros file g0 H. unfold load_products.
    destruct (found _) as [actual|]; [|reflexivity].
    now rewrite (H actual eq_refl).
  - intros file g0 H. unfold load_events.
    destruct (found _) as [actual|]; [|reflexivity].
    now rewrite (H actual eq_refl).
  - intros file g0 H. unfold load_rd_projects.
    destruct (found _) as [actual|]; [|reflexivity].
    now rewrite (H actual eq_refl).
  - apply load_image_returns.
  - intros s1 e H1. unfold load_stages.
    now rewrite (@bind_raise _ _ _ _ _ _ _ H1).
  - intros s1 b1 s2 e H1 H2. unfold load_stages.
    now rewrite (@bind_ok _ _ _ _ _ _ _ H1), (@bind_raise _ _ _ _ _ _ _ H2).
  - intros s1 b1 s2 b2 s3 e H1 H2 H3. unfold load_stages.
    now rewrite (@bind_ok _ _ _ _ _ _ _ H1), (@bind_ok _ _ _ _ _ _ _ H2),
      (@bind_raise _ _ _ _ _ _ _ H3).
Qed.

End Orchestrator.

(** ** The theorems on the sample inputs *)

(** [parse_revenue_spec] on a bool, on an amount with separators and on a
    string that is no number. *)
Lemma parse_revenue_spec_witness :
  parse_revenue ascii_digits_only (PBool true)
  = py_float ascii_digits_only (PBool true) /\
  parse_revenue ascii_digits_only (PStr (lit " 1,250.50 "))
  = Ok (float_of_decimal false 125050 (-2)) /\
  parse_revenue ascii_digits_only (PStr (lit "12 abc"))
  = Ok (S754_zero false) /\
  parse_revenue ascii_digits_only (PStr (8364%N :: lit " 1,250,000"))
  = Ok (float_of_Z
          (digits_value (filter is_digit (8364%N :: lit " 1,250,000")))).
Proof.
  destruct (parse_revenue_spec ascii_digits_only) as (H1 & H2 & H3 & H4 & _).
  split; [|split; [|split]].
  - apply H1. reflexivity.
  - apply H2. reflexivity.
  - apply H3. reflexivity.
  - apply H4; reflexivity.
Defined.

(** [parse_revenue_idempotent] on the amount of the specification. *)
Lemma parse_revenue_idempotent_witness :
  exists f',
    parse_revenue ascii_digits_only (PFloat (float_of_Z 911750)) = Ok f' /\
    float_eqb f' (float_of_Z 911750) = true.
Proof.
  apply (proj2 (parse_revenue_idempotent ascii_digits_only)
           (PStr (8364%N :: lit "911,750"))).
  - reflexivity.
  - reflexivity.
Defined.

(** C9 fails on the string ["nan"]: [float()] reads it as NaN, which
    [parse_revenue] returns and returns again, and NaN is not [==] to
    itself. *)
Lemma parse_revenue_nan_not_equal :
  parse_revenue ascii_digits_only (PStr (lit "nan")) = Ok S754_nan /\
  parse_revenue ascii_digits_only (PFloat S754_nan) = Ok S754_nan /\
  float_eqb S754_nan S754_nan = false /\
  ~ parse_idempotent_eq ascii_digits_only.
Proof.
  split; [reflexivity|split; [reflexivity|split; [reflexivity|]]].
  intros H.
  destruct (H (PStr (lit "nan")) S754_nan eq_refl) as (f' & Hf' & Heq).
  injection Hf' as <-. discriminate Heq.
Qed.

(** [parse_revenue_other_raises] on [None] and on a list. *)
Lemma parse_revenue_other_raises_witness :
  parse_revenue ascii_digits_only PNone = Raise AttributeError /\
  parse_revenue ascii_digits_only (PList [PInt 1]) = Raise AttributeError.
Proof.
  split.
  - apply (proj1 (parse_revenue_other_raises ascii_digits_only));
      reflexivity.
  - apply (proj1 (parse_revenue_other_raises ascii_digits_only));
      reflexivity.
Defined.

(** [find_file_spec] where the expected products file is absent and two
    files match the pattern, and where no R&D file exists. *)
Lemma find_file_spec_witness :
  _find_file renamed_products (lit "data/greenpower_products.json")
    (lit "*product*.json")
  = Some (lit "data/my_products_v2.json") /\
  _find_file renamed_products (lit "data/greenpower_events.json")
    (lit "*event*.json")
  = Some (lit "data/greenpower_events.json") /\
  _find_file renamed_products (lit "data/greenpower_rd_innovations.json")
    (lit "*rd*.json")
  = None /\
  load_rd_projects renamed_products
    (lit "data/greenpower_rd_innovations.json") empty_db
  = (empty_db, Ok false).
Proof.
  split; [|split; [|split]].
  - apply (proj1 (proj2 (find_file_spec renamed_products
                           (lit "data/greenpower_products.json")
                           (lit "*product*.json"))))
      with (cs := [lit "data/old_products.json"]);
      reflexivity.
  - apply (proj1 (find_file_spec renamed_products
                    (lit "data/greenpower_events.json")
                    (lit "*event*.json"))).
    reflexivity.
  - apply (proj1 (proj2 (proj2 (find_file_spec renamed_products
                                  (lit "data/greenpower_rd_innovations.json")
                                  (lit "*rd*.json")))));
      reflexivity.
  - apply (proj2 (proj2 (proj2 (proj2 (proj2
             (find_file_spec renamed_products [] [])))))).
    reflexivity.
Defined.

(** [sale_product_skipped] on an entry without a quantity. *)
Lemma sale_product_skipped_witness :
  sale_product_stmt ascii_digits_only (lit "TS-1_particuliers")
    (PStr (lit "PG-M01")) empty_db
  = (empty_db, Ok tt).
Proof.
  apply (proj1 (@sale_product_skipped ascii_digits_only
                  (lit "TS-1_particuliers") (lit "PG-M01")
                  ltac:(vm_compute; lia))).
Defined.

(** C5 fails on ["PG-M01 xabc"]: the entry is not in the shorthand format,
    it splits in two parts all the same, and [int("abc")] raises. *)
Lemma sale_product_bad_quantity_raises :
  shorthand_format (lit "PG-M01 xabc") = false /\
  split (lit " x") (lit "PG-M01 xabc") = [lit "PG-M01"; lit "abc"] /\
  sale_product_stmt ascii_digits_only (lit "TS-1_particuliers")
    (PStr (lit "PG-M01 xabc")) empty_db
  = (empty_db, Raise ValueError) /\
  ~ skips_malformed_entries ascii_digits_only.
Proof.
  split; [reflexivity|split; [reflexivity|split; [reflexivity|]]].
  intros H.
  specialize (H (lit "TS-1_particuliers") (lit "PG-M01 xabc") empty_db
                eq_refl).
  discriminate H.
Qed.



Lemma no_node_empty p : no_node p empty_db.
Proof. intros n []. Qed.

(** [missing_product_not_linked] on the sample trade show, which displays
    PG-M01 and the unknown PG-ZZ and is the first of the two trade shows of
    the events file, in the graph that has PG-M01: [load_events] returns,
    the trade show has its node with the mapped properties, one product is
    linked to it and PG-ZZ is not. *)
Lemma missing_product_not_linked_witness :
  let r :=
    load_events ascii_digits_only no_rendering two_trade_shows
      (lit "data/greenpower_events.json") graph_with_m01 in
  snd r = Ok true /\
  has_node TradeShow
    ((key "event_id", PV (pstr "TS-1")) :: snd trade_show_1_params) (fst r) /\
  rels_from DISPLAYED_AT (Product, key "product_id", pstr "PG-ZZ") (fst r)
  = [] /\
  count_rels DISPLAYED_AT (fst r) = 1 /\
  rels_closed (fst r).
Proof.
  cbv zeta.
  assert (Hno : no_node (Product, key "product_id", pstr "PG-ZZ")
                  graph_with_m01).
  { apply match_nodes_nil. vm_compute. reflexivity. }
  destruct (@missing_product_not_linked ascii_digits_only no_rendering
              two_trade_shows trade_show_1 trade_show_1_params
              (pstr "PG-ZZ") graph_with_m01
              ltac:(vm_compute; reflexivity) Hno)
    as (_ & _ & _ & H4 & _ & _ & _ & H8 & _ & H10).
  split; [vm_compute; reflexivity|split; [|split; [|split]]].
  - refine (proj2 (H10 (lit "data/greenpower_events.json")
                     (lit "data/greenpower_events.json")
                     (pdict
                        [("trade_shows_exhibitions",
                          PList [trade_show_1;
                                 trade_show_with_id (pstr "TS-2")])]%string)
                     (PList [trade_show_1; trade_show_with_id (pstr "TS-2")])
                     [] [trade_show_with_id (pstr "TS-2")]
                     ltac:(vm_compute; reflexivity)
                     ltac:(vm_compute; reflexivity)
                     ltac:(vm_compute; reflexivity)
                     eq_refl eq_refl) _).
    intros r [pid pps] [<-|[]] Hp.
    vm_compute in Hp. injection Hp as Hpid _. subst pid.
    vm_compute. discriminate.
  - apply H4.
  - vm_compute. reflexivity.
  - apply H8. vm_compute. repeat constructor.
Defined.

(** [sale_id_spec] on the sample trade show: no sale for the customer type
    with zero units, the Sale node of the customer type with two units, and
    other sale ids for another customer type and for another trade
    show. *)
Lemma sale_id_spec_witness :
  fst (sale_stmts ascii_digits_only no_rendering trade_show_1
         (lit "entreprises") empty_db)
  = empty_db /\
  has_node Sale
    [(key "sale_id", PV (PStr (lit "TS-1_particuliers")));
     (key "customer_type", PV (PStr (lit "particuliers")));
     (key "units", PV (PInt 2));
     (key "total_revenue", PV (PFloat (float_of_Z 1000)))]
    (fst (sale_stmts ascii_digits_only no_rendering trade_show_1
            (lit "particuliers") empty_db)) /\
  sale_id no_rendering (pstr "TS-1") (lit "particuliers")
  <> sale_id no_rendering (pstr "TS-1") (lit "entreprises") /\
  sale_id no_rendering (pstr "TS-1") (lit "particuliers")
  <> sale_id no_rendering (pstr "TS-2") (lit "particuliers").
Proof.
  destruct (sale_id_spec ascii_digits_only no_rendering)
    as (_ & H2 & _ & H3 & H4).
  split; [|split; [|split]].
  - apply H3. reflexivity.
  - apply (H4 trade_show_1 (lit "particuliers") _ _ (PInt 2) (pstr "TS-1")
             (pstr "1 000") (float_of_Z 1000) empty_db
             eq_refl eq_refl eq_refl eq_refl eq_refl eq_refl eq_refl).
  - intros E.
    apply (H2 (lit "TS-1") (lit "TS-1") (lit "particuliers")
             (lit "entreprises")) in E.
    + destruct E as [_ E]. discriminate E.
    + left. reflexivity.
    + right. left. reflexivity.
  - intros E.
    apply (H2 (lit "TS-1") (lit "TS-2") (lit "particuliers")
             (lit "particuliers")) in E.
    + destruct E as [E _]. discriminate E.
    + left. reflexivity.
    + left. reflexivity.
Defined.

(** C7 fails on the event ids [1] and ["1"]: the f-string renders both as
    ["1"], so that two pairs that differ have one sale id.  Of two trade
    shows with these ids, each with a sale to private customers, the loader
    leaves two TradeShow nodes and one Sale node. *)
Lemma sale_id_collision :
  PInt 1 <> pstr "1" /\
  (forall other c,
     sale_id (str_of_value other) (PInt 1) c
     = sale_id (str_of_value other) (pstr "1") c) /\
  (let g :=
     fst (for_each
            [trade_show_with_id (PInt 1); trade_show_with_id (pstr "1")]
            (trade_show_stmts ascii_digits_only (str_of_value no_rendering))
            empty_db) in
   count_nodes TradeShow g = 2 /\ count_nodes Sale g = 1) /\
  ~ sale_id_collision_free (str_of_value no_rendering).
Proof.
  split; [discriminate|split; [reflexivity|split]].
  - vm_compute. split; reflexivity.
  - intros H.
    apply (H (PInt 1) (lit "particuliers") (pstr "1") (lit "particuliers")).
    + left. reflexivity.
    + left. reflexivity.
    + discriminate.
    + reflexivity.
Qed.

(** [load_all_stages] on the directory without an R&D file: that stage
    returns [False], the image stage still runs, and three stages are
    counted. *)
Lemma load_all_stages_witness :
  load_rd_projects renamed_products
    (lit "data/greenpower_rd_innovations.json") empty_db
  = (empty_db, Ok false) /\
  snd (load_all ascii_digits_only no_rendering two_segments renamed_products
         7 empty_db)
  = Ok 3.
Proof.
  destruct (load_all_stages ascii_digits_only no_rendering two_segments
              renamed_products 7 empty_db)
    as (H1 & _ & _ & H4 & _).
  split.
  - apply H4. intros actual H. discriminate H.
  - destruct (H1 _ _ _ _ _ _ eq_refl eq_refl eq_refl)
      as (s4 & b4 & Himage & Hall).
    rewrite Hall. injection Himage as _ <-. reflexivity.
Defined.

(** C1 fails on a products file whose record lacks ["product_id"]: the
    [KeyError] leaves [load_all], and the trade show of the events file,
    which [load_events] alone would load, is not in the graph. *)
Lemma load_all_raises_on_missing_key :
  load_all ascii_digits_only no_rendering two_segments record_without_keys
    7 empty_db
  = (after_reset empty_db, Raise (KeyError (lit "product_id"))) /\
  count_nodes TradeShow
    (fst (load_all ascii_digits_only no_rendering two_segments
            record_without_keys 7 empty_db))
  = 0 /\
  count_nodes TradeShow
    (fst (load_events ascii_digits_only no_rendering record_without_keys
            (lit "data/greenpower_events.json") empty_db))
  = 1 /\
  ~ load_all_never_raises ascii_digits_only no_rendering two_segments.
Proof.
  split; [reflexivity|split; [reflexivity|split; [reflexivity|]]].
  intros H. specialize (H record_without_keys 7%Z empty_db).
  discriminate H.
Qed.

(* ================================================================== *)
(** * Further properties of the loader *)

(** ** Invariants of the schema *)

Lemma nth_error_merge_node p g i n :
  nth_error (nodes g) i = Some n ->
  nth_error (nodes (merge_node p g)) i = Some n.
Proof.
  intros H. unfold merge_node. destruct (match_nodes p g); [|exact H].
  destruct p as [[L k] v]. cbn [nodes].
  rewrite nth_error_app1; [exact H|].
  apply nth_error_Some. congruence.
Qed.

Lemma nth_error_set_nodes p sets g i n :
  nth_error (nodes g) i = Some n ->
  exists n',
    nth_error (nodes (set_nodes p sets g)) i = Some n' /\
    n_label n' = n_label n.
Proof.
  intros H. unfold set_nodes. cbn [nodes]. rewrite nth_error_map, H.
  cbn [option_map]. eexists. split; [reflexivity|].
  now destruct (node_matches p n).
Qed.

Lemma match_nodes_nth p g i :
  In i (match_nodes p g) ->
  exists n, nth_error (nodes g) i = Some n /\ node_matches p n = true.
Proof.
  intros H. apply find_from_nth in H. now rewrite Nat.sub_0_r in H.
Qed.

Lemma well_typed_stmt_merge p sets g :
  well_typed g -> well_typed (stmt_merge p sets g).
Proof.
  unfold well_typed. rewrite stmt_merge_rels. intros H.
  eapply Forall_impl; [|exact H]. cbv beta.
  intros r (n & m & Hn & Hm & Hl).
  apply (nth_error_merge_node p) in Hn, Hm.
  apply (nth_error_set_nodes p sets) in Hn as (n' & Hn' & En).
  apply (nth_error_set_nodes p sets) in Hm as (m' & Hm' & Em).
  exists n', m'. unfold stmt_merge. now rewrite En, Em.
Qed.

Lemma well_typed_merge_rel T sets g a b n m :
  nth_error (nodes g) a = Some n -> nth_error (nodes g) b = Some m ->
  (n_label n, n_label m) = endpoints T ->
  well_typed g -> well_typed (merge_rel T sets g (a, b)).
Proof.
  intros Hn Hm Hl H. unfold well_typed, merge_rel.
  destruct (existsb _ _); cbn [rels nodes].
  - apply Forall_forall. intros r Hr.
    apply in_map_iff in Hr as (r0 & <- & Hr0).
    destruct (rel_is T a b r0).
    + now exists n, m.
    + unfold well_typed in H. rewrite Forall_forall in H. now apply H.
  - apply Forall_app. split; [exact H|].
    constructor; [|constructor]. now exists n, m.
Qed.

Lemma well_typed_stmt_link T src dst sets g :
  (fst (fst src), fst (fst dst)) = endpoints T ->
  well_typed g -> well_typed (stmt_link T src dst sets g).
Proof.
  intros Hl Hg. unfold stmt_link.
  assert (Hpairs : forall a b,
             In (a, b) (list_prod (match_nodes src g) (match_nodes dst g)) ->
             exists n m,
               nth_error (nodes g) a = Some n /\
               nth_error (nodes g) b = Some m /\
               (n_label n, n_label m) = endpoints T).
  { intros a b Hin. apply in_prod_iff in Hin as [Ha Hb].
    apply match_nodes_nth in Ha as (n & Hn & Hpn).
    apply match_nodes_nth in Hb as (m & Hm & Hpm).
    exists n, m. split; [exact Hn|split; [exact Hm|]].
    destruct src as [[Ls ks] vs], dst as [[Ld kd] vd].
    apply node_matches_label in Hpn, Hpm. cbn [fst] in Hl. congruence. }
  revert Hpairs Hg.
  generalize (list_prod (match_nodes src g) (match_nodes dst g)) as pairs.
  intros pairs. revert g.
  induction pairs as [|[a b] pairs IH]; intros g Hpairs Hg;
    cbn [fold_left]; [exact Hg|].
  apply IH.
  - intros a' b' Hin. rewrite merge_rel_nodes. apply Hpairs. now right.
  - destruct (Hpairs a b (or_introl eq_refl)) as (n & m & Hn & Hm & Hnm).
    now apply well_typed_merge_rel with (n := n) (m := m).
Qed.

Lemma unique_rels_merge_rel T sets g ab :
  unique_rels g -> unique_rels (merge_rel T sets g ab).
Proof.
  unfold unique_rels, merge_rel. destruct ab as [a b]. intros H.
  destruct (existsb (rel_is T a b) (rels g)) eqn:E; cbn [rels].
  - rewrite map_map.
    replace (List.map _ (rels g)) with (List.map rel_ident (rels g));
      [exact H|].
    apply map_ext. intros r. destruct (rel_is T a b r) eqn:Er; [|reflexivity].
    apply rel_is_true in Er as (<- & <- & <-). reflexivity.
  - rewrite map_app. apply NoDup_app; [exact H|repeat constructor; auto|].
    intros x Hx [<-|[]].
    apply in_map_iff in Hx as (r & Hr & Hin).
    assert (Hex : existsb (rel_is T a b) (rels g) = true).
    { apply existsb_exists. exists r. split; [exact Hin|].
      apply rel_is_true. unfold rel_ident in Hr. cbn in Hr.
      now injection Hr. }
    congruence.
Qed.

Lemma unique_rels_stmt_link T src dst sets g :
  unique_rels g -> unique_rels (stmt_link T src dst sets g).
Proof.
  unfold stmt_link.
  generalize (list_prod (match_nodes src g) (match_nodes dst g)) as pairs.
  intros pairs. revert g.
  induction pairs as [|ab pairs IH]; intros g Hg; cbn [fold_left];
    [exact Hg|].
  apply IH. now apply unique_rels_merge_rel.
Qed.

Lemma unique_rels_stmt_merge p sets g :
  unique_rels g -> unique_rels (stmt_merge p sets g).
Proof. unfold unique_rels. now rewrite stmt_merge_rels. Qed.

Lemma unique_keys_stmt_link T src dst sets g :
  unique_keys g -> unique_keys (stmt_link T src dst sets g).
Proof. unfold unique_keys. now rewrite stmt_link_nodes. Qed.

Lemma unique_keys_merge_node L v g :
  unique_keys g -> unique_keys (merge_node (L, key_name L, v) g).
Proof.
  unfold unique_keys, merge_node. intros H.
  destruct (match_nodes _ g) eqn:E; [|exact H].
  cbn [nodes]. rewrite map_app.
  apply NoDup_app; [exact H|repeat constructor; auto|].
  intros x Hx [<-|[]].
  apply in_map_iff in Hx as (n & Hn & Hin).
  apply match_nodes_nil in E. specialize (E n Hin).
  unfold node_ident in Hn. cbn [n_label n_props lookup] in Hn.
  rewrite str_eqb_refl in Hn. injection Hn as Hl Hk.
  rewrite Hl in Hk. unfold node_matches in E.
  rewrite Hl, label_eqb_refl, Hk, pyval_eqb_refl in E. discriminate E.
Qed.

Lemma unique_keys_set_nodes L v sets g :
  ~ In (key_name L) (List.map fst sets) ->
  unique_keys g -> unique_keys (set_nodes (L, key_name L, v) sets g).
Proof.
  unfold unique_keys, set_nodes. intros Hk H. cbn [nodes].
  rewrite map_map.
  replace (List.map _ (nodes g)) with (List.map node_ident (nodes g));
    [exact H|].
  apply map_ext. intros n.
  destruct (node_matches (L, key_name L, v) n) eqn:E; [|reflexivity].
  apply node_matches_label in E.
  unfold node_ident. cbn [n_label n_props].
  now rewrite E, lookup_set_props_notin.
Qed.

Lemma unique_keys_stmt_merge L v sets g :
  ~ In (key_name L) (List.map fst sets) ->
  unique_keys g -> unique_keys (stmt_merge (L, key_name L, v) sets g).
Proof.
  intros Hk H. unfold stmt_merge.
  now apply unique_keys_set_nodes, unique_keys_merge_node.
Qed.

(** A computation that follows a parameter evaluation may rely on its
    value. *)
Lemma preserves_bind_lift P A B (r : result A) (k : A -> M B) :
  (forall a, r = Ok a -> preserves P (k a)) -> preserves P (bind (lift r) k).
Proof.
  intros Hk g H. unfold bind, lift. destruct r as [a|e]; [|exact H].
  now apply Hk.
Qed.

Section SchemaInvariants.

Variable unicode_decimal : char -> option N.
Variable py_str : pyval -> str.
Variable pixtral : str -> option (list str).
Variable fs : fsys.

(** A property that the statements keep when they follow the schema: a
    relationship statement between the labels of its type, a node statement
    that merges on the key of its label and does not set that key. *)
Variable P : db -> Prop.
Hypothesis Hlink :
  forall T src dst sets g,
    (fst (fst src), fst (fst dst)) = endpoints T ->
    P g -> P (stmt_link T src dst sets g).
Hypothesis Hmerge :
  forall L v sets g,
    ~ In (key_name L) (List.map fst sets) ->
    P g -> P (stmt_merge (L, key_name L, v) sets g).

Ltac schema_step :=
  apply preserves_run; intros;
  repeat first
    [ apply Hlink; [reflexivity|]
    | match goal with
      | |- P (stmt_merge (?L, _, ?v) ?sets _) =>
          apply (Hmerge L v sets); [distinct_keys|]
      end ];
  auto.

Lemma schema_product_stmts product : preserves P (product_stmts product).
Proof. unfold product_stmts. step_preserves; schema_step. Qed.

Lemma schema_load_products file : preserves P (load_products fs file).
Proof.
  unfold load_products. step_preserves. apply schema_product_stmts.
Qed.

Lemma schema_sale_stmts event customer_type :
  preserves P (sale_stmts unicode_decimal py_str event customer_type).
Proof.
  unfold sale_stmts, sale_product_stmt. step_preserves; schema_step.
Qed.

Lemma schema_trade_show_stmts event :
  preserves P (trade_show_stmts unicode_decimal py_str event).
Proof.
  unfold trade_show_stmts. apply preserves_bind_lift. intros params Hparams.
  destruct (@trade_show_params_keys _ _ _ Hparams) as [_ Hk].
  unfold displayed_stmt. step_preserves.
  - apply preserves_run. intros. now apply (Hmerge TradeShow).
  - schema_step.
  - apply schema_sale_stmts.
Qed.

Lemma schema_powered_event_stmts event :
  preserves P (powered_event_stmts unicode_decimal event).
Proof.
  unfold powered_event_stmts, model_used_stmt. step_preserves; schema_step.
Qed.

Lemma schema_load_events file :
  preserves P (load_events unicode_decimal py_str fs file).
Proof.
  unfold load_events. step_preserves.
  - apply schema_trade_show_stmts.
  - apply schema_powered_event_stmts.
Qed.

Lemma schema_rd_project_stmts project :
  preserves P (rd_project_stmts project).
Proof.
  unfold rd_project_stmts, target_stmt. step_preserves; schema_step.
Qed.

Lemma schema_load_rd_projects file : preserves P (load_rd_projects fs file).
Proof.
  unfold load_rd_projects. step_preserves. apply schema_rd_project_stmts.
Qed.

Lemma schema_load_image image_path now :
  preserves P (load_image pixtral fs image_path now).
Proof. unfold load_image. step_preserves. schema_step. Qed.

Lemma schema_load_stages now :
  preserves P (load_stages unicode_decimal py_str pixtral fs now).
Proof.
  unfold load_stages. step_preserves.
  - apply schema_load_products.
  - apply schema_load_events.
  - apply schema_load_rd_projects.
  - apply schema_load_image.
Qed.

End SchemaInvariants.

Lemma schema_load_all ud py_str pixtral fs (P : db -> Prop) :
  (forall T src dst sets g,
     (fst (fst src), fst (fst dst)) = endpoints T ->
     P g -> P (stmt_link T src dst sets g)) ->
  (forall L v sets g,
     ~ In (key_name L) (List.map fst sets) ->
     P g -> P (stmt_merge (L, key_name L, v) sets g)) ->
  (forall names, P (mkDb [] [] names)) ->
  forall now g, P (fst (load_all ud py_str pixtral fs now g)).
Proof.
  intros Hlink Hmerge Hempty now g. rewrite load_all_eq.
  apply schema_load_stages; auto.
  rewrite after_reset_eq. apply Hempty.
Qed.

Section LoadedGraph.

Variable unicode_decimal : char -> option N.
Variable py_str : pyval -> str.
Variable pixtral : str -> option (list str).
Variable fs : fsys.

(** X1.  Whatever the files hold and whatever graph was there before, no
    two nodes of the graph that [load_all] leaves have the same label and
    the same key, also when it raises; and each loading method keeps a
    graph free of such duplicates, so that records with the same id, in
    one file or over repeated loads, end in one node. *)
Theorem loaded_nodes_unique :
  (forall now g,
     unique_keys (fst (load_all unicode_decimal py_str pixtral fs now g))) /\
  (forall file g,
     unique_keys g -> unique_keys (fst (load_products fs file g))) /\
  (forall file g,
     unique_keys g ->
     unique_keys (fst (load_events unicode_decimal py_str fs file g))) /\
  (forall file g,
     unique_keys g -> unique_keys (fst (load_rd_projects fs file g))) /\
  (forall image_path now g,
     unique_keys g ->
     unique_keys (fst (load_image pixtral fs image_path now g))).
Proof.
  assert (Hlink : forall T src dst sets g,
             (fst (fst src), fst (fst dst)) = endpoints T ->
             unique_keys g -> unique_keys (stmt_link T src dst sets g)).
  { intros. now apply unique_keys_stmt_link. }
  assert (Hmerge : forall L v sets g,
             ~ In (key_name L) (List.map fst sets) ->
             unique_keys g ->
             unique_keys (stmt_merge (L, key_name L, v) sets g)).
  { intros. now apply unique_keys_stmt_merge. }
  split; [|split; [|split; [|split]]].
  - apply schema_load_all; auto. intros names. constructor.
  - intros file. now apply schema_load_products.
  - intros file. now apply schema_load_events.
  - intros file. now apply schema_load_rd_projects.
  - intros image_path now. now apply schema_load_image.
Qed.

(** X2.  In the graph that [load_all] leaves, every relationship joins two
    nodes of the graph, and they have the labels of its type: USES_BATTERY
    goes from a Product to a BatteryType, DISPLAYED_AT from a Product to a
    TradeShow, SOLD_AT from a Sale to a TradeShow, INCLUDES_PRODUCT from a
    Sale to a Product, DEPLOYED_AT from a Product to an Event and
    TARGETS_PRODUCT from an RDProject to a Product.  Each loading method
    keeps a graph that is so. *)
Theorem loaded_rels_well_typed :
  (forall now g,
     well_typed (fst (load_all unicode_decimal py_str pixtral fs now g))) /\
  (forall file g,
     well_typed g -> well_typed (fst (load_products fs file g))) /\
  (forall file g,
     well_typed g ->
     well_typed (fst (load_events unicode_decimal py_str fs file g))) /\
  (forall file g,
     well_typed g -> well_typed (fst (load_rd_projects fs file g))) /\
  (forall image_path now g,
     well_typed g ->
     well_typed (fst (load_image pixtral fs image_path now g))).
Proof.
  assert (Hlink : forall T src dst sets g,
             (fst (fst src), fst (fst dst)) = endpoints T ->
             well_typed g -> well_typed (stmt_link T src dst sets g)).
  { intros. now apply well_typed_stmt_link. }
  assert (Hmerge : forall L v sets g,
             ~ In (key_name L) (List.map fst sets) ->
             well_typed g ->
             well_typed (stmt_merge (L, key_name L, v) sets g)).
  { intros. now apply well_typed_stmt_merge. }
  split; [|split; [|split; [|split]]].
  - apply schema_load_all; auto. intros names. constructor.
  - intros file. now apply schema_load_products.
  - intros file. now apply schema_load_events.
  - intros file. now apply schema_load_rd_projects.
  - intros image_path now. now apply schema_load_image.
Qed.

(** X3.  In the graph that [load_all] leaves, no two relationships have
    the same type and the same two endpoints: an entry that names a product
    twice, or a record that is loaded again, updates the relationship that
    is there.  Each loading method keeps a graph that is so. *)
Theorem loaded_rels_unique :
  (forall now g,
     unique_rels (fst (load_all unicode_decimal py_str pixtral fs now g))) /\
  (forall file g,
     unique_rels g -> unique_rels (fst (load_products fs file g))) /\
  (forall file g,
     unique_rels g ->
     unique_rels (fst (load_events unicode_decimal py_str fs file g))) /\
  (forall file g,
     unique_rels g -> unique_rels (fst (load_rd_projects fs file g))) /\
  (forall image_path now g,
     unique_rels g ->
     unique_rels (fst (load_image pixtral fs image_path now g))).
Proof.
  assert (Hlink : forall T src dst sets g,
             (fst (fst src), fst (fst dst)) = endpoints T ->
             unique_rels g -> unique_rels (stmt_link T src dst sets g)).
  { intros. now apply unique_rels_stmt_link. }
  assert (Hmerge : forall L v sets g,
             ~ In (key_name L) (List.map fst sets) ->
             unique_rels g ->
             unique_rels (stmt_merge (L, key_name L, v) sets g)).
  { intros. now apply unique_rels_stmt_merge. }
  split; [|split; [|split; [|split]]].
  - apply schema_load_all; auto. intros names. constructor.
  - intros file. now apply schema_load_products.
  - intros file. now apply schema_load_events.
  - intros file. now apply schema_load_rd_projects.
  - intros image_path now. now apply schema_load_image.
Qed.

End LoadedGraph.

(** ** Matched nodes and existing relationships *)

Lemma find_from_complete p ns i k n :
  nth_error ns k = Some n -> p n = true -> In (i + k) (find_from p ns i).
Proof.
  revert i k. induction ns as [|n0 ns IH]; intros i k Hn Hp.
  - now destruct k.
  - destruct k as [|k]; cbn [nth_error] in Hn; cbn [find_from].
    + injection Hn as ->. rewrite Hp, Nat.add_0_r. now left.
    + replace (i + S k) with (S i + k) by lia.
      destruct (p n0); [right|]; now apply IH.
Qed.

Lemma match_nodes_iff p g a :
  In a (match_nodes p g) <->
  exists n, nth_error (nodes g) a = Some n /\ node_matches p n = true.
Proof.
  split; [apply match_nodes_nth|].
  intros (n & Hn & Hp). apply (find_from_complete _ _ 0 _ Hn Hp).
Qed.

Lemma node_matches_set_props L k v sets n :
  ~ In k (List.map fst sets) ->
  node_matches (L, k, v) (mkNode (n_label n) (set_props sets (n_props n)))
  = node_matches (L, k, v) n.
Proof.
  intros Hk. unfold node_matches. cbn [n_label n_props].
  now rewrite lookup_set_props_notin.
Qed.

(** The node of a MERGE ... SET statement is matched by its pattern
    afterwards. *)
Lemma match_stmt_merge_self L k v sets g :
  ~ In k (List.map fst sets) ->
  exists a, In a (match_nodes (L, k, v) (stmt_merge (L, k, v) sets g)).
Proof.
  intros Hk. destruct (merge_node_matched L k v g) as (n & Hn & Hm).
  apply In_nth_error in Hn as (a & Ha).
  exists a. apply match_nodes_iff.
  exists (mkNode (n_label n) (set_props sets (n_props n))). split.
  - unfold stmt_merge, set_nodes. cbn [nodes].
    rewrite nth_error_map, Ha. cbn [option_map]. now rewrite Hm.
  - now rewrite node_matches_set_props.
Qed.

(** A node statement on another label leaves the matches of a pattern
    where they are. *)
Lemma match_stmt_merge_other p L' k' v' sets g a :
  fst (fst p) <> L' ->
  In a (match_nodes p g) ->
  In a (match_nodes p (stmt_merge (L', k', v') sets g)).
Proof.
  intros HL Ha. apply match_nodes_iff in Ha as (n & Hn & Hp).
  apply match_nodes_iff. exists n. split; [|exact Hp].
  unfold stmt_merge, set_nodes. cbn [nodes].
  rewrite nth_error_map, (nth_error_merge_node _ _ _ Hn). cbn [option_map].
  rewrite node_matches_other_label; [reflexivity|].
  destruct p as [[L k] v]. apply node_matches_label in Hp.
  cbn [fst] in HL. congruence.
Qed.

Lemma match_stmt_link p T src dst sets g :
  match_nodes p (stmt_link T src dst sets g) = match_nodes p g.
Proof. unfold match_nodes. now rewrite stmt_link_nodes. Qed.

Lemma merge_rel_exists T sets g a b :
  rels_between T a b (merge_rel T sets g (a, b)) <> [].
Proof.
  unfold rels_between, merge_rel.
  destruct (existsb (rel_is T a b) (rels g)) eqn:E; cbn [rels].
  - apply existsb_exists in E as (r0 & Hr0 & Hr0'). intros Hnil.
    assert (Hin : In (mkRel T a b (set_props sets (r_props r0)))
                    (filter (rel_is T a b)
                       (List.map
                          (fun r => if rel_is T a b r
                                    then mkRel T a b
                                           (set_props sets (r_props r))
                                    else r) (rels g)))).
    { apply filter_In. split; [|apply rel_is_mk].
      apply in_map_iff. exists r0. now rewrite Hr0'. }
    rewrite Hnil in Hin. destruct Hin.
  - rewrite filter_app. cbn [filter]. rewrite rel_is_mk.
    intros H. apply app_eq_nil in H as [_ H]. discriminate H.
Qed.

(** A relationship that is there stays there, whatever statement runs. *)
Lemma merge_rel_keeps T' sets g ab T a b :
  rels_between T a b g <> [] ->
  rels_between T a b (merge_rel T' sets g ab) <> [].
Proof.
  destruct ab as [a' b']. intros H.
  destruct (rels_between T a b g) as [|r rs] eqn:E; [contradiction|].
  assert (Hr : In r (rels g) /\ rel_is T a b r = true).
  { apply filter_In. unfold rels_between in E. rewrite E. now left. }
  destruct Hr as [Hin Hr].
  assert (Hex : exists r', In r' (rels (merge_rel T' sets g (a', b')))
                           /\ rel_is T a b r' = true).
  { unfold merge_rel. destruct (existsb _ _); cbn [rels].
    - destruct (rel_is T' a' b' r) eqn:Er.
      + exists (mkRel T' a' b' (set_props sets (r_props r))). split.
        * apply in_map_iff. exists r. now rewrite Er.
        * apply rel_is_true in Er as (<- & <- & <-).
          apply rel_is_true in Hr as (<- & <- & <-). apply rel_is_mk.
      + exists r. split; [|exact Hr].
        apply in_map_iff. exists r. now rewrite Er.
    - exists r. split; [|exact Hr]. apply in_or_app. now left. }
  destruct Hex as (r' & Hin' & Hr'). intros Hnil.
  assert (Hf : In r' (rels_between T a b (merge_rel T' sets g (a', b'))))
    by now apply filter_In.
  rewrite Hnil in Hf. destruct Hf.
Qed.

Lemma stmt_link_keeps T' src dst sets g T a b :
  rels_between T a b g <> [] ->
  rels_between T a b (stmt_link T' src dst sets g) <> [].
Proof.
  unfold stmt_link.
  generalize (list_prod (match_nodes src g) (match_nodes dst g)) as pairs.
  intros pairs. revert g.
  induction pairs as [|ab pairs IH]; intros g H; cbn [fold_left];
    [exact H|].
  apply IH. now apply merge_rel_keeps.
Qed.

Lemma stmt_merge_keeps p sets g T a b :
  rels_between T a b g <> [] ->
  rels_between T a b (stmt_merge p sets g) <> [].
Proof. unfold rels_between. now rewrite stmt_merge_rels. Qed.

(** The relationship statement leaves a relationship between every pair
    of matched endpoints. *)
Lemma stmt_link_exists T src dst sets g a b :
  In a (match_nodes src g) -> In b (match_nodes dst g) ->
  rels_between T a b (stmt_link T src dst sets g) <> [].
Proof.
  intros Ha Hb. unfold stmt_link.
  assert (Hin : In (a, b) (list_prod (match_nodes src g) (match_nodes dst g)))
    by now apply in_prod.
  revert Hin.
  generalize (list_prod (match_nodes src g) (match_nodes dst g)) as pairs.
  clear Ha Hb. intros pairs. revert g.
  induction pairs as [|ab pairs IH]; intros g Hin; [destruct Hin|].
  cbn [fold_left]. destruct Hin as [->|Hin]; [|now apply IH].
  pose proof (merge_rel_exists T sets g a b) as H0.
  revert H0. generalize (merge_rel T sets g (a, b)) as g1.
  clear. induction pairs as [|ab pairs IH]; intros g1 H0; cbn [fold_left];
    [exact H0|].
  apply IH. now apply merge_rel_keeps.
Qed.

(** ** Product records *)

Lemma product_stmts_eq product g :
  product_stmts product g =
  match product_params product with
  | Ok params => (product_graph params g, Ok tt)
  | Raise e => (g, Raise e)
  end.
Proof.
  unfold product_stmts, product_params, bind, lift, rbind, run.
  destruct (getitem product (key "product_id")); [|reflexivity].
  destruct (getitem product (key "name")); [|reflexivity].
  destruct (getitem product (key "category")); [|reflexivity].
  destruct (getitem2 product (key "power_output") (key "continuous"));
    [|reflexivity].
  destruct (getitem2 product (key "power_output") (key "peak"));
    [|reflexivity].
  destruct (getitem2 product (key "specifications") (key "battery_capacity"));
    [|reflexivity].
  destruct (getitem2 product (key "specifications") (key "battery_type"));
    [|reflexivity].
  destruct (getitem2 product (key "specifications")
              (key "solar_panel_capacity")); [|reflexivity].
  destruct (getitem2 product (key "private_cost_breakdown")
              (key "private_total_cost")); [|reflexivity].
  destruct (getitem2 product (key "pricing") (key "average_selling_price"));
    [|reflexivity].
  destruct (getitem2 product (key "pricing") (key "margin_percentage"));
    [|reflexivity].
  destruct (getitem product (key "co2_reduction")); [|reflexivity].
  destruct (getitem product (key "rental_available")); [|reflexivity].
  reflexivity.
Qed.

Lemma product_params_keys product product_id sets battery_type :
  product_params product = Ok (product_id, sets, battery_type) ->
  NoDup (List.map fst sets) /\
  ~ In (key "product_id") (List.map fst sets).
Proof.
  unfold product_params, rbind.
  repeat
    match goal with
    | |- match ?r with Ok _ => _ | Raise _ => _ end = _ -> _ =>
        destruct r; [|discriminate]
    end.
  intros H. injection H as <- <- <-. split; distinct_keys.
Qed.

Lemma graph_blind_product_stmts product : graph_blind (product_stmts product).
Proof.
  intros g g'. rewrite !product_stmts_eq.
  now destruct (product_params product).
Qed.

(** X4.  A product record is loaded as a whole or not at all: when its
    statements raise, which they do only while the parameters of the first
    statement are evaluated, the graph is as it was.  When the parameters
    evaluate, the graph has afterwards the Product node with its id and its
    twelve mapped properties, the BatteryType node of its battery type, and
    a USES_BATTERY relationship from the one to the other. *)
Theorem product_record_loaded product :
  (forall g g' e, product_stmts product g = (g', Raise e) -> g' = g) /\
  (forall product_id sets battery_type g,
     product_params product = Ok (product_id, sets, battery_type) ->
     let g' := fst (product_stmts product g) in
     snd (product_stmts product g) = Ok tt /\
     has_node Product ((key "product_id", PV product_id) :: sets) g' /\
     has_node BatteryType [(key "type", PV battery_type)] g' /\
     exists a b,
       In a (match_nodes (Product, key "product_id", product_id) g') /\
       In b (match_nodes (BatteryType, key "type", battery_type) g') /\
       rels_between USES_BATTERY a b g' <> []).
Proof.
  split.
  - intros g g' e. rewrite product_stmts_eq.
    destruct (product_params product); intros H; now injection H.
  - intros product_id sets battery_type g Hparams. cbv zeta.
    destruct (product_params_keys _ Hparams) as [Hnd Hk].
    rewrite product_stmts_eq, Hparams. cbn [fst snd product_graph].
    split; [reflexivity|split; [|split]].
    + apply has_node_stmt_link, has_node_stmt_merge; [reflexivity|].
      now apply stmt_merge_has_node.
    + apply has_node_stmt_link. apply stmt_merge_has_node.
      * constructor.
      * intros [].
    + destruct (@match_stmt_merge_self Product (key "product_id") product_id
                  sets g Hk) as (a & Ha).
      apply match_stmt_merge_other
        with (L' := BatteryType) (k' := key "type") (v' := battery_type)
             (sets := []) in Ha; [|discriminate].
      destruct (@match_stmt_merge_self BatteryType (key "type") battery_type
                  []
                  (stmt_merge (Product, key "product_id", product_id) sets g)
                  (fun H => H)) as (b & Hb).
      exists a, b. rewrite !match_stmt_link.
      split; [exact Ha|split; [exact Hb|]].
      now apply stmt_link_exists.
Qed.

(** The loop of a loader stops at the first record that raises. *)
Lemma for_each_raise_at A (body : A -> M unit) before x after g g1 g2 e :
  for_each before body g = (g1, Ok tt) ->
  body x g1 = (g2, Raise e) ->
  for_each (before ++ x :: after) body g = (g2, Raise e).
Proof.
  intros Hb Hx. rewrite for_each_app. unfold bind. rewrite Hb.
  cbn [for_each]. unfold bind. now rewrite Hx.
Qed.

Lemma for_each_products_ok records g :
  Forall (fun r => is_ok (product_params r) = true) records ->
  snd (for_each records product_stmts g) = Ok tt.
Proof.
  revert g. induction records as [|r records IH]; intros g H;
    [reflexivity|].
  inversion H as [|? ? Hr Hrs]; subst. cbn [for_each]. unfold bind.
  rewrite product_stmts_eq.
  destruct (product_params r); [|discriminate Hr]. now apply IH.
Qed.

Section ProductsFile.

Variable fs : fsys.

(** X5.  When a record of the products file cannot be mapped, for want of
    a required key or because it is no dict, [load_products] raises what
    the record raises; the records before it are loaded and stay in the
    graph, the record itself and the records after it leave no trace. *)
Theorem load_products_stops_at_bad_record
  file actual data products before bad after e g :
  found (_find_file fs file (lit "*product*.json")) = Some actual ->
  read_json fs actual = Some data ->
  get data (key "products") (PList []) = Ok products ->
  iter products = Ok (before ++ bad :: after) ->
  Forall (fun r => is_ok (product_params r) = true) before ->
  product_params bad = Raise e ->
  load_products fs file g
  = (fst (for_each before product_stmts g), Raise e).
Proof.
  intros Hfound Hread Hget Hiter Hbefore Hbad.
  unfold load_products. rewrite Hfound, Hread, Hget, bind_lift_ok, Hiter,
    bind_lift_ok.
  unfold bind at 1.
  pose proof (for_each_products_ok g Hbefore) as Hok.
  destruct (for_each before product_stmts g) as [g1 r1] eqn:E1.
  cbn [snd] in Hok. subst r1. cbn [fst].
  rewrite (@for_each_raise_at _ product_stmts before bad after g g1 g1 e E1);
    [reflexivity|].
  now rewrite product_stmts_eq, Hbad.
Qed.

End ProductsFile.

(** ** The image stage *)

Lemma merge_node_matched_same p g a :
  In a (match_nodes p g) -> merge_node p g = g.
Proof.
  unfold merge_node. destruct (match_nodes p g); [intros []|reflexivity].
Qed.

Lemma count_nodes_merge_node_other L L' k v g :
  L <> L' -> count_nodes L (merge_node (L', k, v) g) = count_nodes L g.
Proof.
  intros HL. unfold merge_node.
  destruct (match_nodes _ g); [|reflexivity].
  unfold count_nodes. cbn [nodes]. rewrite filter_app, length_app.
  cbn [filter n_label].
  replace (label_eqb L' L) with false; [cbn; lia|].
  symmetry. destruct (label_eqb L' L) eqn:E; [|reflexivity].
  apply label_eqb_eq in E. congruence.
Qed.

Section ImageStage.

Variable pixtral : str -> option (list str).
Variable fs : fsys.

(** X6.  [load_image] returns [True] exactly when the image file exists
    and the description service answers with at least one segment.  When
    it returns [False] the graph is as it was.  When it returns [True] the
    graph has the Image node whose filename is the base name of the path,
    with the segments joined by newlines as description, the path, and the
    time of the run; the relationships and the nodes of the other labels
    are left alone; and loading the same image again adds no node. *)
Theorem load_image_spec image_path now g :
  let r := load_image pixtral fs image_path now g in
  (snd r = Ok true <->
   path_exists fs image_path = true /\
   exists d ds, pixtral image_path = Some (d :: ds)) /\
  (snd r = Ok false -> fst r = g) /\
  (forall d ds,
     path_exists fs image_path = true ->
     pixtral image_path = Some (d :: ds) ->
     has_node Image
       [(key "filename", PV (PStr (basename image_path)));
        (key "description", PV (PStr (join [10%N] (d :: ds))));
        (key "path", PV (PStr image_path));
        (key "analyzed_at", PDateTime now)] (fst r) /\
     rels (fst r) = rels g /\
     (forall L, L <> Image -> count_nodes L (fst r) = count_nodes L g) /\
     (forall now' L,
        count_nodes L (fst (load_image pixtral fs image_path now' (fst r)))
        = count_nodes L (fst r))).
Proof.
  cbv zeta. unfold load_image.
  destruct (path_exists fs image_path) eqn:Hex; cbn [negb].
  2:{ split; [|split].
      - split; [discriminate|]. intros [H _]. discriminate H.
      - reflexivity.
      - discriminate. }
  destruct (pixtral image_path) as [[|d ds]|] eqn:Hpx.
  - split; [|split].
    + split; [discriminate|]. intros (_ & d & ds & H). discriminate H.
    + reflexivity.
    + discriminate.
  - unfold bind, run, ret. cbn [fst snd].
    split; [|split].
    + split; [|reflexivity]. intros _. split; [reflexivity|].
      now exists d, ds.
    + discriminate.
    + intros d0 ds0 _ H. injection H as <- <-.
      split; [|split; [|split]].
      * apply stmt_merge_has_node; distinct_keys.
      * apply stmt_merge_rels.
      * intros L HL. unfold stmt_merge.
        rewrite count_nodes_set_nodes.
        now apply count_nodes_merge_node_other.
      * intros now' L. unfold stmt_merge at 1.
        rewrite count_nodes_set_nodes.
        match goal with
        | |- context [merge_node ?p ?g1] =>
            assert (Hm : exists a, In a (match_nodes p g1))
        end.
        { apply match_stmt_merge_self. distinct_keys. }
        destruct Hm as (a & Ha).
        now rewrite (merge_node_matched_same _ _ _ Ha).
  - split; [|split].
    + split; [discriminate|]. intros (_ & d & ds & H). discriminate H.
    + reflexivity.
    + discriminate.
Qed.

End ImageStage.

(** ** Loops of relationship statements *)

(** A loop whose body runs one relationship statement per item: it changes
    no node, it returns, and it leaves the relationship of every item whose
    two endpoints are matched. *)
Lemma for_each_links A (body : A -> M unit) T
  (srcp dstp : A -> pattern) (setsp : A -> props) items :
  (forall x g, body x g = (stmt_link T (srcp x) (dstp x) (setsp x) g, Ok tt)) ->
  forall g,
    let g' := fst (for_each items body g) in
    snd (for_each items body g) = Ok tt /\
    nodes g' = nodes g /\
    forall t a b,
      In t items ->
      In a (match_nodes (srcp t) g) -> In b (match_nodes (dstp t) g) ->
      rels_between T a b g' <> [].
Proof.
  intros Hbody. cbv zeta.
  assert (Hkeep : forall items g a b,
             rels_between T a b g <> [] ->
             rels_between T a b (fst (for_each items body g)) <> []).
  { intros items0. induction items0 as [|x items0 IH]; intros g a b H;
      [exact H|].
    cbn [for_each]. unfold bind. rewrite Hbody.
    apply IH. now apply stmt_link_keeps. }
  induction items as [|x items IH]; intros g.
  - split; [reflexivity|split; [reflexivity|]]. intros t a b [].
  - cbn [for_each]. unfold bind. rewrite Hbody.
    destruct (IH (stmt_link T (srcp x) (dstp x) (setsp x) g))
      as (Hret & Hnodes & Hrels).
    split; [exact Hret|split].
    + now rewrite Hnodes, stmt_link_nodes.
    + intros t a b [<-|Hin] Ha Hb.
      * apply Hkeep. now apply stmt_link_exists.
      * apply (Hrels t); [exact Hin| |]; now rewrite match_stmt_link.
Qed.

(** ** Powered events *)

Section PoweredEvents.

Variable unicode_decimal : char -> option N.

Lemma powered_event_stmts_eq event g :
  powered_event_stmts unicode_decimal event g =
  match powered_event_params event with
  | Ok params =>
      bind
        (lift (getitem2 event (key "power_deployment") (key "models_used")))
        (fun models =>
           bind (lift (iter models))
             (fun items =>
                for_each items (model_used_stmt unicode_decimal event)))
        (stmt_merge (Event, key "event_id", fst params) (snd params) g)
  | Raise e => (g, Raise e)
  end.
Proof.
  unfold powered_event_stmts, powered_event_params.
  unfold bind at 1 2 3 4 5 6 7 8 9 10 11. unfold lift at 1 2 3 4 5 6 7 8 9 10.
  unfold rbind, run.
  destruct (getitem event (key "event_id")); [|reflexivity].
  destruct (getitem event (key "event_name")); [|reflexivity].
  destruct (getitem event (key "type")); [|reflexivity].
  destruct (getitem event (key "location")); [|reflexivity].
  destruct (getitem event (key "date")); [|reflexivity].
  destruct (getitem event (key "power_deployment")) as [deployment|];
    [|reflexivity].
  destruct (get deployment (key "attendees") (PStr (lit "N/A")));
    [|reflexivity].
  destruct (getitem2 event (key "power_deployment") (key "runtime"));
    [|reflexivity].
  destruct (getitem2 event (key "power_deployment") (key "fuel_saved"));
    [|reflexivity].
  destruct (getitem2 event (key "power_deployment") (key "co2_reduction"));
    [|reflexivity].
  reflexivity.
Qed.

Lemma powered_event_params_keys event event_id sets :
  powered_event_params event = Ok (event_id, sets) ->
  getitem event (key "event_id") = Ok event_id /\
  NoDup (List.map fst sets) /\
  ~ In (key "event_id") (List.map fst sets).
Proof.
  unfold powered_event_params, rbind.
  destruct (getitem event (key "event_id")) as [eid|]; [|discriminate].
  repeat
    match goal with
    | |- match ?r with Ok _ => _ | Raise _ => _ end = _ -> _ =>
        destruct r; [|discriminate]
    end.
  intros H. injection H as <- <-.
  split; [reflexivity|split; distinct_keys].
Qed.

(** X7.  For a powered event whose node parameters evaluate: the graph
    that the record leaves has the Event node with its id and its eight
    mapped properties, also when a later entry raises; a deployment without
    ["attendees"] gives the node the attendees ["N/A"]; and a deployment
    without ["models_used"] raises [KeyError] once the node is written, so
    that the node stays in the graph. *)
Theorem powered_event_spec event event_id sets :
  powered_event_params event = Ok (event_id, sets) ->
  (forall g,
     has_node Event ((key "event_id", PV event_id) :: sets)
       (fst (powered_event_stmts unicode_decimal event g))) /\
  (forall d,
     getitem event (key "power_deployment") = Ok (PDict d) ->
     lookup (key "attendees") d = None ->
     In (key "attendees", PV (PStr (lit "N/A"))) sets) /\
  (forall d g,
     getitem event (key "power_deployment") = Ok (PDict d) ->
     lookup (key "models_used") d = None ->
     powered_event_stmts unicode_decimal event g
     = (stmt_merge (Event, key "event_id", event_id) sets g,
        Raise (KeyError (key "models_used")))).
Proof.
  intros Hparams.
  destruct (powered_event_params_keys _ Hparams) as (Hid & Hnd & Hk).
  split; [|split].
  - intros g. rewrite powered_event_stmts_eq, Hparams. cbn [fst snd].
    match goal with
    | |- has_node ?L ?ps (fst (?rest ?g1)) =>
        assert (H1 : has_node L ps g1);
        [|revert H1; generalize g1; change (preserves (has_node L ps) rest)]
    end.
    + now apply stmt_merge_has_node.
    + step_preserves. apply preserves_model_used_stmt.
      intros. now apply has_node_stmt_link.
  - intros d Hdep Hatt. revert Hparams.
    unfold powered_event_params, rbind.
    repeat
      match goal with
      | |- match getitem event ?k with Ok _ => _ | Raise _ => _ end = _ -> _ =>
          first [rewrite Hdep | destruct (getitem event k); [|discriminate]]
      end.
    cbn [get]. rewrite Hatt.
    repeat
      match goal with
      | |- match ?r with Ok _ => _ | Raise _ => _ end = _ -> _ =>
          destruct r; [|discriminate]
      end.
    intros H. injection H as <- <-. cbn [In]. auto 10.
  - intros d g Hdep Hmodels.
    rewrite powered_event_stmts_eq, Hparams. cbn [fst snd].
    unfold getitem2, rbind. rewrite Hdep. cbn [getitem]. now rewrite Hmodels.
Qed.

End PoweredEvents.

(** ** R&D projects *)

Lemma match_nodes_same_nodes p g g' :
  nodes g' = nodes g -> match_nodes p g' = match_nodes p g.
Proof. unfold match_nodes. now intros ->. Qed.

Lemma target_stmt_eq project project_id t g :
  getitem project (key "project_id") = Ok project_id ->
  target_stmt project t g
  = (stmt_link TARGETS_PRODUCT
       (RDProject, key "project_id", project_id)
       (Product, key "product_id", t) [] g, Ok tt).
Proof. intros H. unfold target_stmt. now rewrite H. Qed.

Lemma rd_project_stmts_eq project g :
  rd_project_stmts project g =
  match rd_project_params project with
  | Ok params =>
      bind (lift (get project (key "target_products") (PList [])))
        (fun targets =>
           bind (lift (iter targets))
             (fun items => for_each items (target_stmt project)))
        (stmt_merge (RDProject, key "project_id", fst params) (snd params) g)
  | Raise e => (g, Raise e)
  end.
Proof.
  unfold rd_project_stmts, rd_project_params.
  unfold bind at 1 2 3 4 5 6. unfold lift at 1 2 3 4 5.
  unfold rbind, run.
  destruct (getitem project (key "project_id")); [|reflexivity].
  destruct (getitem project (key "project_name")); [|reflexivity].
  destruct (getitem project (key "status")); [|reflexivity].
  destruct (getitem project (key "objective")); [|reflexivity].
  destruct (get project (key "projected_annual_savings") (PStr (lit "N/A")));
    [|reflexivity].
  reflexivity.
Qed.

Lemma rd_project_params_keys project project_id sets :
  rd_project_params project = Ok (project_id, sets) ->
  getitem project (key "project_id") = Ok project_id /\
  NoDup (List.map fst sets) /\
  ~ In (key "project_id") (List.map fst sets).
Proof.
  unfold rd_project_params, rbind.
  destruct (getitem project (key "project_id")) as [pid|]; [|discriminate].
  repeat
    match goal with
    | |- match ?r with Ok _ => _ | Raise _ => _ end = _ -> _ =>
        destruct r; [|discriminate]
    end.
  intros H. injection H as <- <-.
  split; [reflexivity|split; distinct_keys].
Qed.

(** X8.  For an R&D project whose node parameters evaluate: the graph that
    the record leaves has the RDProject node with its id and its four
    mapped properties; a project without ["projected_annual_savings"] gets
    the savings ["N/A"]; a project without ["target_products"] is loaded
    with no relationship and without an exception; and when the targets are
    a list, the record returns and every listed product that has a Product
    node is the destination of a TARGETS_PRODUCT relationship from the
    project. *)
Theorem rd_project_spec project project_id sets :
  rd_project_params project = Ok (project_id, sets) ->
  (forall g,
     has_node RDProject ((key "project_id", PV project_id) :: sets)
       (fst (rd_project_stmts project g))) /\
  (forall d,
     project = PDict d ->
     lookup (key "projected_annual_savings") d = None ->
     In (key "projected_savings", PV (PStr (lit "N/A"))) sets) /\
  (forall d g,
     project = PDict d ->
     lookup (key "target_products") d = None ->
     rd_project_stmts project g
     = (stmt_merge (RDProject, key "project_id", project_id) sets g, Ok tt)) /\
  (forall targets g,
     get project (key "target_products") (PList []) = Ok (PList targets) ->
     let g' := fst (rd_project_stmts project g) in
     snd (rd_project_stmts project g) = Ok tt /\
     forall t b,
       In t targets ->
       In b (match_nodes (Product, key "product_id", t) g) ->
       exists a,
         In a (match_nodes (RDProject, key "project_id", project_id) g') /\
         In b (match_nodes (Product, key "product_id", t) g') /\
         rels_between TARGETS_PRODUCT a b g' <> []).
Proof.
  intros Hparams.
  destruct (rd_project_params_keys _ Hparams) as (Hid & Hnd & Hk).
  split; [|split; [|split]].
  - intros g. rewrite rd_project_stmts_eq, Hparams. cbn [fst snd].
    match goal with
    | |- has_node ?L ?ps (fst (?rest ?g1)) =>
        assert (H1 : has_node L ps g1);
        [|revert H1; generalize g1; change (preserves (has_node L ps) rest)]
    end.
    + now apply stmt_merge_has_node.
    + unfold target_stmt. step_preserves.
      apply preserves_run. intros. now apply has_node_stmt_link.
  - intros d -> Hmissing. revert Hparams.
    unfold rd_project_params, rbind. cbn [get]. rewrite Hmissing.
    repeat
      match goal with
      | |- match ?r with Ok _ => _ | Raise _ => _ end = _ -> _ =>
          destruct r; [|discriminate]
      end.
    intros H. injection H as <- <-. cbn [In]. auto 10.
  - intros d g -> Hmissing.
    rewrite rd_project_stmts_eq, Hparams. cbn [fst snd get].
    now rewrite Hmissing.
  - intros targets g Htargets. cbv zeta.
    rewrite rd_project_stmts_eq, Hparams. cbn [fst snd].
    rewrite Htargets, bind_lift_ok. cbn [iter]. rewrite bind_lift_ok.
    set (g1 := stmt_merge (RDProject, key "project_id", project_id) sets g).
    destruct (for_each_links (target_stmt project) TARGETS_PRODUCT
                (fun _ => (RDProject, key "project_id", project_id))
                (fun t => (Product, key "product_id", t))
                (fun _ => []) targets
                (fun x g0 => @target_stmt_eq project project_id x g0 Hid)
                g1)
      as (Hret & Hnodes & Hrels).
    split; [exact Hret|].
    intros t b Ht Hb.
    destruct (@match_stmt_merge_self RDProject (key "project_id") project_id
                sets g Hk) as (a & Ha).
    fold g1 in Ha.
    apply match_stmt_merge_other
      with (L' := RDProject) (k' := key "project_id") (v' := project_id)
           (sets := sets) in Hb; [|discriminate].
    fold g1 in Hb.
    exists a. rewrite !(@match_nodes_same_nodes _ _ _ Hnodes).
    split; [exact Ha|split; [exact Hb|]].
    now apply (Hrels t).
Qed.

(** ** Displayed products *)

Section DisplayedProducts.

Variable unicode_decimal : char -> option N.
Variable py_str : pyval -> str.

Lemma trade_show_params_id event params :
  trade_show_params unicode_decimal event = Ok params ->
  getitem event (key "event_id") = Ok (fst params).
Proof.
  unfold trade_show_params, rbind.
  destruct (getitem event (key "event_id")) as [eid|]; [|discriminate].
  repeat
    match goal with
    | |- match ?r with Ok _ => _ | Raise _ => _ end = _ -> _ =>
        destruct r; [|discriminate]
    end.
  intros H. now injection H as <-.
Qed.

Lemma displayed_stmt_eq event event_id t g :
  getitem event (key "event_id") = Ok event_id ->
  displayed_stmt event t g
  = (stmt_link DISPLAYED_AT
       (Product, key "product_id", t)
       (TradeShow, key "event_id", event_id) [] g, Ok tt).
Proof. intros H. unfold displayed_stmt. now rewrite H. Qed.

(** X9.  For a trade show whose node parameters evaluate and whose
    displayed models are read: every displayed product that has a Product
    node is, in the graph that the record leaves, the source of a
    DISPLAYED_AT relationship to the node of the trade show, whatever the
    sales of the record do afterwards. *)
Theorem displayed_products_linked event params participation displayed items :
  trade_show_params unicode_decimal event = Ok params ->
  getitem event (key "greenpower_participation") = Ok participation ->
  get participation (key "models_displayed") (PList []) = Ok displayed ->
  iter displayed = Ok items ->
  forall g t a,
    In t items ->
    In a (match_nodes (Product, key "product_id", t) g) ->
    let g' := fst (trade_show_stmts unicode_decimal py_str event g) in
    exists b,
      In a (match_nodes (Product, key "product_id", t) g') /\
      In b (match_nodes (TradeShow, key "event_id", fst params) g') /\
      rels_between DISPLAYED_AT a b g' <> [].
Proof.
  intros Hparams Hgp Hget Hiter g t a Ht Ha. cbv zeta.
  pose proof (trade_show_params_id _ Hparams) as Hid.
  destruct (@trade_show_params_keys _ _ _ Hparams) as [_ Hk].
  set (g1 := stmt_merge (TradeShow, key "event_id", fst params)
               (snd params) g).
  assert (Hrun :
    trade_show_stmts unicode_decimal py_str event g
    = bind (for_each items (displayed_stmt event))
        (fun _ =>
           for_each customer_types
             (sale_stmts unicode_decimal py_str event)) g1).
  { unfold trade_show_stmts. rewrite Hparams, bind_lift_ok.
    unfold bind at 1. cbn [run]. fold g1.
    now rewrite Hgp, bind_lift_ok, Hget, bind_lift_ok, Hiter, bind_lift_ok. }
  rewrite Hrun. clear Hrun.
  destruct (@match_stmt_merge_self TradeShow (key "event_id") (fst params)
              (snd params) g Hk) as (b & Hb).
  fold g1 in Hb.
  apply match_stmt_merge_other
    with (L' := TradeShow) (k' := key "event_id") (v' := fst params)
         (sets := snd params) in Ha; [|discriminate].
  fold g1 in Ha.
  destruct (for_each_links (displayed_stmt event) DISPLAYED_AT
              (fun t => (Product, key "product_id", t))
              (fun _ => (TradeShow, key "event_id", fst params))
              (fun _ => []) items
              (fun x g0 => @displayed_stmt_eq event (fst params) x g0 Hid)
              g1)
    as (Hret & Hnodes & Hrels).
  specialize (Hrels t a b Ht Ha Hb).
  rewrite <- (@match_nodes_same_nodes (Product, key "product_id", t)
                _ _ Hnodes) in Ha.
  rewrite <- (@match_nodes_same_nodes
                (TradeShow, key "event_id", fst params) _ _ Hnodes) in Hb.
  unfold bind.
  destruct (for_each items (displayed_stmt event) g1) as [g2 r2].
  cbn [fst snd] in *. subst r2. exists b.
  pose (P := fun g0 : db =>
               In a (match_nodes (Product, key "product_id", t) g0) /\
               In b (match_nodes (TradeShow, key "event_id", fst params) g0)
               /\ rels_between DISPLAYED_AT a b g0 <> []).
  change (P (fst (for_each customer_types
                    (sale_stmts unicode_decimal py_str event) g2))).
  assert (Hp : preserves P
                 (for_each customer_types
                    (sale_stmts unicode_decimal py_str event))).
  { apply preserves_for_each. intros c.
    apply preserves_sale_stmts
      with (ok := fun L => negb (label_eqb L Product)
                           && negb (label_eqb L TradeShow));
      [| |reflexivity].
    - intros T src dst sets g0 (H1 & H2 & H3).
      unfold P. rewrite !match_stmt_link.
      split; [exact H1|split; [exact H2|]]. now apply stmt_link_keeps.
    - intros L k v sets g0 HL (H1 & H2 & H3).
      apply andb_prop in HL as [HL1 HL2].
      split; [|split].
      + apply match_stmt_merge_other; [|exact H1].
        cbn [fst]. intros <-. now rewrite label_eqb_refl in HL1.
      + apply match_stmt_merge_other; [|exact H2].
        cbn [fst]. intros <-. now rewrite label_eqb_refl in HL2.
      + now apply stmt_merge_keeps. }
  apply Hp. unfold P. auto.
Qed.

End DisplayedProducts.

(** ** The quantity shorthand, read back *)

Section ShorthandReadBack.

Variable unicode_decimal : char -> option N.

(** X10.  An entry written as an identifier, the separator [" x"] and a
    number in decimal digits is split in that identifier and those digits,
    provided that the identifier itself does not contain [" x"].  When the
    digits are within the limit of [int()], 4300 of them by default,
    [int()] gives the number that they write, and the statement run for the
    entry, under a sale as under a powered event, is the upsert of the
    relationship to the product of that identifier with that number as
    quantity.  When there are more digits, [int()] raises [ValueError]:
    the entry raises it, under a sale as under a powered event, and the
    graph is as it was. *)
Theorem shorthand_read_back ident q :
  no_occurrence (lit " x") ident = true ->
  q <> [] -> forallb is_digit q = true ->
  split (lit " x") (ident ++ lit " x" ++ q) = [ident; q] /\
  ((N.of_nat (List.length q) <= int_max_str_digits)%N ->
   py_int unicode_decimal q = Ok (digits_value q) /\
   (forall sid g,
      sale_product_stmt unicode_decimal sid (PStr (ident ++ lit " x" ++ q)) g
      = (stmt_link INCLUDES_PRODUCT
           (Sale, key "sale_id", PStr sid)
           (Product, key "product_id", PStr ident)
           [(key "quantity", PV (PInt (digits_value q)))] g, Ok tt)) /\
   (forall event event_id g,
      getitem event (key "event_id") = Ok event_id ->
      model_used_stmt unicode_decimal event (PStr (ident ++ lit " x" ++ q)) g
      = (stmt_link DEPLOYED_AT
           (Product, key "product_id", PStr ident)
           (Event, key "event_id", event_id)
           [(key "quantity", PV (PInt (digits_value q)))] g, Ok tt))) /\
  ((int_max_str_digits < N.of_nat (List.length q))%N ->
   py_int unicode_decimal q = Raise ValueError /\
   (forall sid g,
      sale_product_stmt unicode_decimal sid (PStr (ident ++ lit " x" ++ q)) g
      = (g, Raise ValueError)) /\
   (forall event g,
      model_used_stmt unicode_decimal event (PStr (ident ++ lit " x" ++ q)) g
      = (g, Raise ValueError))).
Proof.
  intros Hno Hne Hq.
  pose proof (split_shorthand ident q Hno Hq) as Hsplit.
  split; [exact Hsplit|split].
  - intros Hlen.
    pose proof (py_int_digits unicode_decimal Hne Hq Hlen) as Hint.
    split; [exact Hint|split].
    + intros sid g. unfold sale_product_stmt. cbn [py_split].
      now rewrite bind_lift_ok, Hsplit, Hint, bind_lift_ok.
    + intros event event_id g Hid. unfold model_used_stmt. cbn [py_split].
      now rewrite bind_lift_ok, Hsplit, Hint, bind_lift_ok, Hid, bind_lift_ok.
  - intros Hlen.
    pose proof (py_int_too_long unicode_decimal q Hq Hlen) as Hint.
    split; [exact Hint|split].
    + intros sid g. unfold sale_product_stmt. cbn [py_split].
      now rewrite bind_lift_ok, Hsplit, Hint.
    + intros event g. unfold model_used_stmt. cbn [py_split].
      now rewrite bind_lift_ok, Hsplit, Hint.
Qed.

End ShorthandReadBack.

(** ** Indexes *)

Lemma in_add_index_iff name m l :
  In m (add_index name l) <-> In m l \/ m = name.
Proof.
  unfold add_index. destruct (existsb (str_eqb name) l) eqn:E.
  - split; [auto|]. intros [H|Hm]; [exact H|]. subst m.
    apply existsb_exists in E. destruct E as (x & Hx & Hx').
    apply str_eqb_eq in Hx'. now subst.
  - rewrite in_app_iff. cbn [In]. intuition congruence.
Qed.

(** ** What the previous graph leaves behind *)

Lemma merge_rel_with_indexes T sets names g ab :
  merge_rel T sets (with_indexes names g) ab
  = with_indexes names (merge_rel T sets g ab).
Proof.
  unfold merge_rel, with_indexes. destruct ab as [a b]. cbn [rels nodes].
  now destruct (existsb _ _).
Qed.

Lemma stmt_link_with_indexes T src dst sets names g :
  stmt_link T src dst sets (with_indexes names g)
  = with_indexes names (stmt_link T src dst sets g).
Proof.
  unfold stmt_link.
  change (match_nodes src (with_indexes names g)) with (match_nodes src g).
  change (match_nodes dst (with_indexes names g)) with (match_nodes dst g).
  generalize (list_prod (match_nodes src g) (match_nodes dst g)) as pairs.
  intros pairs. revert g.
  induction pairs as [|ab pairs IH]; intros g; cbn [fold_left];
    [reflexivity|].
  now rewrite merge_rel_with_indexes, IH.
Qed.

Lemma stmt_merge_with_indexes p sets names g :
  stmt_merge p sets (with_indexes names g)
  = with_indexes names (stmt_merge p sets g).
Proof.
  unfold stmt_merge, merge_node.
  change (match_nodes p (with_indexes names g)) with (match_nodes p g).
  destruct (match_nodes p g); [|reflexivity].
  now destruct p as [[L k] v].
Qed.

Lemma index_blind_ret A (a : A) : index_blind (ret a).
Proof. intros names g. reflexivity. Qed.

Lemma index_blind_lift A (r : result A) : index_blind (lift r).
Proof. intros names g. reflexivity. Qed.

Lemma index_blind_run f :
  (forall names g, f (with_indexes names g) = with_indexes names (f g)) ->
  index_blind (run f).
Proof. intros Hf names g. unfold run. now rewrite Hf. Qed.

Lemma index_blind_bind A B (m : M A) (k : A -> M B) :
  index_blind m -> (forall a, index_blind (k a)) -> index_blind (bind m k).
Proof.
  intros Hm Hk names g. unfold bind. rewrite Hm.
  destruct (m g) as [g1 [a|e]]; cbn [fst snd]; [apply Hk|reflexivity].
Qed.

Lemma index_blind_for_each A (items : list A) (body : A -> M unit) :
  (forall x, index_blind (body x)) -> index_blind (for_each items body).
Proof.
  intros Hb. induction items as [|x items IH]; cbn [for_each].
  - apply index_blind_ret.
  - apply index_blind_bind; auto.
Qed.

Ltac step_index_blind :=
  repeat
    match goal with
    | |- index_blind (ret _) => apply index_blind_ret
    | |- index_blind (lift _) => apply index_blind_lift
    | |- index_blind (run _) =>
        apply index_blind_run; intros;
        now rewrite ?stmt_merge_with_indexes, ?stmt_link_with_indexes
    | |- index_blind (bind _ _) => apply index_blind_bind; [|intro]
    | |- index_blind (for_each _ _) => apply index_blind_for_each; intro
    | |- index_blind (match ?x with _ => _ end) => destruct x
    | |- index_blind (if ?x then _ else _) => destruct x
    end.

Section PreviousGraph.

Variable unicode_decimal : char -> option N.
Variable py_str : pyval -> str.
Variable pixtral : str -> option (list str).
Variable fs : fsys.

Lemma index_blind_load_stages now :
  index_blind (load_stages unicode_decimal py_str pixtral fs now).
Proof.
  unfold load_stages, load_products, load_events, load_rd_projects,
    load_image.
  step_index_blind.
  - unfold product_stmts. step_index_blind.
  - unfold trade_show_stmts. step_index_blind.
    + unfold displayed_stmt. step_index_blind.
    + unfold sale_stmts. step_index_blind.
      unfold sale_product_stmt. step_index_blind.
  - unfold powered_event_stmts. step_index_blind.
    unfold model_used_stmt. step_index_blind.
  - unfold rd_project_stmts. step_index_blind.
    unfold target_stmt. step_index_blind.
Qed.

(** X12.  [load_all] starts from nothing: the nodes and the relationships
    of the graph that it leaves, and what it returns or raises, are those
    of a load into the empty graph, whatever graph was there before; of
    that graph only the index names remain, next to the five of the
    loader. *)
Theorem load_all_forgets_previous_graph now g :
  let fresh := load_all unicode_decimal py_str pixtral fs now empty_db in
  let r := load_all unicode_decimal py_str pixtral fs now g in
  nodes (fst r) = nodes (fst fresh) /\
  rels (fst r) = rels (fst fresh) /\
  snd r = snd fresh /\
  (forall name,
     In name (indexes (fst r)) <->
     In name (indexes g) \/ In name index_names).
Proof.
  cbv zeta. rewrite !load_all_eq, !after_reset_eq.
  pose proof (index_blind_load_stages now) as Hb.
  assert (H0 : forall names, mkDb [] [] names = with_indexes names empty_db)
    by reflexivity.
  rewrite !H0, !Hb. cbn [fst snd nodes rels indexes with_indexes].
  split; [reflexivity|split; [reflexivity|split; [reflexivity|]]].
  intros name. rewrite !in_add_index_iff.
  unfold index_names. cbn [In]. intuition congruence.
Qed.

End PreviousGraph.

(** ** Sales and their trade show *)

Section SalesLinked.

Variable unicode_decimal : char -> option N.
Variable py_str : pyval -> str.

(** X13.  When the units of a customer type are greater than zero and the
    parameters of the Sale statement evaluate, the graph that the
    statements of that customer type leave has a SOLD_AT relationship from
    the Sale node to the node of the trade show, provided that the trade
    show has a node; the entries of the products of the sale, the failing
    ones included, leave it there. *)
Theorem sale_linked_to_trade_show
  event c closed sales units event_id revenue total g b :
  getitem2 event (key "sales_data") (key "sales_closed") = Ok closed ->
  get closed c (PDict []) = Ok sales ->
  get sales (key "units") (PInt 0) = Ok units ->
  gt_zero units = Ok true ->
  getitem event (key "event_id") = Ok event_id ->
  getitem sales (key "total_revenue") = Ok revenue ->
  parse_revenue unicode_decimal revenue = Ok total ->
  In b (match_nodes (TradeShow, key "event_id", event_id) g) ->
  let g' := fst (sale_stmts unicode_decimal py_str event c g) in
  exists a,
    In a (match_nodes
            (Sale, key "sale_id", PStr (sale_id py_str event_id c)) g') /\
    In b (match_nodes (TradeShow, key "event_id", event_id) g') /\
    rels_between SOLD_AT a b g' <> [].
Proof.
  intros Hclosed Hsales Hunits Hpos Hid Hrev Htotal Hb. cbv zeta.
  pose proof (units_present _ Hunits Hpos) as Hunits'.
  set (sets := [(key "customer_type", PV (PStr c));
                (key "units", PV units);
                (key "total_revenue", PV (PFloat total))]).
  set (sale := (Sale, key "sale_id", PStr (sale_id py_str event_id c))).
  set (show := (TradeShow, key "event_id", event_id)).
  set (g2 := stmt_link SOLD_AT sale show [] (stmt_merge sale sets g)).
  assert (Hrun :
    sale_stmts unicode_decimal py_str event c g
    = bind (lift (get sales (key "products") (PList [])))
        (fun products =>
           bind (lift (iter products))
             (fun items =>
                for_each items
                  (sale_product_stmt unicode_decimal
                     (sale_id py_str event_id c)))) g2).
  { unfold sale_stmts.
    now rewrite Hclosed, bind_lift_ok, Hsales, bind_lift_ok, Hunits,
      bind_lift_ok, Hpos, bind_lift_ok, Hid, bind_lift_ok, Hunits',
      bind_lift_ok, Hrev, bind_lift_ok, Htotal, bind_lift_ok, bind_lift_ok. }
  rewrite Hrun. clear Hrun.
  assert (Hk : ~ In (key "sale_id") (List.map fst sets))
    by (unfold sets; distinct_keys).
  destruct (@match_stmt_merge_self Sale (key "sale_id")
              (PStr (sale_id py_str event_id c)) sets g Hk) as (a & Ha).
  apply match_stmt_merge_other
    with (L' := Sale) (k' := key "sale_id")
         (v' := PStr (sale_id py_str event_id c)) (sets := sets) in Hb;
    [|discriminate].
  fold sale in Ha, Hb. fold show in Hb.
  exists a.
  pose (P := fun g0 : db =>
               In a (match_nodes sale g0) /\ In b (match_nodes show g0)
               /\ rels_between SOLD_AT a b g0 <> []).
  match goal with
  | |- context [fst (?rest g2)] =>
      change (P (fst (rest g2)));
      assert (Hp : preserves P rest); [|apply Hp]
  end.
  - step_preserves. apply preserves_sale_product_stmt.
    intros T src dst sets0 g0 (H1 & H2 & H3).
    unfold P. rewrite !match_stmt_link.
    split; [exact H1|split; [exact H2|]]. now apply stmt_link_keeps.
  - unfold P, g2. rewrite !match_stmt_link.
    split; [exact Ha|split; [exact Hb|]]. now apply stmt_link_exists.
Qed.

End SalesLinked.

(** ** Loading a record again *)

Lemma set_prop_same_value k v ps :
  lookup k ps = Some v -> set_prop k v ps = ps.
Proof.
  induction ps as [|[k' v'] ps IH]; cbn [lookup set_prop]; [discriminate|].
  destruct (str_eqb k k') eqn:E.
  - intros H. injection H as ->. apply str_eqb_eq in E. now subst.
  - intros H. now rewrite IH.
Qed.

Lemma set_props_fixed sets ps :
  (forall k v, In (k, v) sets -> lookup k ps = Some v) ->
  set_props sets ps = ps.
Proof.
  unfold set_props. induction sets as [|[k v] sets IH]; intros H;
    cbn [fold_left fst snd]; [reflexivity|].
  rewrite set_prop_same_value by (apply H; now left).
  apply IH. intros k' v' Hin. apply H. now right.
Qed.

(** Setting the same properties a second time changes nothing. *)
Lemma set_props_again sets ps :
  NoDup (List.map fst sets) ->
  set_props sets (set_props sets ps) = set_props sets ps.
Proof.
  intros Hnd. apply set_props_fixed. intros k v Hin.
  now apply lookup_set_props_in.
Qed.

(** A node statement changes nothing when its pattern is matched and the
    matched nodes carry the properties that it sets. *)
Lemma stmt_merge_fixed p sets g a :
  In a (match_nodes p g) ->
  (forall n, In n (nodes g) -> node_matches p n = true ->
             set_props sets (n_props n) = n_props n) ->
  stmt_merge p sets g = g.
Proof.
  intros Ha Hsat. unfold stmt_merge.
  rewrite (merge_node_matched_same _ _ _ Ha).
  unfold set_nodes. destruct g as [ns rs ix]. cbn [nodes rels indexes] in *.
  f_equal. rewrite <- (map_id ns) at 2. apply map_ext_in. intros n Hn.
  destruct (node_matches p n) eqn:E; [|reflexivity].
  rewrite (Hsat n Hn E). now destruct n.
Qed.

Lemma merge_rel_fixed T sets g a b :
  rels_between T a b g <> [] ->
  (forall r, In r (rels_between T a b g) ->
             set_props sets (r_props r) = r_props r) ->
  merge_rel T sets g (a, b) = g.
Proof.
  intros Hex Hsat. unfold merge_rel.
  assert (E : existsb (rel_is T a b) (rels g) = true).
  { destruct (rels_between T a b g) as [|r rs] eqn:Er; [contradiction|].
    assert (Hr : In r (rels_between T a b g)) by (rewrite Er; now left).
    apply filter_In in Hr as [Hin Hr].
    apply existsb_exists. now exists r. }
  rewrite E. destruct g as [ns rs ix]. cbn [nodes rels indexes] in *.
  f_equal. rewrite <- (map_id rs) at 2. apply map_ext_in. intros r Hr.
  destruct (rel_is T a b r) eqn:Er; [|reflexivity].
  rewrite Hsat by now apply filter_In.
  apply rel_is_true in Er as (<- & <- & <-). now destruct r.
Qed.

(** A relationship statement changes nothing when every pair of matched
    endpoints is joined and the relationships carry the properties that it
    sets. *)
Lemma stmt_link_fixed T src dst sets g :
  (forall a b,
     In a (match_nodes src g) -> In b (match_nodes dst g) ->
     rels_between T a b g <> [] /\
     forall r, In r (rels_between T a b g) ->
               set_props sets (r_props r) = r_props r) ->
  stmt_link T src dst sets g = g.
Proof.
  intros H. unfold stmt_link.
  assert (Hpairs : forall a b,
             In (a, b) (list_prod (match_nodes src g) (match_nodes dst g)) ->
             merge_rel T sets g (a, b) = g).
  { intros a b Hin. apply in_prod_iff in Hin as [Ha Hb].
    destruct (H a b Ha Hb). now apply merge_rel_fixed. }
  revert Hpairs.
  generalize (list_prod (match_nodes src g) (match_nodes dst g)) as pairs.
  induction pairs as [|[a b] pairs IH]; intros Hpairs; cbn [fold_left];
    [reflexivity|].
  rewrite Hpairs by now left. apply IH. intros a' b' Hin.
  apply Hpairs. now right.
Qed.

Lemma nodes_stmt_merge_other p L' k' v' sets g n :
  In n (nodes (stmt_merge (L', k', v') sets g)) ->
  node_matches p n = true ->
  fst (fst p) <> L' ->
  In n (nodes g).
Proof.
  intros Hn Hp HL. unfold stmt_merge, set_nodes in Hn. cbn [nodes] in Hn.
  apply in_map_iff in Hn as (n0 & Hn0 & Hin).
  assert (Hl : n_label n0 = n_label n).
  { rewrite <- Hn0. now destruct (node_matches _ n0). }
  assert (Hnl : n_label n <> L').
  { destruct p as [[L k] v]. apply node_matches_label in Hp.
    cbn [fst] in HL. congruence. }
  rewrite node_matches_other_label in Hn0 by congruence. subst n0.
  unfold merge_node in Hin. destruct (match_nodes _ g); [|exact Hin].
  cbn [nodes] in Hin. apply in_app_or in Hin as [Hin|[<-|[]]]; [exact Hin|].
  now contradiction Hnl.
Qed.

(** X14.  Loading a product record a second time, right after the first,
    changes nothing: the second load returns and leaves the graph exactly
    as the first load left it. *)
Theorem product_record_reloaded product g :
  is_ok (product_params product) = true ->
  product_stmts product (fst (product_stmts product g))
  = (fst (product_stmts product g), Ok tt).
Proof.
  intros Hok. rewrite !product_stmts_eq.
  destruct (product_params product) as [[[product_id sets] battery_type]|]
    eqn:Hparams; [|discriminate Hok].
  destruct (product_params_keys _ Hparams) as [Hnd Hk].
  cbn [fst]. f_equal.
  set (pp := (Product, key "product_id", product_id)).
  set (bp := (BatteryType, key "type", battery_type)).
  unfold product_graph. fold pp bp.
  set (g1 := stmt_merge pp sets g).
  set (g2 := stmt_merge bp [] g1).
  set (g3 := stmt_link USES_BATTERY pp bp [] g2).
  destruct (@match_stmt_merge_self Product (key "product_id") product_id
              sets g Hk) as (a & Ha).
  fold pp g1 in Ha.
  apply match_stmt_merge_other
    with (L' := BatteryType) (k' := key "type") (v' := battery_type)
         (sets := []) in Ha; [|discriminate].
  fold bp g2 in Ha.
  destruct (@match_stmt_merge_self BatteryType (key "type") battery_type
              [] g1 (fun H => H)) as (b & Hb).
  fold bp g2 in Hb.
  assert (H1 : stmt_merge pp sets g3 = g3).
  { apply stmt_merge_fixed with (a := a).
    - unfold g3. now rewrite match_stmt_link.
    - intros n Hn Hp. unfold g3 in Hn. rewrite stmt_link_nodes in Hn.
      apply (nodes_stmt_merge_other pp) in Hn; [|exact Hp|discriminate].
      unfold g1, stmt_merge, set_nodes in Hn. cbn [nodes] in Hn.
      apply in_map_iff in Hn as (n0 & Hn0 & _).
      destruct (node_matches pp n0) eqn:E.
      + subst n. cbn [n_props]. now apply set_props_again.
      + subst n0. congruence. }
  rewrite H1.
  assert (H2 : stmt_merge bp [] g3 = g3).
  { apply stmt_merge_fixed with (a := b).
    - unfold g3. now rewrite match_stmt_link.
    - reflexivity. }
  rewrite H2.
  apply stmt_link_fixed. intros a' b' Ha' Hb'.
  unfold g3 in Ha', Hb'. rewrite match_stmt_link in Ha', Hb'.
  split; [|reflexivity].
  unfold g3. now apply stmt_link_exists.
Qed.

(** ** The further properties on the sample inputs *)

Lemma unique_keys_empty : unique_keys empty_db.
Proof. constructor. Qed.

Lemma well_typed_empty : well_typed empty_db.
Proof. constructor. Qed.

Lemma unique_rels_empty : unique_rels empty_db.
Proof. constructor. Qed.

(** [loaded_nodes_unique] on the sample events file, loaded into the empty
    graph. *)
Lemma loaded_nodes_unique_witness :
  unique_keys
    (fst (load_events ascii_digits_only no_rendering renamed_products
            (lit "data/greenpower_events.json") empty_db)).
Proof.
  apply (proj1 (proj2 (proj2
           (loaded_nodes_unique ascii_digits_only no_rendering two_segments
              renamed_products)))).
  apply unique_keys_empty.
Defined.

(** [loaded_rels_well_typed] on the sample products file. *)
Lemma loaded_rels_well_typed_witness :
  well_typed
    (fst (load_products renamed_products
            (lit "data/greenpower_products.json") empty_db)).
Proof.
  apply (proj1 (proj2
           (loaded_rels_well_typed ascii_digits_only no_rendering
              two_segments renamed_products))).
  apply well_typed_empty.
Defined.

(** [loaded_rels_unique] on the sample events file, whose powered event
    names PG-M01 twice. *)
Lemma loaded_rels_unique_witness :
  unique_rels
    (fst (load_events ascii_digits_only no_rendering renamed_products
            (lit "data/greenpower_events.json") graph_with_m01)).
Proof.
  apply (proj1 (proj2 (proj2
           (loaded_rels_unique ascii_digits_only no_rendering two_segments
              renamed_products)))).
  apply (proj1 (proj2
           (loaded_rels_unique ascii_digits_only no_rendering two_segments
              [(lit "data/p.json",
                FJson (pdict [("products", PList [product_m01])]%string))]))
           (lit "data/p.json") empty_db).
  apply unique_rels_empty.
Defined.

(** [product_record_loaded] on PG-M01 and on the record without pricing. *)
Lemma product_record_loaded_witness :
  fst (product_stmts product_without_pricing graph_with_m01)
  = graph_with_m01 /\
  has_node BatteryType [(key "type", PV (pstr "LiFePO4"))] graph_with_m01 /\
  exists a b,
    In a (match_nodes (Product, key "product_id", pstr "PG-M01")
            graph_with_m01) /\
    In b (match_nodes (BatteryType, key "type", pstr "LiFePO4")
            graph_with_m01) /\
    rels_between USES_BATTERY a b graph_with_m01 <> [].
Proof.
  split.
  - apply (proj1 (product_record_loaded product_without_pricing)
             graph_with_m01 _ (KeyError (key "pricing"))).
    reflexivity.
  - destruct (proj2 (product_record_loaded product_m01)
                (pstr "PG-M01") _ (pstr "LiFePO4") empty_db eq_refl)
      as (_ & _ & H3 & H4).
    split; [exact H3|exact H4].
Defined.

(** [load_products_stops_at_bad_record] on the file whose second record
    has no pricing: PG-M01 is loaded, PG-U01 is not. *)
Lemma load_products_stops_at_bad_record_witness :
  load_products second_record_bad (lit "data/greenpower_products.json")
    empty_db
  = (graph_with_m01, Raise (KeyError (key "pricing"))).
Proof.
  apply (@load_products_stops_at_bad_record second_record_bad
           (lit "data/greenpower_products.json")
           (lit "data/greenpower_products.json")
           (pdict [("products",
                    PList [product_m01; product_without_pricing; product_u01])
                  ]%string)
           (PList [product_m01; product_without_pricing; product_u01])
           [product_m01] product_without_pricing [product_u01]
           (KeyError (key "pricing")) empty_db);
    try reflexivity.
  constructor; [reflexivity|constructor].
Defined.

(** [load_image_spec] on the sample image. *)
Lemma load_image_spec_witness :
  let r :=
    load_image two_segments renamed_products (lit "data/exemple.jpg") 7
      empty_db in
  snd r = Ok true /\
  has_node Image
    [(key "filename", PV (pstr "exemple.jpg"));
     (key "description",
      PV (PStr (join [10%N] [lit "a generator"; lit "on a trailer"])));
     (key "path", PV (pstr "data/exemple.jpg"));
     (key "analyzed_at", PDateTime 7)] (fst r) /\
  count_nodes Image
    (fst (load_image two_segments renamed_products (lit "data/exemple.jpg")
            8 (fst r)))
  = count_nodes Image (fst r).
Proof.
  cbv zeta.
  destruct (load_image_spec two_segments renamed_products
              (lit "data/exemple.jpg") 7 empty_db) as (H1 & _ & H3).
  destruct (H3 (lit "a generator") [lit "on a trailer"] eq_refl eq_refl)
    as (Hnode & _ & _ & Hagain).
  split; [|split].
  - apply H1. split; [reflexivity|].
    now exists (lit "a generator"), [lit "on a trailer"].
  - exact Hnode.
  - apply Hagain.
Defined.

(** [powered_event_spec] on the sample event, which has no attendees, and
    on the event without models. *)
Lemma powered_event_spec_witness :
  has_node Event
    [(key "event_id", PV (pstr "EV-1")); (key "attendees", PV (pstr "N/A"))]
    (fst (powered_event_stmts ascii_digits_only powered_event_1 empty_db)) /\
  snd (powered_event_stmts ascii_digits_only powered_event_without_models
         empty_db)
  = Raise (KeyError (key "models_used")) /\
  count_nodes Event
    (fst (powered_event_stmts ascii_digits_only powered_event_without_models
            empty_db))
  = 1.
Proof.
  split; [|split].
  - destruct (@powered_event_spec ascii_digits_only powered_event_1
                (pstr "EV-1") _ eq_refl) as (H1 & _ & _).
    destruct (H1 empty_db) as (n & Hn & Hl & Hps).
    exists n. split; [exact Hn|split; [exact Hl|]].
    intros k v [E|[E|[]]]; injection E as <- <-; apply Hps; cbn; auto 10.
  - destruct (@powered_event_spec ascii_digits_only
                powered_event_without_models (pstr "EV-2") _ eq_refl)
      as (_ & _ & H3).
    erewrite H3; reflexivity.
  - destruct (@powered_event_spec ascii_digits_only
                powered_event_without_models (pstr "EV-2") _ eq_refl)
      as (_ & _ & H3).
    erewrite H3; reflexivity.
Defined.

(** [rd_project_spec] on the sample project, in the graph that has
    PG-M01, and on the project without targets. *)
Lemma rd_project_spec_witness :
  snd (rd_project_stmts rd_project_1 graph_with_m01) = Ok tt /\
  (exists a,
     In a (match_nodes (RDProject, key "project_id", pstr "RD-1")
             (fst (rd_project_stmts rd_project_1 graph_with_m01))) /\
     rels_between TARGETS_PRODUCT a 0
       (fst (rd_project_stmts rd_project_1 graph_with_m01)) <> []) /\
  count_rels TARGETS_PRODUCT
    (fst (rd_project_stmts rd_project_without_targets graph_with_m01))
  = 0.
Proof.
  destruct (@rd_project_spec rd_project_1 (pstr "RD-1") _ eq_refl)
    as (_ & _ & _ & H4).
  destruct (H4 [pstr "PG-M01"; pstr "PG-ZZ"] graph_with_m01 eq_refl)
    as (Hret & Hlinks).
  split; [exact Hret|split].
  - destruct (Hlinks (pstr "PG-M01") 0) as (a & Ha & _ & Hrel).
    + left. reflexivity.
    + left. reflexivity.
    + exists a. split; [exact Ha|exact Hrel].
  - destruct (@rd_project_spec rd_project_without_targets (pstr "RD-2") _
                eq_refl) as (_ & _ & H3 & _).
    erewrite H3; reflexivity.
Defined.

(** [displayed_products_linked] on the sample trade show, in the graph
    that has PG-M01. *)
Lemma displayed_products_linked_witness :
  let g' :=
    fst (trade_show_stmts ascii_digits_only no_rendering trade_show_1
           graph_with_m01) in
  exists b,
    In 0 (match_nodes (Product, key "product_id", pstr "PG-M01") g') /\
    In b (match_nodes (TradeShow, key "event_id", pstr "TS-1") g') /\
    rels_between DISPLAYED_AT 0 b g' <> [].
Proof.
  apply (@displayed_products_linked ascii_digits_only no_rendering
           trade_show_1 trade_show_1_params
           (pdict [("models_displayed", PList [pstr "PG-M01"; pstr "PG-ZZ"])
                  ]%string)
           (PList [pstr "PG-M01"; pstr "PG-ZZ"])
           [pstr "PG-M01"; pstr "PG-ZZ"]
           eq_refl eq_refl eq_refl eq_refl graph_with_m01 (pstr "PG-M01") 0).
  - left. reflexivity.
  - left. reflexivity.
Defined.

(** [shorthand_read_back] on ["PG-M01 x12"], and on quantities of 4300 and
    of 4301 digits. *)
Lemma shorthand_read_back_witness :
  split (lit " x") (lit "PG-M01 x12") = [lit "PG-M01"; lit "12"] /\
  py_int ascii_digits_only (lit "12") = Ok 12%Z /\
  sale_product_stmt ascii_digits_only (lit "TS-1_particuliers")
    (pstr "PG-M01 x12") empty_db
  = (stmt_link INCLUDES_PRODUCT
       (Sale, key "sale_id", pstr "TS-1_particuliers")
       (Product, key "product_id", pstr "PG-M01")
       [(key "quantity", PV (PInt 12))] empty_db, Ok tt) /\
  py_int ascii_digits_only (repeat 49%N 4300)
  = Ok (digits_value (repeat 49%N 4300)) /\
  py_int ascii_digits_only (repeat 49%N 4301) = Raise ValueError.
Proof.
  destruct (@shorthand_read_back ascii_digits_only (lit "PG-M01") (lit "12")
              eq_refl ltac:(discriminate) eq_refl)
    as (H1 & H2 & _).
  destruct (H2 ltac:(vm_compute; discriminate)) as (H3 & H4 & _).
  split; [exact H1|split; [exact H3|split; [|split]]].
  - apply (H4 (lit "TS-1_particuliers") empty_db).
  - destruct (@shorthand_read_back ascii_digits_only (lit "PG-M01")
                (repeat 49%N 4300)
                eq_refl ltac:(discriminate) ltac:(vm_compute; reflexivity))
      as (_ & H5 & _).
    apply (H5 ltac:(vm_compute; discriminate)).
  - destruct (@shorthand_read_back ascii_digits_only (lit "PG-M01")
                (repeat 49%N 4301)
                eq_refl ltac:(discriminate) ltac:(vm_compute; reflexivity))
      as (_ & _ & H5).
    apply (H5 ltac:(vm_compute; reflexivity)).
Defined.

(** [load_all_forgets_previous_graph] on the graph of another
    application: its node is gone, its index names are not. *)
Lemma load_all_forgets_previous_graph_witness :
  nodes (fst (load_all ascii_digits_only no_rendering two_segments
                renamed_products 7 foreign_graph))
  = nodes (fst (load_all ascii_digits_only no_rendering two_segments
                  renamed_products 7 empty_db)) /\
  In (lit "legacy_index")
    (indexes (fst (load_all ascii_digits_only no_rendering two_segments
                     renamed_products 7 foreign_graph))).
Proof.
  pose proof (load_all_forgets_previous_graph ascii_digits_only no_rendering
                two_segments renamed_products 7 foreign_graph) as H.
  cbv zeta in H. destruct H as (H1 & _ & _ & H4).
  split; [exact H1|].
  apply (proj2 (H4 (lit "legacy_index"))).
  left. left. reflexivity.
Defined.

(** [sale_linked_to_trade_show] on the private customers of the sample
    trade show, in a graph that has its node. *)
Lemma sale_linked_to_trade_show_witness :
  let g :=
    stmt_merge (TradeShow, key "event_id", fst trade_show_1_params)
      (snd trade_show_1_params) empty_db in
  let g' :=
    fst (sale_stmts ascii_digits_only no_rendering trade_show_1
           (lit "particuliers") g) in
  exists a,
    In a (match_nodes
            (Sale, key "sale_id",
             PStr (sale_id no_rendering (pstr "TS-1") (lit "particuliers")))
            g') /\
    In 0 (match_nodes (TradeShow, key "event_id", pstr "TS-1") g') /\
    rels_between SOLD_AT a 0 g' <> [].
Proof.
  apply (@sale_linked_to_trade_show ascii_digits_only no_rendering
           trade_show_1 (lit "particuliers") _ _ (PInt 2) (pstr "TS-1")
           (pstr "1 000") (float_of_Z 1000) _ 0
           eq_refl eq_refl eq_refl eq_refl eq_refl eq_refl eq_refl).
  left. reflexivity.
Defined.

(** [product_record_reloaded] on PG-M01. *)
Lemma product_record_reloaded_witness :
  product_stmts product_m01 graph_with_m01 = (graph_with_m01, Ok tt).
Proof.
  apply (@product_record_reloaded product_m01 empty_db). reflexivity.
Defined.
